(** * ComposeUI: the declarative widget configuration pipeline

    A shallow embedding of the core of the ComposeUI firmware
    (src/utils/HashTable.h, src/utils/Math.h, src/ui/widgets/Graticules.cpp,
    src/render/GraticulesRenderer.cpp, src/ui/lvgl/Screen.h,
    src/ui/builder/WidgetBuilder.cpp, src/ui/registry/WidgetRegistry.cpp,
    src/ui/pool/WidgetPool.cpp, src/display/TFT_HX8357D.h, src/main.cpp)
    together with the properties that its specification states about it.

    Conventions.
    - A C++ fixed-width integer is a [Z]; every narrowing conversion is
      written out ([int16], [uint8], [int8], [uint16]).  [int] is taken to
      be at least 32 bits wide, so that the intermediate arithmetic of the
      sources does not overflow, and [float] to be IEEE 754 binary32.
    - A C++ array is a [list] of its fixed length, updated with
      [<[i:=x]>].  The slots of the hash table, whose indices are reduced
      modulo the capacity, are read with [!!!]; the arrays of the grid are
      read with [!!], which is [None] outside the array.
    - Undefined behaviour (division by zero, an access outside an array,
      dereferencing a null or dangling pointer, the conversion of a [float]
      that does not fit the integer type) is the result [None]. *)

From Stdlib Require Import ZArith Lia Bool.
From Stdlib Require Import SpecFloat.
From stdpp Require Import base tactics option list numbers gmap.

Set Default Proof Using "Type*".

Local Open Scope nat_scope.

(** * src/utils/HashTable.h *)

Module HashTable.

(** One slot of the table ([struct Entry]). *)
Record Entry (Key Value : Type) : Type := mkEntry {
  key : Key;
  value : Value;
  occupied : bool;   (* true if this slot has ever been used *)
  deleted : bool     (* true if this slot was removed (tombstone) *)
}.
Arguments mkEntry {Key Value} _ _ _ _.
Arguments key {Key Value} _.
Arguments value {Key Value} _.
Arguments occupied {Key Value} _.
Arguments deleted {Key Value} _.

(** The operations of the sequences that the specification quantifies over. *)
Inductive Op (Key Value : Type) : Type :=
  | OpInsert (k : Key) (v : Value)
  | OpRemove (k : Key).
Arguments OpInsert {Key Value} _ _.
Arguments OpRemove {Key Value} _.

(** The three loops of the table have the shape
    [for (i = 0; i < Capacity; ++i) if (test(i)) { ...; return ...; }]:
    they stop at the first step that passes the test. *)
Fixpoint first_hit (test : nat → bool) (steps : list nat) : option nat :=
  match steps with
  | [] => None
  | i :: steps' => if test i then Some i else first_hit test steps'
  end.

Section HashTable.
(** The template parameters.  [to_size_t] is [static_cast<size_t>(key)];
    [Key0] and [Value0] are the value-initialised [Key{}] and [Value{}].
    [Capacity] is positive wherever the template is used: with no slot at
    all the remainder in [hashFunction] is undefined in the source, so the
    properties below are stated for a positive capacity. *)
Context {Key Value : Type} `{EqDecision Key}.
Variable to_size_t : Key → nat.
Variable Key0 : Key.
Variable Value0 : Value.
Variable Capacity : nat.

Abbreviation Entry := (Entry Key Value).
Abbreviation Table := (list Entry).

(** [Entry{}]: the default member initialisers. *)
Definition Entry0 : Entry := mkEntry Key0 Value0 false false.

#[local] Instance Entry_inhabited : Inhabited Entry := populate Entry0.

(** [HashTable() = default]: [std::array<Entry, Capacity>] of default
    entries. *)
Definition empty : Table := replicate Capacity Entry0.

Definition hashFunction (k : Key) : nat := to_size_t k mod Capacity.

(** [(index + i) % Capacity], the slot probed at step [i]. *)
Definition probe (index i : nat) : nat := (index + i) mod Capacity.

(** The test of the insertion loop:
    [!table[probe].occupied || table[probe].deleted || table[probe].key == key]. *)
Definition insertable (k : Key) (e : Entry) : bool :=
  negb (occupied e) || deleted e || bool_decide (key e = k).

(** The test of the lookup and removal loops:
    [table[probe].occupied && !table[probe].deleted && table[probe].key == key]. *)
Definition holds (k : Key) (e : Entry) : bool :=
  occupied e && negb (deleted e) && bool_decide (key e = k).

(** The body of [for (size_t i = 0; i < Capacity; ++i)] in [insert], over
    the remaining values of [i]. *)
Fixpoint insert_loop (steps : list nat) (index : nat) (k : Key) (v : Value)
    (table : Table) : bool * Table :=
  match steps with
  | [] => (false, table)
  | i :: steps' =>
      let p := probe index i in
      if insertable k (table !!! p)
      then (true, <[p := mkEntry k v true false]> table)
      else insert_loop steps' index k v table
  end.

Definition insert (k : Key) (v : Value) (table : Table) : bool * Table :=
  insert_loop (seq 0 Capacity) (hashFunction k) k v table.

(** [find]: the pointer to the stored value, [None] for [nullptr]. *)
Fixpoint find_loop (steps : list nat) (index : nat) (k : Key) (table : Table)
    : option Value :=
  match steps with
  | [] => None
  | i :: steps' =>
      let p := probe index i in
      if holds k (table !!! p)
      then Some (value (table !!! p))
      else find_loop steps' index k table
  end.

Definition find (k : Key) (table : Table) : option Value :=
  find_loop (seq 0 Capacity) (hashFunction k) k table.

Fixpoint remove_loop (steps : list nat) (index : nat) (k : Key) (table : Table)
    : bool * Table :=
  match steps with
  | [] => (false, table)
  | i :: steps' =>
      let p := probe index i in
      if holds k (table !!! p)
      then (true, <[p := mkEntry Key0 Value0 (occupied (table !!! p)) true]> table)
      else remove_loop steps' index k table
  end.

Definition remove (k : Key) (table : Table) : bool * Table :=
  remove_loop (seq 0 Capacity) (hashFunction k) k table.

(** A valid entry, as [getSize] and the iterator test it:
    [entry.occupied && !entry.deleted]. *)
Definition valid (e : Entry) : bool := occupied e && negb (deleted e).

Definition getSize (table : Table) : nat :=
  length (filter (λ e, valid e = true) table).

Definition isEmpty (table : Table) : bool := bool_decide (getSize table = 0).

(** [begin() .. end()]: the iterator skips the slots that are not valid
    and yields the others in table order. *)
Definition iterate (table : Table) : list Entry :=
  filter (λ e, valid e = true) table.

(** The number of valid slots that hold the key [k]. *)
Definition slots_of (k : Key) (table : Table) : nat :=
  length (filter (λ e, holds k e = true) table).

(** Sequences of operations, and the tables they reach from the empty
    one. *)
Definition apply (table : Table) (op : Op Key Value) : Table :=
  match op with
  | OpInsert k v => (insert k v table).2
  | OpRemove k => (remove k table).2
  end.

Definition run (ops : list (Op Key Value)) (table : Table) : Table :=
  foldl apply table ops.

(** The key that an operation works on. *)
Definition key_of (op : Op Key Value) : Key :=
  match op with OpInsert k _ => k | OpRemove k => k end.

(** The sequence that inserts the given pairs, in order. *)
Definition inserts (kvs : list (Key * Value)) : list (Op Key Value) :=
  map (λ kv, OpInsert kv.1 kv.2) kvs.

Inductive reachable : Table → Prop :=
  | reachable_empty : reachable empty
  | reachable_apply table op : reachable table → reachable (apply table op).

(** The lookup as the specification words it: it probes the same
    sequence, and stops and reports absent as soon as it reaches a slot
    that is empty (never occupied; a tombstone does not stop it). *)
Fixpoint find_spec_loop (steps : list nat) (index : nat) (k : Key) (table : Table)
    : option Value :=
  match steps with
  | [] => None
  | i :: steps' =>
      let p := probe index i in
      if holds k (table !!! p) then Some (value (table !!! p))
      else if negb (occupied (table !!! p)) then None
      else find_spec_loop steps' index k table
  end.

Definition find_spec (k : Key) (table : Table) : option Value :=
  find_spec_loop (seq 0 Capacity) (hashFunction k) k table.

(** The probe chains are unbroken: no slot that was never occupied lies on
    the probe sequence of a key before a valid slot that holds the key. *)
Definition chained (table : Table) : Prop :=
  ∀ k i, (i < Capacity)%nat →
    holds k (table !!! probe (hashFunction k) i) = true →
    ∀ j, (j < i)%nat → occupied (table !!! probe (hashFunction k) j) = true.

(** No slot of the table is a tombstone. *)
Definition no_tombstone (table : Table) : Prop :=
  ∀ q, (q < Capacity)%nat → deleted (table !!! q) = false.

(** Every valid slot is the home slot of the key that it holds. *)
Definition at_home (table : Table) : Prop :=
  ∀ q, (q < Capacity)%nat → valid (table !!! q) = true →
    hashFunction (key (table !!! q)) = q.

(** No two keys have the same home slot. *)
Definition collision_free : Prop :=
  ∀ k k', hashFunction k = hashFunction k' → k = k'.

End HashTable.

End HashTable.

Local Open Scope Z_scope.

(** * Fixed-width integers *)

(** The value of an integer after conversion to [int16_t], to [uint8_t],
    to [int8_t] and to [uint16_t] (reduction modulo 2^n into the range of
    the type). *)
Definition int16 (z : Z) : Z := (z + 32768) mod 65536 - 32768.
Definition uint8 (z : Z) : Z := z mod 256.
Definition int8 (z : Z) : Z := (z + 128) mod 256 - 128.
Definition uint16 (z : Z) : Z := z mod 65536.

Definition in_int16 (z : Z) : bool := bool_decide (-32768 ≤ z ≤ 32767).

(** A test on every integer of the range [base .. base + 2^depth - 1]. *)
Fixpoint all_from (test : Z → bool) (depth : nat) (base : Z) : bool :=
  match depth with
  | O => test base
  | S d => all_from test d base && all_from test d (base + 2 ^ Z.of_nat d)
  end.

(** A test on every pair of integers of two such ranges. *)
Definition all_pairs (test : Z → Z → bool) (depth1 : nat) (base1 : Z)
    (depth2 : nat) (base2 : Z) : bool :=
  all_from (λ x, all_from (test x) depth2 base2) depth1 base1.

(** * src/utils/Constants.h and src/utils/WidgetAttributes.h *)

Module Utils.

Definition MAX_WIDGETS : nat := 10.
Definition MAX_GRATICULES : Z := 20.

(** [enum class Type], the key of the registry and of the pool; the cast to
    [size_t] is the position of the enumerator. *)
Inductive WidgetType : Set := DEFAULT | LABEL | GRAPH.

#[global] Instance WidgetType_eq_dec : EqDecision WidgetType.
Proof. solve_decision. Defined.

Definition WidgetType_to_size_t (t : WidgetType) : nat :=
  match t with DEFAULT => 0%nat | LABEL => 1%nat | GRAPH => 2%nat end.

(** [enum class Color]: an RGB565 value ([DEFAULT] and [BLACK] are the same
    value). *)
Definition Color : Set := Z.
Definition Color_DEFAULT : Color := 0x0000.
Definition Color_BLACK : Color := 0x0000.
Definition Color_WHITE : Color := 0xFFFF.
Definition Color_RED : Color := 0xF800.

Inductive SizingMode : Set := ABSOLUTE | AREA_PERCENT | DIMENSION_PERCENT.

(** [struct Boundary]: an inclusive pixel rectangle, four [int16_t]. *)
Record Boundary : Set := mkBoundary { x1 : Z; y1 : Z; x2 : Z; y2 : Z }.

Record Geometry : Set := mkGeometry {
  mode : SizingMode;
  width : Z;
  height : Z;
  percentSize : Z;
  boundary : Boundary
}.

(** [struct Graph], the only member of [union Data]. *)
Record Graph : Set := mkGraph {
  originColor : Color;
  originThickness : Z;
  gridlineColor : Color;
  gridlineThickness : Z;
  xDivisionQty : Z;
  yDivisionQty : Z;
  xOriginIndex : Z;
  yOriginIndex : Z
}.

(** [struct Attributes].  The style groups (spacing, position, background,
    border, outline, text, label, part, behavior), the role and the name
    are only handed to the rendering library and are left out. *)
Record Attributes : Set := mkAttributes {
  isCustom : bool;
  type : WidgetType;
  geometry : Geometry;
  data_graph : Graph
}.

End Utils.

(** * src/utils/Math.h *)

Module Math.

(** [float] is IEEE 754 binary32: 24 bits of precision, exponents below
    128; the operations round to nearest, ties to even. *)
Definition prec : Z := 24.
Definition emax : Z := 128.

(** [static_cast<float>] of an integer. *)
Definition float_of_int (z : Z) : spec_float := binary_normalize prec emax z 0 false.

(** The conversion of a [float] to [int16_t]: the value truncated toward
    zero; undefined when the truncated value is not representable. *)
Definition trunc (f : spec_float) : option Z :=
  match f with
  | S754_zero _ => Some 0
  | S754_finite s m e =>
      let v := if bool_decide (0 ≤ e) then Z.pos m * 2 ^ e else Z.pos m ÷ 2 ^ (- e) in
      Some (if s then - v else v)
  | S754_infinity _ | S754_nan => None
  end.

Definition int16_of_float (f : spec_float) : option Z :=
  z ← trunc f; if in_int16 z then Some z else None.

Definition convertArea (width height : Z) : Utils.Boundary :=
  Utils.mkBoundary 0 0 (int16 (width - 1)) (int16 (height - 1)).

Definition dimensionScaling (percent dimension : Z) : option Z :=
  let scale := SFdiv prec emax (float_of_int percent) (float_of_int 100) in
  int16_of_float (SFmul prec emax scale (float_of_int dimension)).

Definition areaScaling (percent dimension : Z) : option Z :=
  let scale := SFdiv prec emax (float_of_int percent) (float_of_int 100) in
  let scalingFactor := SFsqrt prec emax scale in
  int16_of_float (SFmul prec emax scalingFactor (float_of_int dimension)).

(** [lv_color_t]: three [uint8_t] channels. *)
Record lv_color_t : Set := mk_lv_color { red : Z; green : Z; blue : Z }.

(** [convert565]: the three fields of an RGB565 pixel, each widened to 8
    bits by repeating its top bits below it.  The locals and the members
    are [uint8_t]. *)
Definition convert565 (color : Z) : lv_color_t :=
  let red := uint8 (Z.land (Z.shiftr color 11) 0x1F) in
  let green := uint8 (Z.land (Z.shiftr color 5) 0x3F) in
  let blue := uint8 (Z.land color 0x1F) in
  mk_lv_color
    (uint8 (Z.lor (Z.shiftl red 3) (Z.shiftr red 2)))
    (uint8 (Z.lor (Z.shiftl green 2) (Z.shiftr green 4)))
    (uint8 (Z.lor (Z.shiftl blue 3) (Z.shiftr blue 2))).

(** [enum565]: [static_cast<uint16_t>] of the enumerator. *)
Definition enum565 (color : Utils.Color) : Z := color mod 65536.

(** The RGB565 pixel made of the top 5, 6 and 5 bits of three 8-bit
    channels. *)
Definition pack565 (c : lv_color_t) : Z :=
  Z.lor (Z.lor (Z.shiftl (Z.shiftr (red c) 3) 11) (Z.shiftl (Z.shiftr (green c) 2) 5))
        (Z.shiftr (blue c) 3).

End Math.

(** * src/ui/widgets/Graticules.h and Graticules.cpp *)

Module Graticules.

(** [GraticulesLineSegment] and [PrivateLineSegment] have the same four
    [int16_t] members; one record stands for both. *)
Record LineSegment : Set := mkLineSegment { x1 : Z; y1 : Z; x2 : Z; y2 : Z }.

Inductive AxisType : Set := TIME | VOLTAGE.
Inductive LineType : Set := ORIGIN | GRIDLINE.

Record t : Set := mkGraticules {
  privateBoundary : Utils.Boundary;
  originColor : Utils.Color;
  originThickness : Z;
  gridlineColor : Utils.Color;
  gridlineThickness : Z;
  timeDivisions : Z;
  voltageDivisions : Z;
  xOriginIndex : Z;
  yOriginIndex : Z;
  timeStepSize : Z;
  voltageStepSize : Z;
  Time : list LineSegment;      (* PrivateLineSegment Time[MAX_GRATICULES] *)
  Voltage : list LineSegment    (* PrivateLineSegment Voltage[MAX_GRATICULES] *)
}.

Definition zeroSegment : LineSegment := mkLineSegment 0 0 0 0.

(** [Graticules() = default].  The two step sizes have no initialiser in the
    source; they are shown as 0 here and are not read before [configure]
    sets them. *)
Definition fresh : t :=
  mkGraticules (Utils.mkBoundary 0 0 0 0) Utils.Color_DEFAULT 0 Utils.Color_DEFAULT 0
    0 0 0 0 0 0
    (replicate (Z.to_nat Utils.MAX_GRATICULES) zeroSegment)
    (replicate (Z.to_nat Utils.MAX_GRATICULES) zeroSegment).

Definition set_steps (g : t) (ts vs : Z) : t :=
  mkGraticules (privateBoundary g) (originColor g) (originThickness g)
    (gridlineColor g) (gridlineThickness g) (timeDivisions g) (voltageDivisions g)
    (xOriginIndex g) (yOriginIndex g) ts vs (Time g) (Voltage g).

Definition set_lines (g : t) (time voltage : list LineSegment) : t :=
  mkGraticules (privateBoundary g) (originColor g) (originThickness g)
    (gridlineColor g) (gridlineThickness g) (timeDivisions g) (voltageDivisions g)
    (xOriginIndex g) (yOriginIndex g) (timeStepSize g) (voltageStepSize g)
    time voltage.

(** [setStepSize]: the two lengths are [int16_t]; the quotients are computed
    in [int] (truncating) and stored in [int16_t].  A zero divisor is
    undefined. *)
Definition setStepSize (g : t) : option t :=
  let b := privateBoundary g in
  let timeLength := int16 ((Utils.x2 b - Utils.x1 b) + 1) in
  let voltageLength := int16 ((Utils.y2 b - Utils.y1 b) + 1) in
  if bool_decide (timeDivisions g = 0) then None
  else if bool_decide (voltageDivisions g = 0) then None
  else Some (set_steps g (int16 (timeLength ÷ timeDivisions g))
                         (int16 (voltageLength ÷ voltageDivisions g))).

(** One of the two loops of [setLineSegments], over the remaining values of
    [i]: the store to element [i] of an array of [MAX_GRATICULES] elements
    is undefined when [i] is not below [MAX_GRATICULES]. *)
Fixpoint writeLines (line : Z → LineSegment) (steps : list Z)
    (array : list LineSegment) : option (list LineSegment) :=
  match steps with
  | [] => Some array
  | i :: steps' =>
      if bool_decide (i < Utils.MAX_GRATICULES)
      then writeLines line steps' (<[Z.to_nat i := line i]> array)
      else None
  end.

Definition timeLine (g : t) (i : Z) : LineSegment :=
  let b := privateBoundary g in
  let x := int16 (Utils.x1 b + i * timeStepSize g) in
  mkLineSegment x (Utils.y1 b) x (Utils.y2 b).

Definition voltageLine (g : t) (i : Z) : LineSegment :=
  let b := privateBoundary g in
  let y := int16 (Utils.y1 b + i * voltageStepSize g) in
  mkLineSegment (Utils.x1 b) y (Utils.x2 b) y.

Definition setLineSegments (g : t) : option t :=
  time ← writeLines (timeLine g) (seqZ 0 (timeDivisions g)) (Time g);
  voltage ← writeLines (voltageLine g) (seqZ 0 (voltageDivisions g)) (Voltage g);
  Some (set_lines g time voltage).

Definition configure (boundary : Utils.Boundary)
    (originColor : Utils.Color) (originThickness : Z)
    (gridlineColor : Utils.Color) (gridlineThickness : Z)
    (timeDivisions voltageDivisions xOriginIndex yOriginIndex : Z)
    (g : t) : option t :=
  let g1 :=
    mkGraticules boundary originColor originThickness gridlineColor
      gridlineThickness timeDivisions voltageDivisions xOriginIndex yOriginIndex
      (timeStepSize g) (voltageStepSize g) (Time g) (Voltage g) in
  g2 ← setStepSize g1;
  setLineSegments g2.

Definition getStepSize (type : AxisType) (g : t) : Z :=
  match type with TIME => timeStepSize g | VOLTAGE => voltageStepSize g end.

Definition getDivisions (type : AxisType) (g : t) : Z :=
  match type with TIME => timeDivisions g | VOLTAGE => voltageDivisions g end.

Definition getAxisIndex (type : AxisType) (g : t) : Z :=
  match type with TIME => xOriginIndex g | VOLTAGE => yOriginIndex g end.

Definition getColor (type : LineType) (g : t) : Z :=
  match type with
  | ORIGIN => Math.enum565 (originColor g)
  | GRIDLINE => Math.enum565 (gridlineColor g)
  end.

Definition getThickness (type : LineType) (g : t) : Z :=
  match type with ORIGIN => originThickness g | GRIDLINE => gridlineThickness g end.

(** [isValidIndex]: the count is converted to [uint8_t] before the
    comparison. *)
Definition isValidIndex (segmentIndex : Z) (type : AxisType) (g : t) : bool :=
  let graticuleCount :=
    uint8 (match type with TIME => timeDivisions g | VOLTAGE => voltageDivisions g end) in
  bool_decide (0 ≤ segmentIndex) && bool_decide (segmentIndex < graticuleCount).

(** [getLineSegment]: a valid index reads the array; the read is undefined
    ([None]) outside the array. *)
Definition getLineSegment (segmentIndex : Z) (type : AxisType) (g : t)
    : option LineSegment :=
  if negb (isValidIndex segmentIndex type g) then Some zeroSegment
  else match type with
       | TIME => Time g !! Z.to_nat segmentIndex
       | VOLTAGE => Voltage g !! Z.to_nat segmentIndex
       end.

Definition getBoundary (g : t) : Utils.Boundary := privateBoundary g.

(** The array of an axis, and the objects whose two arrays have their
    declared length. *)
Definition segments (type : AxisType) (g : t) : list LineSegment :=
  match type with TIME => Time g | VOLTAGE => Voltage g end.

Definition wf (g : t) : Prop :=
  length (Time g) = Z.to_nat Utils.MAX_GRATICULES ∧
  length (Voltage g) = Z.to_nat Utils.MAX_GRATICULES.

(** The boundaries whose members are [int16_t] values. *)
Definition in_range (b : Utils.Boundary) : Prop :=
  (-32768 ≤ Utils.x1 b ≤ 32767) ∧ (-32768 ≤ Utils.y1 b ≤ 32767) ∧
  (-32768 ≤ Utils.x2 b ≤ 32767) ∧ (-32768 ≤ Utils.y2 b ≤ 32767).

(** The display area of the specification's example, and a boundary that
    spans the whole positive range of [int16_t]. *)
Definition area_480x384 : Utils.Boundary := Utils.mkBoundary 0 0 479 383.
Definition area_wide : Utils.Boundary := Utils.mkBoundary 0 0 32767 383.

(** An object that is configured twice, the second time with a negative
    number of time divisions. *)
Definition reconfigured : option t :=
  g ← configure area_480x384 Utils.Color_RED 2 Utils.Color_BLACK 1 10 8 5 4 fresh;
  configure area_480x384 Utils.Color_RED 2 Utils.Color_BLACK 1 (-1) 8 5 4 g.

End Graticules.

(** * src/render/GraticulesRenderer.cpp *)

Module GraticulesRenderer.

(** [lv_draw_line_dsc_t], as far as the renderer sets it: the colour, the
    width and the two end points. *)
Record lv_draw_line_dsc_t : Set := mkLine {
  color : Math.lv_color_t;
  width : Z;
  p1_x : Z;
  p1_y : Z;
  p2_x : Z;
  p2_y : Z
}.

(** [initializeLineDescriptor]: the colour and the width of the style. *)
Definition initializeLineDescriptor (graticules : Graticules.t) (isOrigin : bool)
    : Math.lv_color_t * Z :=
  if isOrigin
  then (Math.convert565 (Graticules.getColor Graticules.ORIGIN graticules),
        Graticules.getThickness Graticules.ORIGIN graticules)
  else (Math.convert565 (Graticules.getColor Graticules.GRIDLINE graticules),
        Graticules.getThickness Graticules.GRIDLINE graticules).

(** The descriptor after [initializeLineDescriptor] and
    [setLineSegmentCoordinates]. *)
Definition setLineSegmentCoordinates (style : Math.lv_color_t * Z)
    (lineSegment : Graticules.LineSegment) : lv_draw_line_dsc_t :=
  mkLine style.1 style.2
    (Graticules.x1 lineSegment) (Graticules.y1 lineSegment)
    (Graticules.x2 lineSegment) (Graticules.y2 lineSegment).

(** The loop of [drawGraticule] over the remaining values of the [uint8_t]
    counter [i], which [getLineSegment] receives as an [int8_t]; the result
    is the list of the lines handed to [lv_draw_line], in order. *)
Fixpoint drawGraticule_loop (axisType : Graticules.AxisType)
    (graticules : Graticules.t) (axisIndex : Z) (steps : list Z)
    : option (list lv_draw_line_dsc_t) :=
  match steps with
  | [] => Some []
  | i :: steps' =>
      lineSegment ← Graticules.getLineSegment (int8 i) axisType graticules;
      let isOrigin := bool_decide (i = axisIndex) in
      let lineDescriptor :=
        setLineSegmentCoordinates (initializeLineDescriptor graticules isOrigin)
          lineSegment in
      lines ← drawGraticule_loop axisType graticules axisIndex steps';
      Some (lineDescriptor :: lines)
  end.

(** [drawGraticule]: the division count is read into a [uint8_t], the
    origin index into an [int8_t]. *)
Definition drawGraticule (axisType : Graticules.AxisType) (graticules : Graticules.t)
    : option (list lv_draw_line_dsc_t) :=
  let divisions := uint8 (Graticules.getDivisions axisType graticules) in
  let axisIndex := int8 (Graticules.getAxisIndex axisType graticules) in
  drawGraticule_loop axisType graticules axisIndex (seqZ 0 divisions).

(** [graticule_draw_event_cb]: the vertical lines, then the horizontal
    ones. *)
Definition graticule_draw_event_cb (graticules : Graticules.t)
    : option (list lv_draw_line_dsc_t) :=
  time ← drawGraticule Graticules.TIME graticules;
  voltage ← drawGraticule Graticules.VOLTAGE graticules;
  Some (time ++ voltage).

End GraticulesRenderer.

(** * src/ui/widgets/Widget.h *)

(** Objects live outside the two stores, which keep pointers to them.  A
    pointer is [None] ([nullptr]) or the address of an object in a heap. *)
Definition addr : Set := nat.

Module Widget.

(** [class Widget], with the members of the derived [class Graticules]
    when the object is one ([graticules = None] for a plain [Widget]). *)
Record t : Set := mkWidget {
  lvgl_object_pointer : option nat;
  callback : option nat;
  graticules : option Graticules.t
}.

Definition getLVGL (w : t) : option nat := lvgl_object_pointer w.
Definition getCallback (w : t) : option nat := callback w.
Definition setLVGL (p : option nat) (w : t) : t :=
  mkWidget p (callback w) (graticules w).
Definition setCallback (c : option nat) (w : t) : t :=
  mkWidget (lvgl_object_pointer w) c (graticules w).
Definition setGraticules (g : Graticules.t) (w : t) : t :=
  mkWidget (lvgl_object_pointer w) (callback w) (Some g).

End Widget.

(** * src/ui/registry/WidgetRegistry.cpp and src/ui/pool/WidgetPool.cpp *)

(** [HashTable<Utils::Widget::Type, T*, MAX_WIDGETS>]. *)
Abbreviation PointerTable := (list (HashTable.Entry Utils.WidgetType (option addr))).

Module WidgetRegistry.

Definition registerWidget (key : Utils.WidgetType) (value : option addr)
    (registry : PointerTable) : PointerTable :=
  (HashTable.insert Utils.WidgetType_to_size_t Utils.DEFAULT None Utils.MAX_WIDGETS key value registry).2.

Definition getAttribute (key : Utils.WidgetType) (registry : PointerTable) : option addr :=
  match HashTable.find Utils.WidgetType_to_size_t Utils.DEFAULT None Utils.MAX_WIDGETS key registry with
  | Some result => result
  | None => None
  end.

Definition removeWidget (key : Utils.WidgetType) (registry : PointerTable) : PointerTable :=
  (HashTable.remove Utils.WidgetType_to_size_t Utils.DEFAULT None Utils.MAX_WIDGETS key registry).2.

Definition isEmpty (registry : PointerTable) : bool := HashTable.isEmpty registry.

End WidgetRegistry.

Module WidgetPool.

Definition addWidget (key : Utils.WidgetType) (value : option addr)
    (pool : PointerTable) : PointerTable :=
  (HashTable.insert Utils.WidgetType_to_size_t Utils.DEFAULT None Utils.MAX_WIDGETS key value pool).2.

Definition getWidget (key : Utils.WidgetType) (pool : PointerTable) : option addr :=
  match HashTable.find Utils.WidgetType_to_size_t Utils.DEFAULT None Utils.MAX_WIDGETS key pool with
  | Some result => result
  | None => None
  end.

Definition removeWidget (key : Utils.WidgetType) (pool : PointerTable) : bool * PointerTable :=
  HashTable.remove Utils.WidgetType_to_size_t Utils.DEFAULT None Utils.MAX_WIDGETS key pool.

Definition isEmpty (pool : PointerTable) : bool := HashTable.isEmpty pool.

End WidgetPool.

(** The two singleton stores and the objects their entries point to. *)
Record World : Type := mkWorld {
  registry : PointerTable;
  pool : PointerTable;
  attributes : gmap addr Utils.Attributes;
  widgets : gmap addr Widget.t
}.

(** A [WidgetRegistry*] or [WidgetPool*]: both classes are singletons that
    cannot be copied or moved, so that a pointer is null or points to the
    one instance. *)
Inductive Service : Set := nullptr | instance.

Definition both (widgetRegistry widgetPool : Service) : bool :=
  match widgetRegistry, widgetPool with
  | instance, instance => true
  | _, _ => false
  end.

(** * src/ui/lvgl/Screen.h *)

Module Screen.

Inductive ScreenState : Set :=
  | UNINITIALIZED
  | SERVICES_SET
  | ERROR_SERVICES
  | WIDGETS_REGISTERED
  | ERROR_REGISTRATION
  | ATTRIBUTES_SET
  | ERROR_ATTRIBUTES
  | COMPLETE.

#[global] Instance ScreenState_eq_dec : EqDecision ScreenState.
Proof. solve_decision. Defined.

Definition is_error (s : ScreenState) : bool :=
  match s with
  | ERROR_SERVICES | ERROR_REGISTRATION | ERROR_ATTRIBUTES => true
  | _ => false
  end.

Record t : Set := mkScreen {
  state : ScreenState;
  widgetRegistry : Service;
  widgetPool : Service
}.

(** The screen after its constructor. *)
Definition init : t := mkScreen UNINITIALIZED nullptr nullptr.

Definition set_state (st : ScreenState) (s : t) : t :=
  mkScreen st (widgetRegistry s) (widgetPool s).

Definition setServices (widgetRegistry widgetPool : Service) (s : t) : t :=
  mkScreen (if both widgetRegistry widgetPool then SERVICES_SET else ERROR_SERVICES)
    widgetRegistry widgetPool.

(** The body of the loop of [setRegistry] for one record: the switch on the
    sizing mode, then the boundary of a custom widget.  The display
    resolution is a [uint16_t] handed to an [int16_t] parameter. *)
Definition resolveGeometry (horizontalRes verticalRes : Z) (a : Utils.Attributes)
    : option (Z * Z * Utils.Attributes) :=
  let g := Utils.geometry a in
  let store (w h : Z) :=
    Utils.mkGeometry (Utils.mode g) w h (Utils.percentSize g) (Utils.boundary g) in
  '(width, height, g1) ←
    match Utils.mode g with
    | Utils.ABSOLUTE => Some (Utils.width g, Utils.height g, g)
    | Utils.AREA_PERCENT =>
        width ← Math.areaScaling (Utils.percentSize g) (int16 horizontalRes);
        height ← Math.areaScaling (Utils.percentSize g) (int16 verticalRes);
        Some (width, height, store width height)
    | Utils.DIMENSION_PERCENT =>
        width ← Math.dimensionScaling (Utils.percentSize g) (int16 horizontalRes);
        height ← Math.dimensionScaling (Utils.percentSize g) (int16 verticalRes);
        Some (width, height, store width height)
    end;
  let g2 :=
    if Utils.isCustom a
    then Utils.mkGeometry (Utils.mode g1) (Utils.width g1) (Utils.height g1)
           (Utils.percentSize g1) (Math.convertArea width height)
    else g1 in
  Some (width, height,
        Utils.mkAttributes (Utils.isCustom a) (Utils.type a) g2 (Utils.data_graph a)).

(** [for (auto& entry : *widgetRegistry)] of [setRegistry]; the result is
    the flag [errorRegistration] and the records after the loop. *)
Fixpoint setRegistry_loop (horizontalRes verticalRes : Z)
    (entries : list (HashTable.Entry Utils.WidgetType (option addr)))
    (attributes : gmap addr Utils.Attributes)
    : option (bool * gmap addr Utils.Attributes) :=
  match entries with
  | [] => Some (false, attributes)
  | entry :: entries' =>
      match HashTable.value entry with
      | None => Some (true, attributes)
      | Some p =>
          a ← attributes !! p;
          '(_, _, a') ← resolveGeometry horizontalRes verticalRes a;
          setRegistry_loop horizontalRes verticalRes entries' (<[p := a']> attributes)
      end
  end.

Definition setRegistry (horizontalRes verticalRes : Z) (s : t) (w : World)
    : option (t * World) :=
  match widgetRegistry s with
  | nullptr => None
  | instance =>
      '(errorRegistration, attributes') ←
        setRegistry_loop horizontalRes verticalRes
          (HashTable.iterate (registry w)) (attributes w);
      Some (set_state (if errorRegistration : bool
                       then ERROR_REGISTRATION else WIDGETS_REGISTERED) s,
            mkWorld (registry w) (pool w) attributes' (widgets w))
  end.

(** The records on which the geometry step is looked at: a size mode in
    percent comes with a percentage from 0 to 100, the range that
    [WidgetAttributes.h] documents for [percentSize], and the stored size
    of a custom record in [ABSOLUTE] mode lies above the least [int16_t], so
    that [convertArea] can take one off it.  [record_in_range] asks this of
    the record of an entry, which is live unless the entry holds a null
    pointer. *)
Definition geometry_in_range (a : Utils.Attributes) : bool :=
  let g := Utils.geometry a in
  match Utils.mode g with
  | Utils.ABSOLUTE =>
      negb (Utils.isCustom a) ||
      (bool_decide (-32768 < Utils.width g ≤ 32767) &&
       bool_decide (-32768 < Utils.height g ≤ 32767))
  | Utils.AREA_PERCENT | Utils.DIMENSION_PERCENT =>
      bool_decide (0 ≤ Utils.percentSize g ≤ 100)
  end.

Definition record_in_range (attributes : gmap addr Utils.Attributes)
    (entry : HashTable.Entry Utils.WidgetType (option addr)) : bool :=
  match HashTable.value entry with
  | Some p =>
      match attributes !! p with
      | Some a => geometry_in_range a
      | None => false
      end
  | None => true
  end.

(** [for (auto& entry : *widgetPool)] of [setWidgets].  [createWidget] is
    the rendering library's answer to [Utils::LVGL::createWidget] (the new
    object, or [None] for a null pointer); the style calls change nothing in
    this model.  The result is the flag [errorAttributes] and the widgets
    after the loop. *)
Fixpoint setWidgets_loop (createWidget : Utils.WidgetType → option nat)
    (widgetRegistry : Service) (registry : PointerTable)
    (attributes : gmap addr Utils.Attributes)
    (entries : list (HashTable.Entry Utils.WidgetType (option addr)))
    (widgets : gmap addr Widget.t) : option (bool * gmap addr Widget.t) :=
  match entries with
  | [] => Some (false, widgets)
  | entry :: entries' =>
      let type := HashTable.key entry in
      match createWidget type with
      | None => Some (true, widgets)
      | Some thisWidget =>
          p ← HashTable.value entry;
          widget ← widgets !! p;
          let widgets1 := <[p := Widget.setLVGL (Some thisWidget) widget]> widgets in
          match widgetRegistry with
          | nullptr => None
          | instance =>
              match WidgetRegistry.getAttribute type registry with
              | None => Some (true, widgets1)
              | Some pa =>
                  _ ← attributes !! pa;
                  setWidgets_loop createWidget widgetRegistry registry attributes
                    entries' widgets1
              end
          end
      end
  end.

Definition setWidgets (createWidget : Utils.WidgetType → option nat) (s : t) (w : World)
    : option (t * World) :=
  match widgetPool s with
  | nullptr => None
  | instance =>
      '(errorAttributes, widgets') ←
        setWidgets_loop createWidget (widgetRegistry s) (registry w) (attributes w)
          (HashTable.iterate (pool w)) (widgets w);
      Some (set_state (if errorAttributes : bool
                       then ERROR_ATTRIBUTES else ATTRIBUTES_SET) s,
            mkWorld (registry w) (pool w) (attributes w) widgets')
  end.

(** [drawWidgets] reads every widget of the pool and sets the state. *)
Fixpoint drawWidgets_loop
    (entries : list (HashTable.Entry Utils.WidgetType (option addr)))
    (widgets : gmap addr Widget.t) : option unit :=
  match entries with
  | [] => Some ()
  | entry :: entries' =>
      p ← HashTable.value entry;
      _ ← widgets !! p;
      drawWidgets_loop entries' widgets
  end.

Definition drawWidgets (s : t) (w : World) : option t :=
  match widgetPool s with
  | nullptr => None
  | instance =>
      _ ← drawWidgets_loop (HashTable.iterate (pool w)) (widgets w);
      Some (set_state COMPLETE s)
  end.

(** [printWidgets] reads, for every widget of the pool, the widget and the
    record that the registry holds for its type. *)
Fixpoint printWidgets_loop (widgetRegistry : Service) (registry : PointerTable)
    (attributes : gmap addr Utils.Attributes)
    (entries : list (HashTable.Entry Utils.WidgetType (option addr)))
    (widgets : gmap addr Widget.t) : option unit :=
  match entries with
  | [] => Some ()
  | entry :: entries' =>
      let type := HashTable.key entry in
      p ← HashTable.value entry;
      _ ← widgets !! p;
      match widgetRegistry with
      | nullptr => None
      | instance =>
          pa ← WidgetRegistry.getAttribute type registry;
          _ ← attributes !! pa;
          printWidgets_loop widgetRegistry registry attributes entries' widgets
      end
  end.

Definition printWidgets (s : t) (w : World) : option unit :=
  match widgetPool s with
  | nullptr => None
  | instance =>
      printWidgets_loop (widgetRegistry s) (registry w) (attributes w)
        (HashTable.iterate (pool w)) (widgets w)
  end.

End Screen.

(** * src/ui/builder/WidgetBuilder.cpp *)

Module WidgetBuilder.

Inductive BuilderState : Set :=
  | UNINITIALIZED
  | SERVICES_SET
  | ERROR_SERVICES
  | BUILDING
  | ERROR_BUILDING
  | COMPLETE.

#[global] Instance BuilderState_eq_dec : EqDecision BuilderState.
Proof. solve_decision. Defined.

Definition is_error (s : BuilderState) : bool :=
  match s with
  | ERROR_SERVICES | ERROR_BUILDING => true
  | _ => false
  end.

Record t : Set := mkBuilder {
  state : BuilderState;
  widgetRegistry : Service;
  widgetPool : Service
}.

Definition init : t := mkBuilder UNINITIALIZED nullptr nullptr.

Definition set_state (st : BuilderState) (b : t) : t :=
  mkBuilder st (widgetRegistry b) (widgetPool b).

Definition setServices (widgetRegistry widgetPool : Service) (b : t) : t :=
  mkBuilder (if both widgetRegistry widgetPool then SERVICES_SET else ERROR_SERVICES)
    widgetRegistry widgetPool.

(** The handler of the [GRAPH] case: the payload of the record is handed to
    [Graticules::configure] of the instance. *)
Definition configureGraph (a : Utils.Attributes) (g : Graticules.t) : option Graticules.t :=
  let graph := Utils.data_graph a in
  Graticules.configure (Utils.boundary (Utils.geometry a))
    (Utils.originColor graph) (Utils.originThickness graph)
    (Utils.gridlineColor graph) (Utils.gridlineThickness graph)
    (Utils.xDivisionQty graph) (Utils.yDivisionQty graph)
    (Utils.xOriginIndex graph) (Utils.yOriginIndex graph) g.

(** The test [widgetAttributes && widgetPointer] on one entry. *)
Definition present (pool : PointerTable)
    (entry : HashTable.Entry Utils.WidgetType (option addr)) : bool :=
  match HashTable.value entry, WidgetPool.getWidget (HashTable.key entry) pool with
  | Some _, Some _ => true
  | _, _ => false
  end.

(** What the [GRAPH] handler relies on: the record of a [GRAPH] entry is a
    live object whose division counts lie between 1 and [MAX_GRATICULES],
    and the [GRAPH] instance of the pool is a live [Graticules] object. *)
Definition graph_record_ready (attributes : gmap addr Utils.Attributes)
    (entry : HashTable.Entry Utils.WidgetType (option addr)) : bool :=
  match HashTable.key entry, HashTable.value entry with
  | Utils.GRAPH, Some pa =>
      match attributes !! pa with
      | Some a =>
          bool_decide (1 ≤ Utils.xDivisionQty (Utils.data_graph a) ≤ Utils.MAX_GRATICULES) &&
          bool_decide (1 ≤ Utils.yDivisionQty (Utils.data_graph a) ≤ Utils.MAX_GRATICULES)
      | None => false
      end
  | _, _ => true
  end.

Definition graph_instance_ready (pool : PointerTable) (widgets : gmap addr Widget.t)
    : bool :=
  match WidgetPool.getWidget Utils.GRAPH pool with
  | Some pw =>
      match widgets !! pw with
      | Some widget => bool_decide (is_Some (Widget.graticules widget))
      | None => false
      end
  | None => true
  end.

Definition graph_ready (w : World) : bool :=
  forallb (graph_record_ready (attributes w)) (HashTable.iterate (registry w)) &&
  graph_instance_ready (pool w) (widgets w).

(** [for (auto& entry : *widgetRegistry)] of [setAttribute]; the result is
    the state that the function leaves and the widgets after the loop. *)
Fixpoint setAttribute_loop (widgetPool : Service) (pool : PointerTable)
    (attributes : gmap addr Utils.Attributes)
    (entries : list (HashTable.Entry Utils.WidgetType (option addr)))
    (widgets : gmap addr Widget.t) : option (BuilderState * gmap addr Widget.t) :=
  match entries with
  | [] => Some (COMPLETE, widgets)
  | entry :: entries' =>
      let widgetType := HashTable.key entry in
      let widgetAttributes := HashTable.value entry in
      match widgetPool with
      | nullptr => None
      | instance =>
          let widgetPointer := WidgetPool.getWidget widgetType pool in
          match widgetAttributes, widgetPointer with
          | Some pa, Some pw =>
              match widgetType with
              | Utils.GRAPH =>
                  a ← attributes !! pa;
                  widget ← widgets !! pw;
                  g ← Widget.graticules widget;
                  g' ← configureGraph a g;
                  setAttribute_loop widgetPool pool attributes entries'
                    (<[pw := Widget.setGraticules g' widget]> widgets)
              | _ => setAttribute_loop widgetPool pool attributes entries' widgets
              end
          | _, _ => Some (ERROR_BUILDING, widgets)
          end
      end
  end.

Definition setAttribute (b : t) (w : World) : option (t * World) :=
  match widgetRegistry b with
  | nullptr => None
  | instance =>
      '(st, widgets') ←
        setAttribute_loop (widgetPool b) (pool w) (attributes w)
          (HashTable.iterate (registry w)) (widgets w);
      Some (set_state st b, mkWorld (registry w) (pool w) (attributes w) widgets')
  end.

(** [setWidgets]: [while (building) switch (this->state)], with [fuel]
    bounding the number of iterations ([None] also when it runs out). *)
Fixpoint setWidgets (fuel : nat) (b : t) (w : World) : option (t * World) :=
  match fuel with
  | O => None
  | S fuel' =>
      match state b with
      | SERVICES_SET => setWidgets fuel' (set_state BUILDING b) w
      | BUILDING => '(b', w') ← setAttribute b w; setWidgets fuel' b' w'
      | COMPLETE => Some (b, w)
      | ERROR_BUILDING => Some (b, w)
      | _ => Some (set_state ERROR_BUILDING b, w)
      end
  end.

End WidgetBuilder.

(** * src/main.cpp *)

Module Main.

(** [setScreen]: [while (orchestrating) switch (screen.getState())]; the
    result is the returned flag, the screen and the world. *)
Fixpoint setScreen (horizontalRes verticalRes : Z)
    (createWidget : Utils.WidgetType → option nat) (fuel : nat)
    (widgetRegistry widgetPool : Service) (screen : Screen.t) (w : World)
    : option (bool * Screen.t * World) :=
  match fuel with
  | O => None
  | S fuel' =>
      let continue := setScreen horizontalRes verticalRes createWidget fuel'
                        widgetRegistry widgetPool in
      match Screen.state screen with
      | Screen.UNINITIALIZED =>
          continue (Screen.setServices widgetRegistry widgetPool screen) w
      | Screen.SERVICES_SET =>
          '(screen', w') ← Screen.setRegistry horizontalRes verticalRes screen w;
          continue screen' w'
      | Screen.ERROR_SERVICES => Some (false, screen, w)
      | Screen.WIDGETS_REGISTERED =>
          '(screen', w') ← Screen.setWidgets createWidget screen w;
          continue screen' w'
      | Screen.ERROR_REGISTRATION => Some (false, screen, w)
      | Screen.ATTRIBUTES_SET => Some (true, screen, w)
      | Screen.ERROR_ATTRIBUTES => Some (false, screen, w)
      | Screen.COMPLETE => Some (false, screen, w)
      end
  end.

(** [setBuilder]; the inner loop of [WidgetBuilder::setWidgets] needs at
    most three iterations. *)
Fixpoint setBuilder (fuel : nat) (widgetRegistry widgetPool : Service)
    (builder : WidgetBuilder.t) (w : World) : option (bool * WidgetBuilder.t * World) :=
  match fuel with
  | O => None
  | S fuel' =>
      match WidgetBuilder.state builder with
      | WidgetBuilder.UNINITIALIZED =>
          setBuilder fuel' widgetRegistry widgetPool
            (WidgetBuilder.setServices widgetRegistry widgetPool builder) w
      | WidgetBuilder.SERVICES_SET =>
          '(builder', w') ← WidgetBuilder.setWidgets 3 builder w;
          setBuilder fuel' widgetRegistry widgetPool builder' w'
      | WidgetBuilder.ERROR_SERVICES => Some (false, builder, w)
      | WidgetBuilder.COMPLETE => Some (true, builder, w)
      | WidgetBuilder.ERROR_BUILDING => Some (false, builder, w)
      | WidgetBuilder.BUILDING => Some (false, builder, w)
      end
  end.

(** [setup] from its step 7 on, on the stores that [addWidgets] and
    [registerWidgets] have filled; the screen and the builder are new.  The
    result is the screen, the builder and the stores when [setup] returns. *)
Definition setup (horizontalRes verticalRes : Z)
    (createWidget : Utils.WidgetType → option nat) (w : World)
    : option (Screen.t * WidgetBuilder.t * World) :=
  '(ok, screen, w1) ←
    setScreen horizontalRes verticalRes createWidget 4 instance instance Screen.init w;
  if negb ok then Some (screen, WidgetBuilder.init, w1)
  else
    '(ok', builder, w2) ← setBuilder 3 instance instance WidgetBuilder.init w1;
    if negb ok' then Some (screen, builder, w2)
    else
      screen' ← Screen.drawWidgets screen w2;
      _ ← Screen.printWidgets screen' w2;
      Some (screen', builder, w2).

(** What [setup] relies on.  Every entry of the registry holds a live record
    whose geometry can be resolved, and the pool has an instance for its
    type; every entry of the pool holds a live widget, the rendering
    library creates an object for its type, and the registry has a live
    record for its type; the [GRAPH] handler is ready. *)
Definition record_ready (horizontalRes verticalRes : Z) (w : World)
    (entry : HashTable.Entry Utils.WidgetType (option addr)) : bool :=
  match HashTable.value entry with
  | Some pa =>
      match attributes w !! pa with
      | Some a =>
          bool_decide (is_Some (Screen.resolveGeometry horizontalRes verticalRes a)) &&
          bool_decide (is_Some (WidgetPool.getWidget (HashTable.key entry) (pool w)))
      | None => false
      end
  | None => false
  end.

Definition instance_ready (createWidget : Utils.WidgetType → option nat) (w : World)
    (entry : HashTable.Entry Utils.WidgetType (option addr)) : bool :=
  match HashTable.value entry with
  | Some pw =>
      bool_decide (is_Some (widgets w !! pw)) &&
      bool_decide (is_Some (createWidget (HashTable.key entry))) &&
      match WidgetRegistry.getAttribute (HashTable.key entry) (registry w) with
      | Some pa => bool_decide (is_Some (attributes w !! pa))
      | None => false
      end
  | None => false
  end.

Definition well_formed (horizontalRes verticalRes : Z)
    (createWidget : Utils.WidgetType → option nat) (w : World) : bool :=
  forallb (record_ready horizontalRes verticalRes w) (HashTable.iterate (registry w)) &&
  forallb (instance_ready createWidget w) (HashTable.iterate (pool w)) &&
  WidgetBuilder.graph_ready w.

End Main.

(** * src/ui/definitions/WidgetDefinitions.cpp, src/ui/instances/WidgetInstances.cpp *)

Module Definitions.

(** The records after [setGraticules] and [setLabel]. *)
Definition graticules : Utils.Attributes :=
  Utils.mkAttributes true Utils.GRAPH
    (Utils.mkGeometry Utils.AREA_PERCENT 0 0 70 (Utils.mkBoundary 0 0 0 0))
    (Utils.mkGraph Utils.Color_RED 2 Utils.Color_BLACK 1 10 8 5 4).

Definition label : Utils.Attributes :=
  Utils.mkAttributes false Utils.LABEL
    (Utils.mkGeometry Utils.ABSOLUTE 150 25 0 (Utils.mkBoundary 0 0 0 0))
    (Utils.mkGraph Utils.Color_DEFAULT 0 Utils.Color_DEFAULT 0 0 0 0 0).

(** The addresses of the two records and of the two instances. *)
Definition graticules_addr : addr := 0%nat.
Definition label_addr : addr := 1%nat.

Definition emptyTable : PointerTable :=
  HashTable.empty Utils.DEFAULT None Utils.MAX_WIDGETS.

(** The stores after [addWidgets] and [registerWidgets]. *)
Definition world : World :=
  mkWorld
    (WidgetRegistry.registerWidget Utils.LABEL (Some label_addr)
       (WidgetRegistry.registerWidget Utils.GRAPH (Some graticules_addr) emptyTable))
    (WidgetPool.addWidget Utils.LABEL (Some label_addr)
       (WidgetPool.addWidget Utils.GRAPH (Some graticules_addr) emptyTable))
    (<[label_addr := label]> {[graticules_addr := graticules]})
    (<[label_addr := Widget.mkWidget None None None]>
       {[graticules_addr := Widget.mkWidget None (Some 0%nat) (Some Graticules.fresh)]}).

(** The same stores when the label was registered with a null record. *)
Definition world_null_label : World :=
  mkWorld
    (WidgetRegistry.registerWidget Utils.LABEL None
       (WidgetRegistry.registerWidget Utils.GRAPH (Some graticules_addr) emptyTable))
    (pool world) (attributes world) (widgets world).

(** The resolution of the display, [TFT_HX8357D]. *)
Definition horizontalRes : Z := 480.
Definition verticalRes : Z := 320.

(** A rendering library that creates every object it is asked for. *)
Definition createWidget (type : Utils.WidgetType) : option nat :=
  Some (Utils.WidgetType_to_size_t type).

End Definitions.

(** * src/display/TFT_HX8357D.h *)

Module TFT_HX8357D.

Definition horizontalRes : Z := 480.
Definition verticalRes : Z := 320.

(** [struct Area], four [uint16_t]. *)
Record Area : Set := mkArea { x1 : Z; y1 : Z; x2 : Z; y2 : Z }.

(** One transaction of the driver: the address window of [setAddrWindow]
    and the pixels that [writePixels] sends. *)
Record Write : Set := mkWrite { x : Z; y : Z; w : Z; h : Z; pixels : list Z }.

(** One block of [debugDraw]: an array of 100 pixels of one colour, of
    which [writePixels] sends the first [width * height]; undefined when
    that is more than the array holds. *)
Definition drawBlock (area : Area) (color : Z) : option Write :=
  let width := uint16 (x2 area - x1 area + 1) in
  let height := uint16 (y2 area - y1 area + 1) in
  let pixels := replicate 100 color in
  if bool_decide (width * height ≤ 100)
  then Some (mkWrite (x1 area) (y1 area) width height
               (take (Z.to_nat (width * height)) pixels))
  else None.

(** The three blocks of [debugDraw] for a screen of the given size. *)
Definition debugDrawOn (screenWidth screenHeight : Z) : option (list Write) :=
  red ← drawBlock (mkArea 0 0 9 9) 0xF800;
  green ← drawBlock (mkArea 0 (uint16 (screenHeight - 9)) 9 (uint16 (screenHeight - 1)))
             0x07E0;
  blue ← drawBlock (mkArea (uint16 (screenWidth - 9)) (uint16 (screenHeight - 9))
                      (uint16 (screenWidth - 1)) (uint16 (screenHeight - 1)))
            0x001F;
  Some [red; green; blue].

Definition debugDraw (isPortrait : bool) : option (list Write) :=
  let screenWidth := if isPortrait then verticalRes else horizontalRes in
  let screenHeight := if isPortrait then horizontalRes else verticalRes in
  debugDrawOn screenWidth screenHeight.

End TFT_HX8357D.

(** * Concrete tables *)

(** [HashTable<unsigned, int, MAX_WIDGETS>]: integer keys, which the cast to
    [size_t] leaves as they are, in a table of the capacity of the two
    stores. *)
Module NatTable.

Definition Capacity : nat := Utils.MAX_WIDGETS.
Abbreviation Table := (list (HashTable.Entry nat nat)).
Definition empty : Table := HashTable.empty 0%nat 0%nat Capacity.
Definition insert := HashTable.insert (Value := nat) id 0%nat 0%nat Capacity.
Definition find := HashTable.find (Value := nat) id 0%nat 0%nat Capacity.
Definition remove := HashTable.remove (Value := nat) id 0%nat 0%nat Capacity.
Definition find_spec := HashTable.find_spec (Value := nat) id 0%nat 0%nat Capacity.
Definition run := HashTable.run (Value := nat) id 0%nat 0%nat Capacity.

(** The keys 0 and 10 share the home slot 0.  The second [insert] of key 10
    comes after the removal of key 0. *)
Definition collide : list (HashTable.Op nat nat) :=
  [HashTable.OpInsert 0 100; HashTable.OpInsert 10 200;
   HashTable.OpRemove 0; HashTable.OpInsert 10 300]%nat.

(** Ten pairwise distinct keys, three of them with the home slot 0. *)
Definition ten : list (nat * nat) :=
  [(0, 100); (10, 110); (20, 120); (3, 103); (4, 104);
   (5, 105); (6, 106); (7, 107); (8, 108); (9, 109)]%nat.

End NatTable.

(** * Properties of the hash table *)

Module HashTableFacts.
Import HashTable.

Local Open Scope nat_scope.

Lemma first_hit_seq_Some (test : nat → bool) (a n i : nat) :
  first_hit test (seq a n) = Some i →
  a ≤ i < a + n ∧ test i = true ∧ ∀ j, a ≤ j < i → test j = false.
Proof.
  revert a. induction n as [|n IH]; intros a; simpl; [done|].
  destruct (test a) eqn:Ha.
  - intros [= <-]. split; [lia|]. split; [done|]. intros j ?; lia.
  - intros Hi. destruct (IH _ Hi) as (Hr & Ht & Hlt).
    split; [lia|]. split; [done|]. intros j Hj.
    destruct (decide (j = a)) as [->|]; [done|]. apply Hlt; lia.
Qed.

Lemma first_hit_seq_None (test : nat → bool) (a n : nat) :
  first_hit test (seq a n) = None → ∀ j, a ≤ j < a + n → test j = false.
Proof.
  revert a. induction n as [|n IH]; intros a; simpl; [intros _ j; lia|].
  destruct (test a) eqn:Ha; [done|]. intros Hn j Hj.
  destruct (decide (j = a)) as [->|]; [done|]. apply (IH _ Hn); lia.
Qed.

Lemma first_hit_seq_first (test : nat → bool) (a n i : nat) :
  a ≤ i < a + n → test i = true → (∀ j, a ≤ j < i → test j = false) →
  first_hit test (seq a n) = Some i.
Proof.
  intros Hi Ht Hlt. destruct (first_hit test (seq a n)) as [i'|] eqn:Hf.
  - apply first_hit_seq_Some in Hf as (Hr & Ht' & Hlt'). f_equal.
    destruct (Nat.lt_trichotomy i i') as [?|[?|?]]; [|done|].
    + rewrite Hlt' in Ht by lia. done.
    + rewrite Hlt in Ht' by lia. done.
  - rewrite (first_hit_seq_None _ _ _ Hf i) in Ht by done. done.
Qed.

Lemma first_hit_ext (f g : nat → bool) (steps : list nat) :
  (∀ i, i ∈ steps → f i = g i) → first_hit f steps = first_hit g steps.
Proof.
  induction steps as [|i steps IH]; intros Hfg; simpl; [done|].
  rewrite <- (Hfg i) by left. destruct (f i); [done|].
  apply IH. intros j Hj. apply Hfg. by right.
Qed.

(** ** Counting the elements of an array that pass a test *)

Section Counting.
Context {A : Type} `{Inhabited A} (P : A → Prop) `{∀ x, Decision (P x)}.

Lemma length_filter_insert (l : list A) (p : nat) (x : A) :
  p < length l →
  length (filter P (<[p := x]> l)) + (if decide (P (l !!! p)) then 1 else 0) =
  length (filter P l) + (if decide (P x) then 1 else 0).
Proof.
  revert p. induction l as [|y l IH]; intros p Hp; simpl in *; [lia|].
  destruct p as [|p]; simpl.
  - rewrite !filter_cons. repeat case_decide; simpl; lia.
  - specialize (IH p ltac:(lia)).
    rewrite !filter_cons. change ((y :: l) !!! S p) with (l !!! p).
    repeat case_decide; simpl; lia.
Qed.

Lemma length_filter_lt_exists (l : list A) :
  length (filter P l) < length l → ∃ q, q < length l ∧ ¬ P (l !!! q).
Proof.
  induction l as [|y l IH]; simpl; [lia|]. rewrite filter_cons.
  case_decide as Hy; simpl; intros Hlt.
  - destruct IH as (q & Hq & Hn); [lia|]. exists (S q). split; [lia|done].
  - exists 0. split; [lia|done].
Qed.

Lemma length_filter_all (l : list A) :
  length (filter P l) = length l → ∀ q, q < length l → P (l !!! q).
Proof.
  induction l as [|y l IH]; simpl; [intros _ q; lia|]. rewrite filter_cons.
  pose proof (length_filter P l).
  case_decide as Hy; simpl; intros Hlen q Hq; [|lia].
  destruct q as [|q]; [done|]. apply IH; lia.
Qed.

End Counting.

Section Facts.
Context {Key Value : Type} `{EqDecision Key}.
Variable to_size_t : Key → nat.
Variable Key0 : Key.
Variable Value0 : Value.
Variable Capacity : nat.

#[local] Abbreviation Table := (list (Entry Key Value)).
#[local] Abbreviation hash := (hashFunction to_size_t Capacity).
#[local] Abbreviation slot := (probe Capacity).
#[local] Abbreviation empty := (@HashTable.empty Key Value Key0 Value0 Capacity).
#[local] Abbreviation insert := (HashTable.insert to_size_t Key0 Value0 Capacity).
#[local] Abbreviation find := (HashTable.find to_size_t Key0 Value0 Capacity).
#[local] Abbreviation remove := (HashTable.remove to_size_t Key0 Value0 Capacity).
#[local] Abbreviation find_spec := (HashTable.find_spec to_size_t Key0 Value0 Capacity).
#[local] Abbreviation apply := (HashTable.apply to_size_t Key0 Value0 Capacity).
#[local] Abbreviation run := (HashTable.run to_size_t Key0 Value0 Capacity).
#[local] Abbreviation reachable := (HashTable.reachable to_size_t Key0 Value0 Capacity).
#[local] Abbreviation chained := (HashTable.chained to_size_t Key0 Value0 Capacity).
#[local] Abbreviation no_tombstone := (HashTable.no_tombstone Key0 Value0 Capacity).
#[local] Abbreviation at_home := (HashTable.at_home to_size_t Key0 Value0 Capacity).
#[local] Abbreviation collision_free := (HashTable.collision_free to_size_t Capacity).
#[local] Hint Extern 0 (Inhabited (Entry _ _)) =>
  exact (Entry_inhabited Key0 Value0) : typeclass_instances.

(** ** The probe sequence *)

Lemma probe_lt (index i : nat) : 0 < Capacity → slot index i < Capacity.
Proof. intros. apply Nat.mod_upper_bound. lia. Qed.

Lemma probe_inj (index i j : nat) :
  i < Capacity → j < Capacity → slot index i = slot index j → i = j.
Proof.
  unfold probe. intros Hi Hj Heq.
  assert (Capacity ≠ 0) as HC by lia.
  pose proof (Nat.div_mod (index + i) Capacity HC) as E1.
  pose proof (Nat.div_mod (index + j) Capacity HC) as E2.
  rewrite Heq in E1.
  set (q1 := (index + i) `div` Capacity) in *.
  set (q2 := (index + j) `div` Capacity) in *.
  destruct (Nat.lt_trichotomy q1 q2) as [Hlt|[Heq'|Hgt]].
  - assert (Capacity * q1 + Capacity ≤ Capacity * q2) by nia. lia.
  - rewrite Heq' in E1. lia.
  - assert (Capacity * q2 + Capacity ≤ Capacity * q1) by nia. lia.
Qed.

Lemma probe_surj (index q : nat) :
  q < Capacity → ∃ i, i < Capacity ∧ slot index i = q.
Proof.
  intros Hq. assert (Capacity ≠ 0) as HC by lia.
  pose proof (Nat.mod_upper_bound index Capacity HC) as Hm.
  exists ((q + Capacity - index mod Capacity) mod Capacity).
  split; [by apply Nat.mod_upper_bound|].
  unfold probe. rewrite Nat.Div0.add_mod_idemp_r.
  rewrite (Nat.div_mod index Capacity HC) at 1.
  replace (Capacity * (index `div` Capacity) + index `mod` Capacity
           + (q + Capacity - index `mod` Capacity))
    with (q + (1 + index `div` Capacity) * Capacity) by lia.
  rewrite Nat.Div0.mod_add. by apply Nat.mod_small.
Qed.

(** ** The tests on one entry *)

Lemma insertable_false (k : Key) (e : Entry Key Value) :
  insertable k e = false ↔ occupied e = true ∧ deleted e = false ∧ key e ≠ k.
Proof.
  unfold insertable. destruct (occupied e), (deleted e); simpl;
    rewrite ?bool_decide_eq_false; intuition congruence.
Qed.

Lemma holds_true (k : Key) (e : Entry Key Value) :
  holds k e = true ↔ occupied e = true ∧ deleted e = false ∧ key e = k.
Proof.
  unfold holds. destruct (occupied e), (deleted e); simpl;
    rewrite ?bool_decide_eq_true; intuition congruence.
Qed.

Lemma holds_valid (k : Key) (e : Entry Key Value) : holds k e = true → valid e = true.
Proof. rewrite holds_true. unfold valid. by intros (-> & -> & _). Qed.

Lemma holds_insertable (k : Key) (e : Entry Key Value) :
  holds k e = true → insertable k e = true.
Proof.
  rewrite holds_true. intros (_ & _ & Hk). unfold insertable.
  rewrite (bool_decide_eq_true_2 _ Hk). by rewrite !orb_true_r.
Qed.

Lemma holds_other (k k' : Key) (e : Entry Key Value) :
  k' ≠ k → insertable k e = true → holds k' e = false.
Proof.
  intros Hne Hins. destruct (holds k' e) eqn:Hh; [|done].
  apply holds_true in Hh as (Ho & Hd & Hk). unfold insertable in Hins.
  rewrite Ho, Hd in Hins. simpl in Hins. apply bool_decide_eq_true in Hins. congruence.
Qed.

(** ** The loops as searches for the first hit *)

Lemma insert_loop_first_hit steps index k v (table : Table) :
  insert_loop Key0 Value0 Capacity steps index k v table =
  match first_hit (λ i, insertable k (table !!! slot index i)) steps with
  | Some i => (true, <[slot index i := mkEntry k v true false]> table)
  | None => (false, table)
  end.
Proof.
  induction steps as [|i steps IH]; simpl; [done|].
  by destruct (insertable k (table !!! slot index i)).
Qed.

Lemma find_loop_first_hit steps index k (table : Table) :
  find_loop Key0 Value0 Capacity steps index k table =
  (λ i, value (table !!! slot index i)) <$>
    first_hit (λ i, holds k (table !!! slot index i)) steps.
Proof.
  induction steps as [|i steps IH]; simpl; [done|].
  by destruct (holds k (table !!! slot index i)).
Qed.

Lemma remove_loop_first_hit steps index k (table : Table) :
  remove_loop Key0 Value0 Capacity steps index k table =
  match first_hit (λ i, holds k (table !!! slot index i)) steps with
  | Some i =>
      (true, <[slot index i :=
                 mkEntry Key0 Value0 (occupied (table !!! slot index i)) true]> table)
  | None => (false, table)
  end.
Proof.
  induction steps as [|i steps IH]; simpl; [done|].
  by destruct (holds k (table !!! slot index i)).
Qed.

(** [insert] either finds no usable slot on the whole probe sequence and
    changes nothing, or writes the pair into the first usable slot. *)
Lemma insert_cases k v (table : Table) :
  (insert k v table = (false, table) ∧
   ∀ j, j < Capacity → insertable k (table !!! slot (hash k) j) = false)
  ∨ (∃ i, i < Capacity ∧
       insertable k (table !!! slot (hash k) i) = true ∧
       (∀ j, j < i → insertable k (table !!! slot (hash k) j) = false) ∧
       insert k v table =
         (true, <[slot (hash k) i := mkEntry k v true false]> table)).
Proof.
  unfold HashTable.insert. rewrite insert_loop_first_hit.
  destruct (first_hit _ _) as [i|] eqn:Hf.
  - right. apply first_hit_seq_Some in Hf as (Hr & Ht & Hlt).
    exists i. split; [lia|]. split; [done|]. split; [|done].
    intros j Hj. apply Hlt. lia.
  - left. split; [done|]. intros j Hj.
    apply (first_hit_seq_None _ _ _ Hf). lia.
Qed.

Lemma find_cases k (table : Table) :
  (find k table = None ∧
   ∀ j, j < Capacity → holds k (table !!! slot (hash k) j) = false)
  ∨ (∃ i, i < Capacity ∧
       holds k (table !!! slot (hash k) i) = true ∧
       (∀ j, j < i → holds k (table !!! slot (hash k) j) = false) ∧
       find k table = Some (value (table !!! slot (hash k) i))).
Proof.
  unfold HashTable.find. rewrite find_loop_first_hit.
  destruct (first_hit _ _) as [i|] eqn:Hf.
  - right. apply first_hit_seq_Some in Hf as (Hr & Ht & Hlt).
    exists i. split; [lia|]. split; [done|]. split; [|done].
    intros j Hj. apply Hlt. lia.
  - left. split; [done|]. intros j Hj.
    apply (first_hit_seq_None _ _ _ Hf). lia.
Qed.

Lemma remove_cases k (table : Table) :
  (remove k table = (false, table) ∧
   ∀ j, j < Capacity → holds k (table !!! slot (hash k) j) = false)
  ∨ (∃ i, i < Capacity ∧
       holds k (table !!! slot (hash k) i) = true ∧
       (∀ j, j < i → holds k (table !!! slot (hash k) j) = false) ∧
       remove k table =
         (true, <[slot (hash k) i :=
                    mkEntry Key0 Value0 (occupied (table !!! slot (hash k) i)) true]>
                  table)).
Proof.
  unfold HashTable.remove. rewrite remove_loop_first_hit.
  destruct (first_hit _ _) as [i|] eqn:Hf.
  - right. apply first_hit_seq_Some in Hf as (Hr & Ht & Hlt).
    exists i. split; [lia|]. split; [done|]. split; [|done].
    intros j Hj. apply Hlt. lia.
  - left. split; [done|]. intros j Hj.
    apply (first_hit_seq_None _ _ _ Hf). lia.
Qed.

(** ** The length of the table never changes *)

Lemma length_empty : length empty = Capacity.
Proof. apply length_replicate. Qed.

Lemma length_insert_table k v (table : Table) :
  length (insert k v table).2 = length table.
Proof.
  destruct (insert_cases k v table) as [[-> _]|(i & _ & _ & _ & ->)]; simpl;
    [done|apply length_insert].
Qed.

Lemma length_remove_table k (table : Table) :
  length (remove k table).2 = length table.
Proof.
  destruct (remove_cases k table) as [[-> _]|(i & _ & _ & _ & ->)]; simpl;
    [done|apply length_insert].
Qed.

Lemma length_apply op (table : Table) : length (apply table op) = length table.
Proof. destruct op; [apply length_insert_table|apply length_remove_table]. Qed.

Lemma reachable_length (table : Table) : reachable table → length table = Capacity.
Proof.
  induction 1 as [|table op _ IH]; [apply length_empty|].
  by rewrite length_apply.
Qed.

(** ** Lookups after an update *)

Lemma find_ext k (table table' : Table) :
  (∀ p, p < Capacity →
     holds k (table' !!! p) = holds k (table !!! p) ∧
     (holds k (table !!! p) = true → value (table' !!! p) = value (table !!! p))) →
  find k table' = find k table.
Proof.
  intros Hsame. unfold HashTable.find. rewrite !find_loop_first_hit.
  assert (first_hit (λ i, holds k (table' !!! slot (hash k) i)) (seq 0 Capacity)
          = first_hit (λ i, holds k (table !!! slot (hash k) i)) (seq 0 Capacity))
    as ->.
  { apply first_hit_ext. intros i Hi%elem_of_seq.
    apply Hsame, probe_lt. lia. }
  destruct (first_hit _ _) as [i|] eqn:Hf; simpl; [|done].
  apply first_hit_seq_Some in Hf as (Hr & Ht & _). f_equal.
  apply Hsame; [apply probe_lt; lia|done].
Qed.

(** A successful [insert] is seen by the next [find] of the same key. *)
Lemma find_insert_eq k v (table : Table) :
  length table = Capacity → (insert k v table).1 = true →
  find k (insert k v table).2 = Some v.
Proof.
  intros Hlen Hok.
  destruct (insert_cases k v table) as [[E _]|(i & Hi & Hins & Hbefore & E)];
    rewrite E in Hok |- *; simpl in *; [done|].
  assert (slot (hash k) i < length table) as Hp by (rewrite Hlen; apply probe_lt; lia).
  unfold HashTable.find. rewrite find_loop_first_hit.
  rewrite (first_hit_seq_first _ 0 Capacity i); simpl.
  - by rewrite list_lookup_total_insert_eq.
  - lia.
  - rewrite list_lookup_total_insert_eq by done. apply holds_true. simpl. done.
  - intros j Hj. rewrite list_lookup_total_insert_ne.
    + specialize (Hbefore j ltac:(lia)). apply insertable_false in Hbefore.
      destruct (holds k (table !!! slot (hash k) j)) eqn:Hh; [|done].
      apply holds_true in Hh. destruct Hbefore as (_ & _ & ?), Hh as (_ & _ & ?). done.
    + intros Heq. apply probe_inj in Heq; lia.
Qed.

(** [insert] does not change what [find] reports for another key. *)
Lemma find_insert_ne k k' v (table : Table) :
  length table = Capacity → k' ≠ k →
  find k' (insert k v table).2 = find k' table.
Proof.
  intros Hlen Hne.
  destruct (insert_cases k v table) as [[-> _]|(i & Hi & Hins & _ & ->)];
    simpl; [done|].
  apply find_ext. intros p Hp.
  rewrite list_lookup_total_insert.
  case_decide as Hq; [destruct Hq as [<- _]|done].
  rewrite (holds_other k k' _ Hne Hins). split; [|done].
  unfold holds. simpl. rewrite bool_decide_eq_false_2; [done|congruence].
Qed.

(** [remove] does not change what [find] reports for another key. *)
Lemma find_remove_ne k k' (table : Table) :
  length table = Capacity → k' ≠ k →
  find k' (remove k table).2 = find k' table.
Proof.
  intros Hlen Hne.
  destruct (remove_cases k table) as [[-> _]|(i & Hi & Hh & _ & ->)];
    simpl; [done|].
  apply find_ext. intros p Hp.
  rewrite list_lookup_total_insert.
  case_decide as Hq; [destruct Hq as [<- _]|done].
  rewrite (holds_other k k' _ Hne (holds_insertable _ _ Hh)). split; [|done].
  unfold holds. simpl. by rewrite andb_false_r.
Qed.

(** A key that [find] reports can always be written again. *)
Lemma insert_succeeds_present k v (table : Table) :
  is_Some (find k table) → (insert k v table).1 = true.
Proof.
  intros [x Hx].
  destruct (find_cases k table) as [[E _]|(i & Hi & Hh & _ & _)]; [congruence|].
  destruct (insert_cases k v table) as [[_ Hno]|(? & _ & _ & _ & ->)]; [|done].
  specialize (Hno i Hi). by rewrite (holds_insertable _ _ Hh) in Hno.
Qed.

(** ** Every slot that was once occupied stays occupied *)

Lemma occupied_insert k v (table : Table) q :
  length table = Capacity → occupied (table !!! q) = true →
  occupied ((insert k v table).2 !!! q) = true.
Proof.
  intros Hlen Hocc.
  destruct (insert_cases k v table) as [[-> _]|(i & Hi & _ & _ & ->)];
    simpl; [done|].
  rewrite list_lookup_total_insert.
  by case_decide.
Qed.

Lemma occupied_remove k (table : Table) q :
  length table = Capacity → occupied (table !!! q) = true →
  occupied ((remove k table).2 !!! q) = true.
Proof.
  intros Hlen Hocc.
  destruct (remove_cases k table) as [[-> _]|(i & Hi & Hh & _ & ->)];
    simpl; [done|].
  rewrite list_lookup_total_insert.
  case_decide as Hq; [destruct Hq as [<- _]; simpl|]; done.
Qed.

(** ** The probe chains stay unbroken *)

Lemma chained_empty : chained empty.
Proof.
  intros k i Hi Hh. exfalso.
  unfold HashTable.empty in Hh.
  rewrite lookup_total_replicate_2 in Hh by (apply probe_lt; lia). done.
Qed.

Lemma chained_insert k v (table : Table) :
  length table = Capacity → chained table → chained (insert k v table).2.
Proof.
  intros Hlen Hch k' i' Hi' Hh j Hj.
  destruct (insert_cases k v table) as [[E _]|(i & Hi & Hins & Hbefore & E)].
  { rewrite E in Hh |- *. simpl in *. by apply (Hch k' i'). }
  assert (slot (hash k) i < length table) as Hp by (rewrite Hlen; apply probe_lt; lia).
  destruct (decide (slot (hash k) i = slot (hash k') i')) as [Hsame|Hdiff].
  - assert (k' = k) as ->.
    { rewrite E in Hh. simpl in Hh. rewrite Hsame in Hh.
      rewrite list_lookup_total_insert_eq in Hh by (by rewrite <- Hsame).
      apply holds_true in Hh. simpl in Hh. by destruct Hh as (_ & _ & ->). }
    apply probe_inj in Hsame; [subst i'|lia..].
    apply occupied_insert; [done|].
    specialize (Hbefore j Hj). apply insertable_false in Hbefore. by destruct Hbefore.
  - apply occupied_insert; [done|]. apply (Hch k' i'); [done| |done].
    rewrite E in Hh. simpl in Hh.
    by rewrite list_lookup_total_insert_ne in Hh.
Qed.

Lemma chained_remove k (table : Table) :
  length table = Capacity → chained table → chained (remove k table).2.
Proof.
  intros Hlen Hch k' i' Hi' Hh j Hj.
  apply occupied_remove; [done|]. apply (Hch k' i'); [done| |done].
  destruct (remove_cases k table) as [[E _]|(i & Hi & _ & _ & E)];
    rewrite E in Hh; simpl in Hh; [done|].
  rewrite list_lookup_total_insert in Hh by (rewrite Hlen; apply probe_lt; lia).
  case_decide; [|done]. unfold holds in Hh. simpl in Hh.
  by rewrite andb_false_r in Hh.
Qed.

Lemma reachable_chained (table : Table) : reachable table → chained table.
Proof.
  induction 1 as [|table op Hr IH]; [apply chained_empty|].
  pose proof (reachable_length _ Hr).
  destruct op; [by apply chained_insert|by apply chained_remove].
Qed.

(** On a table with unbroken chains, stopping the lookup at the first
    never-occupied slot loses nothing. *)
Lemma find_spec_loop_chained k (table : Table) a n :
  a + n = Capacity → chained table →
  find_spec_loop Key0 Value0 Capacity (seq a n) (hash k) k table =
  find_loop Key0 Value0 Capacity (seq a n) (hash k) k table.
Proof.
  intros Han Hch. revert a Han. induction n as [|n IH]; intros a Han; simpl; [done|].
  destruct (holds k (table !!! slot (hash k) a)) eqn:Hh; [done|].
  destruct (occupied (table !!! slot (hash k) a)) eqn:Ho; simpl.
  { apply IH. lia. }
  rewrite find_loop_first_hit.
  destruct (first_hit _ _) as [i|] eqn:Hf; [|done].
  apply first_hit_seq_Some in Hf as (Hr & Ht & _).
  rewrite (Hch k i) in Ho; [done|lia|done|lia].
Qed.

(** ** Sequences of operations *)

Lemma run_snoc ops op (table : Table) : run (ops ++ [op]) table = apply (run ops table) op.
Proof. unfold HashTable.run. by rewrite foldl_app. Qed.

Lemma reachable_run ops : reachable (run ops empty).
Proof.
  induction ops as [|op ops IH] using rev_ind; [constructor|].
  rewrite run_snoc. by constructor.
Qed.

Lemma length_run ops : length (run ops empty) = Capacity.
Proof. apply reachable_length, reachable_run. Qed.

(** ** The size of the table *)

Lemma getSize_le (table : Table) : getSize table ≤ length table.
Proof. apply length_filter. Qed.

Lemma getSize_empty : getSize empty = 0.
Proof.
  unfold getSize, HashTable.empty.
  induction Capacity as [|n IHn]; simpl; [done|].
  rewrite filter_cons_False; [done|]. unfold valid. simpl. congruence.
Qed.

Lemma getSize_insert_fresh (table : Table) p e :
  p < length table → valid (table !!! p) = false → valid e = true →
  getSize (<[p := e]> table) = S (getSize table).
Proof.
  intros Hp Hold Hnew. unfold getSize.
  pose proof (length_filter_insert (λ e, valid e = true) table p e Hp) as E.
  rewrite decide_False in E by (by rewrite Hold).
  rewrite decide_True in E by done. lia.
Qed.

(** ** A table that is full of other keys *)

Lemma insert_full_slots k v (table : Table) :
  (∀ q, q < Capacity → valid (table !!! q) = true ∧ key (table !!! q) ≠ k) →
  insert k v table = (false, table).
Proof.
  intros Hfull.
  destruct (insert_cases k v table) as [[E _]|(i & Hi & Hins & _ & _)]; [done|].
  destruct (Hfull (slot (hash k) i)) as [Hv Hk]; [apply probe_lt; lia|].
  assert (insertable k (table !!! slot (hash k) i) = false) as Hno.
  { apply insertable_false. unfold valid in Hv.
    apply andb_true_iff in Hv as [? ?%negb_true_iff]. done. }
  congruence.
Qed.

(** The table after inserting pairwise distinct keys into the empty table,
    as long as they fit: nothing was refused, and every pair is found. *)
Lemma run_inserts_distinct (kvs : list (Key * Value)) :
  NoDup kvs.*1 → length kvs ≤ Capacity →
  let table := run (inserts kvs) empty in
  (∀ q, q < Capacity → deleted (table !!! q) = false) ∧
  (∀ q, q < Capacity → occupied (table !!! q) = true → key (table !!! q) ∈ kvs.*1) ∧
  getSize table = length kvs ∧
  (∀ k v, (k, v) ∈ kvs → find k table = Some v).
Proof.
  induction kvs as [|[k v] kvs IH] using rev_ind; intros Hnd Hlen table.
  { subst table. unfold HashTable.empty. simpl.
    split; [|split; [|split]].
    - intros q Hq. by rewrite lookup_total_replicate_2.
    - intros q Hq. by rewrite lookup_total_replicate_2.
    - apply getSize_empty.
    - intros k v Hin. by apply elem_of_nil in Hin. }
  rewrite fmap_app in Hnd. simpl in Hnd.
  apply NoDup_app in Hnd as (Hnd & Hfresh & _).
  assert (k ∉ kvs.*1) as Hk.
  { intros Hin. apply (Hfresh _ Hin). left. }
  rewrite length_app in Hlen. simpl in Hlen.
  destruct (IH Hnd ltac:(lia)) as (Hdel & Hkeys & Hsize & Hfind). clear IH.
  subst table. unfold inserts. rewrite map_app. simpl. rewrite run_snoc.
  fold (inserts kvs). set (table := run (inserts kvs) empty) in *.
  assert (length table = Capacity) as Hlt by apply length_run.
  simpl.
  (* some slot is free, and the probe sequence of [k] reaches it *)
  destruct (length_filter_lt_exists (λ e, valid e = true) table) as (q & Hq & Hfree).
  { fold (getSize table). lia. }
  destruct (probe_surj (hash k) q) as (iq & Hiq & Hslot); [lia|].
  destruct (insert_cases k v table) as [[_ Hno]|(i & Hi & Hins & _ & E)].
  { exfalso. specialize (Hno iq Hiq). rewrite Hslot in Hno.
    apply insertable_false in Hno as (Ho & Hd & _).
    apply Hfree. unfold valid. by rewrite Ho, Hd. }
  assert (slot (hash k) i < Capacity) as Hp by (apply probe_lt; lia).
  assert (occupied (table !!! slot (hash k) i) = false) as Hunocc.
  { destruct (occupied (table !!! slot (hash k) i)) eqn:Ho; [|done].
    unfold insertable in Hins. rewrite Ho, (Hdel _ Hp) in Hins. simpl in Hins.
    apply bool_decide_eq_true in Hins. exfalso. apply Hk.
    rewrite <- Hins. by apply Hkeys. }
  rewrite E. simpl. split; [|split; [|split]].
  - intros p Hp'. rewrite list_lookup_total_insert.
    case_decide; [done|by apply Hdel].
  - intros p Hp'. rewrite list_lookup_total_insert, fmap_app.
    case_decide; simpl.
    + intros _. apply elem_of_app. right. left.
    + intros Ho. apply elem_of_app. left. by apply Hkeys.
  - rewrite getSize_insert_fresh; [rewrite length_app; simpl; lia|lia| |done].
    unfold valid. by rewrite Hunocc.
  - intros k' v' [Hin|Hin%list_elem_of_singleton]%elem_of_app.
    + assert (k' ≠ k) as Hne.
      { intros ->. apply Hk. apply list_elem_of_fmap. by exists (k, v'). }
      pose proof (find_insert_ne k k' v table Hlt Hne) as Hf.
      rewrite E in Hf. simpl in Hf. rewrite Hf. by apply Hfind.
    + injection Hin as -> ->.
      pose proof (find_insert_eq k v table Hlt) as Hf.
      rewrite E in Hf. simpl in Hf. by apply Hf.
Qed.

(** ** What does hold of the round trip *)

Lemma length_run_from ops (table : Table) : length (run ops table) = length table.
Proof.
  induction ops as [|op ops IH] using rev_ind; [done|].
  by rewrite run_snoc, length_apply.
Qed.

(** The value of a successful [insert] is what [find] returns for as long
    as no later operation works on the same key. *)
Lemma find_after_insert k v ops (table : Table) :
  length table = Capacity → (insert k v table).1 = true →
  Forall (λ op, key_of op ≠ k) ops →
  find k (run ops (insert k v table).2) = Some v.
Proof.
  intros Hlen Hok. induction ops as [|op ops IH] using rev_ind; intros Hops.
  { by apply find_insert_eq. }
  apply Forall_app in Hops as [Hops [Hop _]%Forall_cons].
  rewrite run_snoc.
  assert (length (run ops (insert k v table).2) = Capacity) as Hlen'.
  { by rewrite length_run_from, length_insert_table. }
  destruct op as [k' v'|k']; simpl in *.
  - rewrite find_insert_ne by done. by apply IH.
  - rewrite find_remove_ne by done. by apply IH.
Qed.

Lemma slots_of_holds k (table : Table) p :
  p < length table → holds k (table !!! p) = true → 0 < slots_of k table.
Proof.
  intros Hp Hh. unfold slots_of.
  assert (table !!! p ∈ filter (λ e, holds k e = true) table) as Hin.
  { apply list_elem_of_filter. split; [done|]. by apply list_elem_of_lookup_total_2. }
  destruct (filter _ table); [by apply elem_of_nil in Hin|simpl; lia].
Qed.

(** [find] is absent after a successful [remove] of a key that was held by
    one slot only. *)
Lemma find_remove_eq k (table : Table) :
  length table = Capacity → slots_of k table ≤ 1 →
  find k (remove k table).2 = None.
Proof.
  intros Hlen Hone.
  destruct (remove_cases k table) as [[-> Hno]|(i & Hi & Hh & _ & ->)]; simpl.
  { by destruct (find_cases k table) as [[-> _]|(i & Hi & Hh & _)];
      [|rewrite Hno in Hh]. }
  assert (slot (hash k) i < length table) as Hp by (rewrite Hlen; apply probe_lt; lia).
  set (tomb := mkEntry Key0 Value0 (occupied (table !!! slot (hash k) i)) true).
  pose proof (length_filter_insert (λ e, holds k e = true) table _ tomb Hp) as E.
  rewrite decide_True in E by done.
  rewrite decide_False in E by (unfold holds; simpl; by rewrite andb_false_r).
  fold (slots_of k table) in E.
  fold (slots_of k (<[slot (hash k) i := tomb]> table)) in E.
  destruct (find_cases k (<[slot (hash k) i := tomb]> table))
    as [[-> _]|(j & Hj & Hh' & _)]; [done|].
  apply slots_of_holds in Hh'; [lia|].
  rewrite length_insert, Hlen. apply probe_lt. lia.
Qed.

(** ** The size never exceeds the capacity *)

Lemma getSize_run_le ops : getSize (run ops empty) ≤ Capacity.
Proof. pose proof (getSize_le (run ops empty)). by rewrite length_run in *. Qed.

(** ** Claims *)

(** C10.  On every table that a sequence of [insert] and [remove] calls
    reaches from the empty table, [find], which scans the whole probe
    sequence, returns what the lookup of the specification returns, which
    stops and reports absent at the first never-occupied slot. *)
Theorem find_refines_find_spec (ops : list (Op Key Value)) (k : Key) :
  0 < Capacity →
  find k (run ops empty) = find_spec k (run ops empty).
Proof.
  intros _. symmetry. apply find_spec_loop_chained; [lia|].
  apply reachable_chained, reachable_run.
Qed.

(** C5.  [insert] into a table whose slots are all valid and hold other
    keys returns false and leaves the table as it is.  In particular, once
    [Capacity] pairwise distinct keys were inserted into the empty table,
    the insertion of one more key returns false and changes nothing, and
    every earlier pair is still found. *)
Theorem insert_full :
  0 < Capacity →
  (∀ (table : Table) k v,
     length table = Capacity →
     Forall (λ e, valid e = true ∧ key e ≠ k) table →
     insert k v table = (false, table)) ∧
  (∀ (kvs : list (Key * Value)) k v,
     length kvs = Capacity → NoDup (k :: kvs.*1) →
     let table := run (inserts kvs) empty in
     insert k v table = (false, table) ∧
     ∀ k' v', (k', v') ∈ kvs → find k' (insert k v table).2 = Some v').
Proof.
  intros _. split.
  - intros table k v Hlen Hall. apply insert_full_slots. intros q Hq.
    rewrite Forall_forall in Hall. apply Hall.
    apply list_elem_of_lookup_total_2. by rewrite Hlen.
  - intros kvs k v Hlen [Hk Hnd]%NoDup_cons table.
    destruct (run_inserts_distinct kvs Hnd ltac:(lia)) as (Hdel & Hkeys & Hsize & Hfind).
    fold table in Hdel, Hkeys, Hsize, Hfind.
    assert (length table = Capacity) as Hlt by apply length_run.
    assert (insert k v table = (false, table)) as E.
    { apply insert_full_slots. intros q Hq.
      assert (valid (table !!! q) = true) as Hv.
      { apply (length_filter_all (λ e, valid e = true)); [|lia].
        fold (getSize table). lia. }
      split; [done|]. intros Heq. apply Hk. rewrite <- Heq. apply Hkeys; [done|].
      unfold valid in Hv. by apply andb_true_iff in Hv as [? _]. }
    split; [done|]. rewrite E. simpl. apply Hfind.
Qed.

(** ** Further properties of the table *)

Lemma length_filter_full {A : Type} `{Inhabited A} (P : A → Prop)
    `{∀ x, Decision (P x)} (l : list A) :
  (∀ q, q < length l → P (l !!! q)) → length (filter P l) = length l.
Proof.
  induction l as [|y l IH]; simpl; [done|]. intros Hall.
  rewrite filter_cons_True by (apply (Hall 0); lia). simpl. f_equal.
  apply IH. intros q Hq. apply (Hall (S q)). lia.
Qed.

Lemma length_filter_none {A : Type} `{Inhabited A} (P : A → Prop)
    `{∀ x, Decision (P x)} (l : list A) :
  (∀ q, q < length l → ¬ P (l !!! q)) → length (filter P l) = 0.
Proof.
  induction l as [|y l IH]; simpl; [done|]. intros Hnone.
  rewrite filter_cons_False by (apply (Hnone 0); lia).
  apply IH. intros q Hq. apply (Hnone (S q)). lia.
Qed.

(** Every slot of the table lies on the probe sequence of every key. *)
Lemma slot_on_probe_sequence k (table : Table) q (P : Entry Key Value → Prop) :
  q < Capacity →
  (∀ j, j < Capacity → P (table !!! slot (hash k) j)) → P (table !!! q).
Proof.
  intros Hq Hall. destruct (probe_surj (hash k) q Hq) as (j & Hj & <-).
  by apply Hall.
Qed.

(** [find] returns the value of a valid slot that holds the key, and it
    finds a key as soon as one valid slot holds it. *)
Lemma find_Some_slot k v (table : Table) :
  find k table = Some v →
  ∃ q, q < Capacity ∧ holds k (table !!! q) = true ∧ value (table !!! q) = v.
Proof.
  intros Hf. destruct (find_cases k table) as [[E _]|(i & Hi & Hh & _ & E)];
    [congruence|].
  exists (slot (hash k) i). split; [apply probe_lt; lia|]. split; [done|congruence].
Qed.

Lemma find_is_Some_slot k (table : Table) q :
  q < Capacity → holds k (table !!! q) = true → is_Some (find k table).
Proof.
  intros Hq Hh. destruct (find_cases k table) as [[_ Hno]|(i & _ & _ & _ & ->)];
    [|by eexists].
  pose proof (slot_on_probe_sequence k table q (λ e, holds k e = false) Hq Hno) as Hc.
  simpl in Hc. congruence.
Qed.

Lemma find_None_slot k (table : Table) q :
  find k table = None → q < Capacity → holds k (table !!! q) = false.
Proof.
  intros Hf Hq. destruct (holds k (table !!! q)) eqn:Hh; [|done].
  destruct (find_is_Some_slot k table q Hq Hh) as [v Hv]. congruence.
Qed.

Lemma iterate_elem (table : Table) (e : Entry Key Value) :
  e ∈ iterate table ↔ valid e = true ∧ ∃ q, q < length table ∧ table !!! q = e.
Proof.
  unfold iterate. rewrite list_elem_of_filter. split.
  - intros [Hv Hin]. split; [done|]. by apply list_elem_of_lookup_total_1.
  - intros [Hv (q & Hq & <-)]. split; [done|]. by apply list_elem_of_lookup_total_2.
Qed.

Lemma holds_key_valid (e : Entry Key Value) : holds (key e) e = valid e.
Proof. unfold holds, valid. by rewrite bool_decide_eq_true_2, andb_true_r. Qed.

Lemma getSize_insert_slot (table : Table) p e :
  p < length table →
  getSize (<[p := e]> table) + (if valid (table !!! p) then 1 else 0) =
  getSize table + (if valid e then 1 else 0).
Proof.
  intros Hp. unfold getSize.
  pose proof (length_filter_insert (λ e, valid e = true) table p e Hp) as E.
  cbv beta in E.
  destruct (valid (table !!! p)), (valid e);
    repeat (rewrite decide_True in E by done);
    repeat (rewrite decide_False in E by done); exact E.
Qed.

Lemma slots_of_insert_slot k (table : Table) p e :
  p < length table →
  slots_of k (<[p := e]> table) + (if holds k (table !!! p) then 1 else 0) =
  slots_of k table + (if holds k e then 1 else 0).
Proof.
  intros Hp. unfold slots_of.
  pose proof (length_filter_insert (λ e, holds k e = true) table p e Hp) as E.
  cbv beta in E.
  destruct (holds k (table !!! p)), (holds k e);
    repeat (rewrite decide_True in E by done);
    repeat (rewrite decide_False in E by done); exact E.
Qed.

Lemma slots_of_zero k (table : Table) :
  length table = Capacity →
  (∀ q, q < Capacity → holds k (table !!! q) = false) → slots_of k table = 0.
Proof.
  intros Hlen Hno. apply length_filter_none. intros q Hq.
  rewrite Hno by lia. done.
Qed.

Lemma find_None_slots_of k (table : Table) :
  length table = Capacity → (find k table = None ↔ slots_of k table = 0).
Proof.
  intros Hlen. split.
  - intros Hf. apply slots_of_zero; [done|]. intros q Hq. by apply find_None_slot.
  - intros Hz. destruct (find k table) as [v|] eqn:Hf; [|done].
    destruct (find_Some_slot k v table Hf) as (q & Hq & Hh & _).
    apply slots_of_holds in Hh; lia.
Qed.

(** X1.  The value of a successful [insert] is what [find] returns for the
    key, through any later operations on other keys; and an [insert] for a
    key that [find] reports is never refused. *)
Theorem insert_find_round_trip k v v' ops (table : Table) :
  length table = Capacity →
  ((insert k v table).1 = true →
   Forall (λ op, key_of op ≠ k) ops →
   find k (run ops (insert k v table).2) = Some v) ∧
  (is_Some (find k table) → (insert k v' table).1 = true).
Proof.
  intros Hlen. split.
  - intros Hok Hops. by apply find_after_insert.
  - apply insert_succeeds_present.
Qed.

Lemma remove_flag k (table : Table) :
  (remove k table).1 = bool_decide (is_Some (find k table)).
Proof.
  destruct (remove_cases k table) as [[-> Hno]|(i & Hi & Hh & _ & ->)]; simpl.
  - symmetry. apply bool_decide_eq_false. intros [v Hv].
    destruct (find_Some_slot k v table Hv) as (q & Hq & Hq' & _).
    pose proof (slot_on_probe_sequence k table q (λ e, holds k e = false) Hq Hno).
    simpl in *. congruence.
  - symmetry. apply bool_decide_eq_true.
    apply (find_is_Some_slot k table (slot (hash k) i)); [apply probe_lt; lia|done].
Qed.

Lemma find_Some_not_empty k v (table : Table) :
  find k table = Some v → isEmpty table = false.
Proof.
  intros Hf. unfold isEmpty. apply bool_decide_eq_false.
  destruct (find_Some_slot k v table Hf) as (q & Hq & Hh & _).
  destruct (find_cases k table) as [[E _]|(i & Hi & Hh' & _ & _)]; [congruence|].
  clear q Hq Hh. intros Hz.
  assert (length table ≤ slot (hash k) i ∨ slot (hash k) i < length table) as [Hge|Hlt]
    by lia.
  - rewrite list_lookup_total_alt, lookup_ge_None_2 in Hh' by done. done.
  - assert (table !!! slot (hash k) i ∈ filter (λ e, valid e = true) table) as Hin.
    { apply list_elem_of_filter. split; [by apply (holds_valid k)|].
      by apply list_elem_of_lookup_total_2. }
    unfold getSize in Hz. destruct (filter _ table); [by apply elem_of_nil in Hin|done].
Qed.





(** X6.  The iteration is complete and sound for lookups: the value that
    [find] returns for a key is carried by an iterated entry with that key,
    and the key of every iterated entry is found. *)
Theorem iterate_find k (table : Table) :
  length table = Capacity →
  (∀ v, find k table = Some v →
        ∃ e, e ∈ iterate table ∧ key e = k ∧ value e = v) ∧
  (∀ e, e ∈ iterate table → is_Some (find (key e) table)) ∧
  length (iterate table) = getSize table.
Proof.
  intros Hlen. split; [|split; [|done]].
  - intros v Hf. destruct (find_Some_slot k v table Hf) as (q & Hq & Hh & Hv).
    exists (table !!! q). split.
    + apply iterate_elem. split; [by apply (holds_valid k)|].
      exists q. split; [lia|done].
    + apply holds_true in Hh as (_ & _ & Hk). done.
  - intros e [Hv (q & Hq & <-)]%iterate_elem.
    apply (find_is_Some_slot _ table q); [lia|]. by rewrite holds_key_valid.
Qed.


(** ** Sequences of insertions only *)

Lemma run_inserts_snoc kvs k v :
  run (inserts (kvs ++ [(k, v)])) empty = (insert k v (run (inserts kvs) empty)).2.
Proof. unfold inserts. rewrite map_app. simpl. by rewrite run_snoc. Qed.

Lemma run_inserts_invariant (kvs : list (Key * Value)) :
  let table := run (inserts kvs) empty in
  no_tombstone table ∧ ∀ k, slots_of k table ≤ 1.
Proof.
  induction kvs as [|[k v] kvs IH] using rev_ind; intros table.
  { subst table. simpl. split.
    - intros q Hq. unfold HashTable.empty. by rewrite lookup_total_replicate_2.
    - intros k. rewrite slots_of_zero; [lia|apply length_empty|].
      intros q Hq. unfold HashTable.empty. by rewrite lookup_total_replicate_2. }
  subst table. rewrite run_inserts_snoc.
  set (table := run (inserts kvs) empty) in *. destruct IH as [Hnt Huniq].
  assert (length table = Capacity) as Hlen by apply length_run.
  assert (chained table) as Hch by apply reachable_chained, reachable_run.
  destruct (insert_cases k v table) as [[-> _]|(i & Hi & Hins & Hbefore & ->)];
    simpl; [done|].
  assert (slot (hash k) i < Capacity) as Hp by (apply probe_lt; lia).
  split.
  - intros q Hq. rewrite list_lookup_total_insert. case_decide; [done|by apply Hnt].
  - intros k'.
    pose proof (slots_of_insert_slot k' table (slot (hash k) i) (mkEntry k v true false))
      as E. specialize (E ltac:(lia)).
    destruct (decide (k' = k)) as [->|Hne].
    + replace (holds k (mkEntry k v true false)) with true in E
        by (symmetry; by apply holds_true).
      destruct (holds k (table !!! slot (hash k) i)) eqn:Hh.
      { specialize (Huniq k). lia. }
      assert (slots_of k table = 0) as Hz; [|lia].
      apply slots_of_zero; [done|]. intros q Hq.
      destruct (holds k (table !!! q)) eqn:Hq'; [exfalso|done].
      destruct (probe_surj (hash k) q Hq) as (j & Hj & <-).
      destruct (Nat.lt_trichotomy j i) as [Hlt|[->|Hgt]].
      * specialize (Hbefore j Hlt). by rewrite (holds_insertable _ _ Hq') in Hbefore.
      * congruence.
      * pose proof (Hch k j Hj Hq' i Hgt) as Ho.
        unfold insertable in Hins. rewrite Ho, (Hnt _ Hp) in Hins. simpl in Hins.
        apply bool_decide_eq_true in Hins. unfold holds in Hh.
        rewrite Ho, (Hnt _ Hp), Hins in Hh. simpl in Hh.
        by rewrite bool_decide_eq_true_2 in Hh.
    + rewrite (holds_other k k' _ Hne Hins) in E.
      replace (holds k' (mkEntry k v true false)) with false in E.
      { specialize (Huniq k'). lia. }
      symmetry. unfold holds. simpl. by apply bool_decide_eq_false.
Qed.


(** ** Keys with pairwise distinct home slots *)

Lemma hash_lt k : 0 < Capacity → hash k < Capacity.
Proof. intros. apply Nat.mod_upper_bound. lia. Qed.

Lemma slot_home k : 0 < Capacity → slot (hash k) 0 = hash k.
Proof.
  intros. unfold probe. rewrite Nat.add_0_r. apply Nat.mod_small. by apply hash_lt.
Qed.

(** With distinct home slots, [insert] always writes the home slot. *)
Lemma insert_at_home k v (table : Table) :
  collision_free → 0 < Capacity → at_home table →
  insert k v table = (true, <[hash k := mkEntry k v true false]> table).
Proof.
  intros Hcf Hpos Hhome.
  destruct (insert_cases k v table) as [[_ Hno]|(i & Hi & Hins & Hbefore & ->)].
  - exfalso. specialize (Hno 0 Hpos). rewrite slot_home in Hno by done.
    apply insertable_false in Hno as (Ho & Hd & Hk). apply Hk, Hcf.
    apply Hhome; [by apply hash_lt|]. unfold valid. by rewrite Ho, Hd.
  - destruct i as [|i]; [by rewrite slot_home|]. exfalso.
    specialize (Hbefore 0 ltac:(lia)). rewrite slot_home in Hbefore by done.
    apply insertable_false in Hbefore as (Ho & Hd & Hk). apply Hk, Hcf.
    apply Hhome; [by apply hash_lt|]. unfold valid. by rewrite Ho, Hd.
Qed.

Lemma at_home_run ops : collision_free → 0 < Capacity → at_home (run ops empty).
Proof.
  intros Hcf Hpos. induction ops as [|op ops IH] using rev_ind.
  { intros q Hq Hv. simpl in Hv. unfold HashTable.empty in Hv.
    by rewrite lookup_total_replicate_2 in Hv. }
  rewrite run_snoc. set (table := run ops empty) in *.
  destruct op as [k v|k]; simpl.
  - rewrite (insert_at_home k v table Hcf Hpos IH). simpl. intros q Hq.
    rewrite list_lookup_total_insert. case_decide as Hd; [|by apply IH].
    destruct Hd as [<- _]. done.
  - destruct (remove_cases k table) as [[-> _]|(i & Hi & _ & _ & ->)]; simpl; [done|].
    intros q Hq. rewrite list_lookup_total_insert. case_decide; [|by apply IH].
    unfold valid. simpl. by rewrite andb_false_r.
Qed.

Lemma at_home_unique k (table : Table) :
  0 < Capacity → length table = Capacity → at_home table → slots_of k table ≤ 1.
Proof.
  intros Hpos Hlen Hhome.
  pose proof (slots_of_insert_slot k table (hash k) (Entry0 Key0 Value0)) as E.
  specialize (E ltac:(rewrite Hlen; by apply hash_lt)).
  replace (holds k (Entry0 Key0 Value0)) with false in E by done.
  assert (slots_of k (<[hash k := Entry0 Key0 Value0]> table) = 0) as Hz.
  { apply slots_of_zero; [by rewrite length_insert|]. intros q Hq.
    rewrite list_lookup_total_insert. case_decide; [done|].
    destruct (holds k (table !!! q)) eqn:Hh; [exfalso|done].
    pose proof (holds_valid _ _ Hh) as Hv. apply holds_true in Hh as (_ & _ & Hk).
    pose proof (Hhome q Hq Hv) as Hq'. rewrite Hk in Hq'.
    pose proof (hash_lt k Hpos). intuition lia. }
  destruct (holds k (table !!! hash k)); lia.
Qed.

(** X9.  When no two keys share a home slot, the table is a map on every
    state that [insert] and [remove] reach from the empty table: [insert] is
    never refused and the next [find] returns its value, a key is held by at
    most one slot, and [find] reports a key absent after its [remove]. *)
Theorem collision_free_map (ops : list (Op Key Value)) (k : Key) (v : Value) :
  collision_free → 0 < Capacity →
  let table := run ops empty in
  (insert k v table).1 = true ∧
  find k (insert k v table).2 = Some v ∧
  slots_of k table ≤ 1 ∧
  find k (remove k table).2 = None.
Proof.
  intros Hcf Hpos table.
  assert (length table = Capacity) as Hlen by apply length_run.
  pose proof (at_home_run ops Hcf Hpos) as Hhome. fold table in Hhome.
  assert ((insert k v table).1 = true) as Hok
    by (by rewrite (insert_at_home k v table Hcf Hpos Hhome)).
  split; [done|]. split; [by apply find_insert_eq|].
  split; [by apply at_home_unique|].
  apply find_remove_eq; [done|by apply at_home_unique].
Qed.

End Facts.
End HashTableFacts.

(** ** The table at integer keys *)

Module NatTableFacts.
Import HashTable.
Local Open Scope nat_scope.

(** C5 at ten distinct keys: the eleventh insertion is refused and the ten
    pairs are all still found. *)
Lemma insert_full_ten :
  let table := NatTable.run (inserts NatTable.ten) NatTable.empty in
  NatTable.insert 11 111 table = (false, table) ∧
  ∀ k' v', (k', v') ∈ NatTable.ten →
    NatTable.find k' (NatTable.insert 11 111 table).2 = Some v'.
Proof.
  assert (0 < NatTable.Capacity) as Hpos by (unfold NatTable.Capacity, Utils.MAX_WIDGETS; lia).
  apply (proj2 (HashTableFacts.insert_full id 0 0 NatTable.Capacity Hpos)
           NatTable.ten 11 111).
  - reflexivity.
  - apply (bool_decide_unpack _). vm_compute. exact I.
Defined.

(** C10 at the sequence [NatTable.collide] followed by the removal of
    key 10, where a tombstone lies before the slot that still holds the
    key. *)
Lemma find_refines_find_spec_collide :
  let table := NatTable.run (NatTable.collide ++ [OpRemove 10]) NatTable.empty in
  NatTable.find 10 table = NatTable.find_spec 10 table.
Proof.
  assert (0 < NatTable.Capacity) as Hpos by (unfold NatTable.Capacity, Utils.MAX_WIDGETS; lia).
  apply (HashTableFacts.find_refines_find_spec id 0 0 NatTable.Capacity
           (NatTable.collide ++ [OpRemove 10]) 10 Hpos).
Defined.

(** C1, at the sequence [NatTable.collide]: [remove] of key 10 returns
    true, and the [find] that follows still returns a value for key 10, the
    one of the first insertion. *)
Theorem find_after_remove_stale :
  let table := NatTable.run NatTable.collide NatTable.empty in
  (NatTable.remove 10 table).1 = true ∧
  NatTable.find 10 (NatTable.remove 10 table).2 = Some 200.
Proof. split; reflexivity. Qed.

(** C2, at the sequence [NatTable.collide]: the key 10 is held by two
    valid slots of the table, of which [find] sees the first. *)
Theorem key_in_two_slots :
  let table := NatTable.run NatTable.collide NatTable.empty in
  slots_of 10 table = 2 ∧ NatTable.find 10 table = Some 300.
Proof. split; reflexivity. Qed.

(** A tombstone does not cut the probe chain: after the removal of key 0
    from the home slot that it shares with key 10, both lookups still
    find key 10 behind the tombstone. *)
Example find_behind_tombstone :
  let table :=
    NatTable.run [OpInsert 0 100; OpInsert 10 200; OpRemove 0] NatTable.empty in
  NatTable.find 10 table = Some 200 ∧ NatTable.find_spec 10 table = Some 200.
Proof. split; reflexivity. Qed.

(** ** Further properties at integer keys *)

(** X1 at key 0 with later operations on key 10. *)
Lemma insert_find_round_trip_collide :
  NatTable.find 0
    (NatTable.run [OpInsert 10 200; OpRemove 10] (NatTable.insert 0 100 NatTable.empty).2)
  = Some 100.
Proof.
  apply (proj1 (HashTableFacts.insert_find_round_trip id 0 0 NatTable.Capacity
                  0 100 100 [OpInsert 10 200; OpRemove 10] NatTable.empty eq_refl)).
  - reflexivity.
  - apply (bool_decide_unpack _). vm_compute. exact I.
Defined.





(** X6 at the table of ten pairs. *)
Lemma iterate_find_ten :
  let table := NatTable.run (inserts NatTable.ten) NatTable.empty in
  length (iterate table) = 10 ∧
  ∀ e, e ∈ iterate table → is_Some (NatTable.find (key e) table).
Proof.
  intros table.
  destruct (HashTableFacts.iterate_find id 0 0 NatTable.Capacity 0 table eq_refl)
    as (_ & Hsound & Hlen).
  split; [rewrite Hlen; reflexivity|exact Hsound].
Defined.


End NatTableFacts.

(** * Properties of the grid geometry *)

Module GraticulesFacts.
Import Graticules.

Local Open Scope Z_scope.

Lemma int16_id (z : Z) : -32768 ≤ z ≤ 32767 → int16 z = z.
Proof. intros. unfold int16. rewrite Z.mod_small; lia. Qed.

Lemma uint8_id (z : Z) : 0 ≤ z < 256 → uint8 z = z.
Proof. intros. unfold uint8. by rewrite Z.mod_small. Qed.

(** ** The loops that store the lines *)

(** A loop whose steps all lie inside the array stores every line and
    leaves the other elements as they were. *)
Lemma writeLines_inside (line : Z → LineSegment) (steps : list Z)
    (array : list LineSegment) :
  Forall (λ i, 0 ≤ i < Utils.MAX_GRATICULES) steps → NoDup steps →
  ∃ array',
    writeLines line steps array = Some array' ∧
    length array' = length array ∧
    (∀ i, i ∈ steps → (Z.to_nat i < length array)%nat →
          array' !! Z.to_nat i = Some (line i)) ∧
    (∀ n, (∀ i, i ∈ steps → Z.to_nat i ≠ n) → array' !! n = array !! n).
Proof.
  revert array. induction steps as [|i steps IH]; intros array Hin Hnd; simpl.
  { exists array. split; [done|]. split; [done|]. split; [|done].
    intros i Hi. by apply elem_of_nil in Hi. }
  apply Forall_cons in Hin as [Hi Hin]. apply NoDup_cons in Hnd as [Hfresh Hnd].
  rewrite bool_decide_eq_true_2 by lia.
  destruct (IH (<[Z.to_nat i := line i]> array) Hin Hnd)
    as (array' & E & Hlen & Hset & Hother).
  rewrite length_insert in Hlen.
  exists array'. split; [done|]. split; [done|]. split.
  - intros j [->|Hj]%elem_of_cons Hlt.
    + rewrite Hother.
      * by apply list_lookup_insert_eq.
      * intros j Hj Heq. apply Hfresh.
        rewrite Forall_forall in Hin. specialize (Hin j Hj).
        assert (j = i) as -> by lia. done.
    + apply Hset; [done|]. by rewrite length_insert.
  - intros n Hn. rewrite Hother.
    + apply list_lookup_insert_ne. apply Hn. left.
    + intros j Hj. apply Hn. by right.
Qed.

(** A loop with a step outside the array is undefined. *)
Lemma writeLines_outside (line : Z → LineSegment) (steps : list Z)
    (array : list LineSegment) :
  Exists (λ i, Utils.MAX_GRATICULES ≤ i) steps → writeLines line steps array = None.
Proof.
  revert array. induction steps as [|i steps IH]; intros array Hex; simpl.
  { by apply Exists_nil in Hex. }
  case_bool_decide as Hi; [|done].
  apply IH. apply Exists_cons in Hex as [?|?]; [lia|done].
Qed.

Lemma writeLines_seqZ (line : Z → LineSegment) (d : Z) (array : list LineSegment) :
  d ≤ Utils.MAX_GRATICULES →
  length array = Z.to_nat Utils.MAX_GRATICULES →
  ∃ array',
    writeLines line (seqZ 0 d) array = Some array' ∧
    length array' = Z.to_nat Utils.MAX_GRATICULES ∧
    (∀ i, 0 ≤ i < d → array' !! Z.to_nat i = Some (line i)) ∧
    (∀ i, d ≤ i → 0 ≤ i → array' !! Z.to_nat i = array !! Z.to_nat i).
Proof.
  intros Hd Hlen.
  destruct (writeLines_inside line (seqZ 0 d) array)
    as (array' & E & Hlen' & Hset & Hother).
  { apply Forall_forall. intros i Hi%elem_of_seqZ. lia. }
  { apply NoDup_seqZ. }
  exists array'. split; [done|]. split; [congruence|]. split.
  - intros i Hi. apply Hset; [apply elem_of_seqZ; lia|].
    rewrite Hlen. unfold Utils.MAX_GRATICULES in *. lia.
  - intros i Hi Hi0. apply Hother. intros j Hj%elem_of_seqZ. lia.
Qed.

Lemma writeLines_seqZ_overflow (line : Z → LineSegment) (d : Z)
    (array : list LineSegment) :
  Utils.MAX_GRATICULES < d → writeLines line (seqZ 0 d) array = None.
Proof.
  intros Hd. apply writeLines_outside, Exists_exists.
  exists Utils.MAX_GRATICULES. split; [|lia].
  apply elem_of_seqZ. unfold Utils.MAX_GRATICULES in *. lia.
Qed.

(** ** The result of [configure] *)

Lemma configure_result (b : Utils.Boundary) (oc : Utils.Color) (ot : Z)
    (gc : Utils.Color) (gt td vd xo yo : Z) (g : t) :
  wf g → td ≠ 0 → vd ≠ 0 →
  td ≤ Utils.MAX_GRATICULES → vd ≤ Utils.MAX_GRATICULES →
  ∃ g',
    configure b oc ot gc gt td vd xo yo g = Some g' ∧
    wf g' ∧
    privateBoundary g' = b ∧
    timeDivisions g' = td ∧ voltageDivisions g' = vd ∧
    timeStepSize g' = int16 (int16 (Utils.x2 b - Utils.x1 b + 1) ÷ td) ∧
    voltageStepSize g' = int16 (int16 (Utils.y2 b - Utils.y1 b + 1) ÷ vd) ∧
    (∀ i, 0 ≤ i < td → Time g' !! Z.to_nat i = Some (timeLine g' i)) ∧
    (∀ i, 0 ≤ i < vd → Voltage g' !! Z.to_nat i = Some (voltageLine g' i)) ∧
    (∀ i, td ≤ i → 0 ≤ i → Time g' !! Z.to_nat i = Time g !! Z.to_nat i) ∧
    (∀ i, vd ≤ i → 0 ≤ i → Voltage g' !! Z.to_nat i = Voltage g !! Z.to_nat i).
Proof.
  intros [HT HV] Htd Hvd Htd' Hvd'.
  unfold configure, setStepSize. simpl.
  rewrite !bool_decide_eq_false_2 by done. simpl.
  unfold setLineSegments. simpl.
  match goal with |- context [writeLines ?l (seqZ 0 td) (Time g)] =>
    destruct (writeLines_seqZ l td (Time g) Htd' HT) as (time & -> & HlenT & HsetT & HkeepT)
  end.
  simpl.
  match goal with |- context [writeLines ?l (seqZ 0 vd) (Voltage g)] =>
    destruct (writeLines_seqZ l vd (Voltage g) Hvd' HV) as (volt & -> & HlenV & HsetV & HkeepV)
  end.
  simpl. eexists. split; [done|]. simpl. unfold wf. simpl.
  repeat split; done.
Qed.

(** [configure] is defined on every object, whatever the length of the lists
    that stand for its arrays. *)
Lemma configure_is_Some (b : Utils.Boundary) (oc : Utils.Color) (ot : Z)
    (gc : Utils.Color) (gt td vd xo yo : Z) (g : t) :
  1 ≤ td ≤ Utils.MAX_GRATICULES → 1 ≤ vd ≤ Utils.MAX_GRATICULES →
  is_Some (configure b oc ot gc gt td vd xo yo g).
Proof.
  intros Htd Hvd. unfold configure, setStepSize. simpl.
  rewrite !bool_decide_eq_false_2 by lia. simpl.
  unfold setLineSegments. simpl.
  match goal with |- context [writeLines ?l (seqZ 0 td) (Time g)] =>
    destruct (writeLines_inside l (seqZ 0 td) (Time g)) as (time & -> & _)
  end.
  { apply Forall_forall. intros i Hi%elem_of_seqZ. lia. }
  { apply NoDup_seqZ. }
  simpl.
  match goal with |- context [writeLines ?l (seqZ 0 vd) (Voltage g)] =>
    destruct (writeLines_inside l (seqZ 0 vd) (Voltage g)) as (volt & -> & _)
  end.
  { apply Forall_forall. intros i Hi%elem_of_seqZ. lia. }
  { apply NoDup_seqZ. }
  simpl. by eexists.
Qed.

(** ** Claims *)

(** C9.  With both division counts between 1 and [MAX_GRATICULES],
    [configure] is defined: no division by zero, no store outside the two
    arrays.  The function checks neither bound itself: with a zero count it
    divides by zero, and with a count above [MAX_GRATICULES] it stores
    outside an array. *)
Theorem configure_defined (b : Utils.Boundary) (oc : Utils.Color) (ot : Z)
    (gc : Utils.Color) (gt td vd xo yo : Z) (g : t) :
  wf g →
  (1 ≤ td ≤ Utils.MAX_GRATICULES → 1 ≤ vd ≤ Utils.MAX_GRATICULES →
   is_Some (configure b oc ot gc gt td vd xo yo g)) ∧
  (td = 0 ∨ vd = 0 ∨ Utils.MAX_GRATICULES < td ∨ Utils.MAX_GRATICULES < vd →
   configure b oc ot gc gt td vd xo yo g = None).
Proof.
  intros Hwf. split.
  - intros Htd Hvd.
    destruct (configure_result b oc ot gc gt td vd xo yo g) as (g' & -> & _);
      [done|lia..|by exists g'].
  - intros Hbad. unfold configure, setStepSize. simpl.
    case_bool_decide as Htd; [reflexivity|].
    case_bool_decide as Hvd; [reflexivity|]. simpl.
    unfold setLineSegments. simpl.
    destruct (decide (Utils.MAX_GRATICULES < td)) as [Hover|Hok].
    { rewrite (writeLines_seqZ_overflow _ td) by done. reflexivity. }
    match goal with |- context [writeLines ?l (seqZ 0 td) (Time g)] =>
      destruct (writeLines_seqZ l td (Time g)) as (time & -> & _);
        [lia|apply Hwf|]
    end.
    simpl. rewrite (writeLines_seqZ_overflow _ vd) by lia. reflexivity.
Qed.

(** C4, as the specification states it, fails on a boundary whose span
    does not fit [int16_t]: on (0,0)-(32767,383) with 10 time divisions the
    step is -3276, not 32768 / 10. *)
Lemma stepSize_wraps :
  getStepSize TIME <$>
    configure area_wide Utils.Color_RED 2 Utils.Color_BLACK 1 10 8 5 4 fresh
  = Some (-3276) ∧
  (Utils.x2 area_wide - Utils.x1 area_wide + 1) ÷ 10 = 3276.
Proof. split; reflexivity. Qed.

(** C4, amended.  For a boundary of [int16_t] members with [x2 ≥ x1] and
    [y2 ≥ y1] whose two inclusive spans are at most 32767, and division
    counts between 1 and [MAX_GRATICULES], [configure] sets the step of an
    axis to the inclusive span divided by the division count, truncated,
    and line [i] runs at the boundary start plus [i] steps across the whole
    orthogonal extent.  On (0,0)-(479,383) with 10 time divisions the step
    is 48, line 0 is (0,0)-(0,383), line 9 is (432,0)-(432,383), and index
    10 has no line. *)
Theorem configure_geometry (b : Utils.Boundary) (oc : Utils.Color) (ot : Z)
    (gc : Utils.Color) (gt td vd xo yo : Z) (g : t) :
  wf g → in_range b →
  Utils.x1 b ≤ Utils.x2 b → Utils.y1 b ≤ Utils.y2 b →
  Utils.x2 b - Utils.x1 b + 1 ≤ 32767 → Utils.y2 b - Utils.y1 b + 1 ≤ 32767 →
  1 ≤ td ≤ Utils.MAX_GRATICULES → 1 ≤ vd ≤ Utils.MAX_GRATICULES →
  ∃ g',
    configure b oc ot gc gt td vd xo yo g = Some g' ∧
    getStepSize TIME g' = (Utils.x2 b - Utils.x1 b + 1) ÷ td ∧
    getStepSize VOLTAGE g' = (Utils.y2 b - Utils.y1 b + 1) ÷ vd ∧
    (∀ i, 0 ≤ i < td →
       let x := Utils.x1 b + i * getStepSize TIME g' in
       getLineSegment i TIME g' =
         Some (mkLineSegment x (Utils.y1 b) x (Utils.y2 b))) ∧
    (∀ i, 0 ≤ i < vd →
       let y := Utils.y1 b + i * getStepSize VOLTAGE g' in
       getLineSegment i VOLTAGE g' =
         Some (mkLineSegment (Utils.x1 b) y (Utils.x2 b) y)) ∧
    (b = area_480x384 → td = 10 →
       getStepSize TIME g' = 48 ∧
       getLineSegment 0 TIME g' = Some (mkLineSegment 0 0 0 383) ∧
       getLineSegment 9 TIME g' = Some (mkLineSegment 432 0 432 383) ∧
       getLineSegment 10 TIME g' = Some zeroSegment).
Proof.
  intros Hwf (Hx1 & Hy1 & Hx2 & Hy2) Hx Hy Hw Hh Htd Hvd.
  unfold Utils.MAX_GRATICULES in *.
  destruct (configure_result b oc ot gc gt td vd xo yo g)
    as (g' & E & _ & Hb & HtdE & HvdE & Hts & Hvs & HT & HV & _);
    [done|unfold Utils.MAX_GRATICULES; lia..|].
  rewrite (int16_id (_ - _ + 1)) in Hts by lia.
  rewrite (int16_id (_ - _ + 1)) in Hvs by lia.
  rewrite !Z.quot_div_nonneg by lia.
  rewrite Z.quot_div_nonneg in Hts by lia.
  rewrite Z.quot_div_nonneg in Hvs by lia.
  set (tl := Utils.x2 b - Utils.x1 b + 1) in *.
  set (vl := Utils.y2 b - Utils.y1 b + 1) in *.
  assert (0 ≤ tl `div` td ∧ td * (tl `div` td) ≤ tl) as [Ht0 Ht1].
  { split; [apply Z.div_pos; lia|apply Z.mul_div_le; lia]. }
  assert (0 ≤ vl `div` vd ∧ vd * (vl `div` vd) ≤ vl) as [Hv0 Hv1].
  { split; [apply Z.div_pos; lia|apply Z.mul_div_le; lia]. }
  rewrite int16_id in Hts by nia. rewrite int16_id in Hvs by nia.
  assert (∀ i, 0 ≤ i < td →
            getLineSegment i TIME g' =
              Some (mkLineSegment (Utils.x1 b + i * timeStepSize g') (Utils.y1 b)
                      (Utils.x1 b + i * timeStepSize g') (Utils.y2 b))) as Htime.
  { intros i Hi. unfold getLineSegment, isValidIndex.
    rewrite HtdE, uint8_id by lia.
    rewrite !bool_decide_eq_true_2 by lia. simpl.
    rewrite (HT i Hi). unfold timeLine. rewrite Hb, Hts.
    rewrite int16_id; [done|]. nia. }
  assert (∀ i, 0 ≤ i < vd →
            getLineSegment i VOLTAGE g' =
              Some (mkLineSegment (Utils.x1 b) (Utils.y1 b + i * voltageStepSize g')
                      (Utils.x2 b) (Utils.y1 b + i * voltageStepSize g'))) as Hvolt.
  { intros i Hi. unfold getLineSegment, isValidIndex.
    rewrite HvdE, uint8_id by lia.
    rewrite !bool_decide_eq_true_2 by lia. simpl.
    rewrite (HV i Hi). unfold voltageLine. rewrite Hb, Hvs.
    rewrite int16_id; [done|]. nia. }
  exists g'. split; [done|]. simpl. split; [done|]. split; [done|].
  split; [done|]. split; [done|].
  intros -> ->. subst tl. simpl in Hts.
  assert (timeStepSize g' = 48) as H48 by (rewrite Hts; reflexivity).
  split; [done|].
  rewrite (Htime 0), (Htime 9), H48 by lia. simpl.
  split; [done|]. split; [done|].
  unfold getLineSegment, isValidIndex. rewrite HtdE. reflexivity.
Qed.

(** C6, as the specification states it, fails on an object that was
    configured with a negative division count: the count is compared as a
    [uint8_t], index 5 passes the test although 5 is not below -1, and the
    line that the first configuration left in the array is returned. *)
Lemma getLineSegment_negative_count :
  (g ← reconfigured; Some (getDivisions TIME g, getLineSegment 5 TIME g))
  = Some (-1, Some (mkLineSegment 240 0 240 383)).
Proof. reflexivity. Qed.

(** C6, amended.  On an object configured with division counts between 1
    and [MAX_GRATICULES], [getLineSegment] returns the all-zero segment for
    an index below zero or not below the division count of the axis, and
    the stored segment of the index otherwise; it is defined in all
    cases. *)
Theorem getLineSegment_bounds (b : Utils.Boundary) (oc : Utils.Color) (ot : Z)
    (gc : Utils.Color) (gt td vd xo yo : Z) (g g' : t) :
  wf g →
  1 ≤ td ≤ Utils.MAX_GRATICULES → 1 ≤ vd ≤ Utils.MAX_GRATICULES →
  configure b oc ot gc gt td vd xo yo g = Some g' →
  ∀ (type : AxisType) (index : Z),
    (index < 0 ∨ getDivisions type g' ≤ index →
     getLineSegment index type g' = Some zeroSegment) ∧
    (0 ≤ index < getDivisions type g' →
     ∃ segment,
       segments type g' !! Z.to_nat index = Some segment ∧
       getLineSegment index type g' = Some segment).
Proof.
  intros Hwf Htd Hvd E type index.
  destruct (configure_result b oc ot gc gt td vd xo yo g)
    as (g'' & E' & [HlenT HlenV] & _ & HtdE & HvdE & _);
    [done|lia..|].
  rewrite E in E'. injection E' as <-.
  unfold Utils.MAX_GRATICULES in *.
  assert (0 ≤ getDivisions type g' ≤ 20) as Hd by (destruct type; simpl; lia).
  unfold getLineSegment, isValidIndex.
  change (match type with TIME => timeDivisions g' | VOLTAGE => voltageDivisions g' end)
    with (getDivisions type g').
  rewrite uint8_id by lia. split.
  - intros Hout. case_bool_decide; case_bool_decide; simpl; try done; lia.
  - intros Hin. rewrite !bool_decide_eq_true_2 by lia. simpl.
    destruct (lookup_lt_is_Some_2 (segments type g') (Z.to_nat index)) as [segment Hs].
    { destruct type; simpl; lia. }
    exists segment. split; [done|]. by destruct type.
Qed.

(** ** The claims at the display of the firmware *)

(** C9 at the grid of the firmware. *)
Lemma configure_defined_display :
  wf fresh ∧
  is_Some (configure area_480x384 Utils.Color_RED 2 Utils.Color_BLACK 1 10 8 5 4 fresh).
Proof.
  assert (wf fresh) as Hwf by (split; reflexivity).
  split; [exact Hwf|].
  apply (configure_defined area_480x384 Utils.Color_RED 2 Utils.Color_BLACK 1
           10 8 5 4 fresh Hwf); unfold Utils.MAX_GRATICULES; lia.
Defined.

(** C4 at the grid of the firmware: ten vertical lines 48 pixels apart and
    eight horizontal lines 48 pixels apart. *)
Lemma configure_geometry_display :
  ∃ g',
    configure area_480x384 Utils.Color_RED 2 Utils.Color_BLACK 1 10 8 5 4 fresh
      = Some g' ∧
    getStepSize TIME g' = 48 ∧
    getStepSize VOLTAGE g' = 48 ∧
    getLineSegment 9 TIME g' = Some (mkLineSegment 432 0 432 383) ∧
    getLineSegment 7 VOLTAGE g' = Some (mkLineSegment 0 336 479 336) ∧
    getLineSegment 10 TIME g' = Some zeroSegment.
Proof.
  destruct (configure_geometry area_480x384 Utils.Color_RED 2 Utils.Color_BLACK 1
              10 8 5 4 fresh)
    as (g' & E & Hts & Hvs & HT & HV & Hex).
  - split; reflexivity.
  - unfold in_range. simpl. lia.
  - simpl. lia.
  - simpl. lia.
  - simpl. lia.
  - simpl. lia.
  - unfold Utils.MAX_GRATICULES. lia.
  - unfold Utils.MAX_GRATICULES. lia.
  - exists g'. split; [exact E|].
    destruct (Hex eq_refl eq_refl) as (H48 & _ & H9 & H10).
    split; [exact H48|]. split; [exact Hvs|]. split; [exact H9|].
    split; [|exact H10].
    rewrite (HV 7) by lia. rewrite Hvs. reflexivity.
Defined.

(** C6 at the grid of the firmware. *)
Lemma getLineSegment_bounds_display :
  ∃ g',
    configure area_480x384 Utils.Color_RED 2 Utils.Color_BLACK 1 10 8 5 4 fresh
      = Some g' ∧
    getLineSegment 10 TIME g' = Some zeroSegment ∧
    getLineSegment (-1) VOLTAGE g' = Some zeroSegment ∧
    is_Some (getLineSegment 3 TIME g').
Proof.
  destruct (configure area_480x384 Utils.Color_RED 2 Utils.Color_BLACK 1 10 8 5 4 fresh)
    as [g'|] eqn:E; [|vm_compute in E; discriminate E].
  assert (wf fresh) as Hwf by (split; reflexivity).
  assert (1 ≤ 10 ≤ Utils.MAX_GRATICULES) as Htd by (unfold Utils.MAX_GRATICULES; lia).
  assert (1 ≤ 8 ≤ Utils.MAX_GRATICULES) as Hvd by (unfold Utils.MAX_GRATICULES; lia).
  pose proof (getLineSegment_bounds area_480x384 Utils.Color_RED 2 Utils.Color_BLACK 1
                10 8 5 4 fresh g' Hwf Htd Hvd E) as Hb.
  exists g'. split; [reflexivity|].
  vm_compute in E. injection E as <-.
  split; [apply (proj1 (Hb TIME 10)); simpl; lia|].
  split; [apply (proj1 (Hb VOLTAGE (-1))); simpl; lia|].
  destruct (proj2 (Hb TIME 3)) as (segment & _ & ->); [simpl; lia|].
  by exists segment.
Defined.

(** ** Further properties of [configure] *)

(** A loop that is defined has all its steps inside the array bound. *)
Lemma writeLines_Some_bound (line : Z → LineSegment) (steps : list Z)
    (array array' : list LineSegment) :
  writeLines line steps array = Some array' →
  Forall (λ i, i < Utils.MAX_GRATICULES) steps.
Proof.
  revert array. induction steps as [|i steps IH]; intros array E; simpl in E.
  { apply Forall_nil_2. }
  case_bool_decide as Hi; [|discriminate E].
  apply Forall_cons. split; [exact Hi|]. by apply (IH _ E).
Qed.

(** Storing lines that the array already holds changes nothing. *)
Lemma writeLines_stored (line : Z → LineSegment) (steps : list Z)
    (array : list LineSegment) :
  Forall (λ i, i < Utils.MAX_GRATICULES) steps →
  (∀ i, i ∈ steps → (Z.to_nat i < length array)%nat →
        array !! Z.to_nat i = Some (line i)) →
  writeLines line steps array = Some array.
Proof.
  induction steps as [|i steps IH]; intros Hb Hs; simpl; [done|].
  apply Forall_cons in Hb as [Hi Hb].
  rewrite bool_decide_eq_true_2 by done.
  assert (<[Z.to_nat i := line i]> array = array) as ->.
  { destruct (decide (Z.to_nat i < length array)%nat) as [Hlt|Hge].
    - apply list_insert_id, Hs; [left|done].
    - apply list_insert_ge. lia. }
  apply IH; [done|]. intros j Hj. apply Hs. by right.
Qed.

Lemma writeLines_seqZ_again (line : Z → LineSegment) (d : Z)
    (array array' : list LineSegment) :
  writeLines line (seqZ 0 d) array = Some array' →
  writeLines line (seqZ 0 d) array' = Some array'.
Proof.
  intros E. pose proof (writeLines_Some_bound _ _ _ _ E) as Hb.
  destruct (writeLines_inside line (seqZ 0 d) array)
    as (array'' & E' & Hlen & Hset & _).
  { apply Forall_forall. intros i Hi. rewrite Forall_forall in Hb.
    specialize (Hb i Hi). apply elem_of_seqZ in Hi. lia. }
  { apply NoDup_seqZ. }
  rewrite E in E'. injection E' as <-.
  apply writeLines_stored; [done|].
  intros i Hi Hlt. apply Hset; [done|]. by rewrite <- Hlen.
Qed.

(** The members that [configure] sets from its arguments. *)
Lemma configure_fields (b : Utils.Boundary) (oc : Utils.Color) (ot : Z)
    (gc : Utils.Color) (gt td vd xo yo : Z) (g g' : t) :
  configure b oc ot gc gt td vd xo yo g = Some g' →
  privateBoundary g' = b ∧
  originColor g' = oc ∧ originThickness g' = ot ∧
  gridlineColor g' = gc ∧ gridlineThickness g' = gt ∧
  timeDivisions g' = td ∧ voltageDivisions g' = vd ∧
  xOriginIndex g' = xo ∧ yOriginIndex g' = yo.
Proof.
  intros E. unfold configure, setStepSize in E. cbn [timeDivisions voltageDivisions] in E.
  case_bool_decide as Htd; [discriminate E|].
  case_bool_decide as Hvd; [discriminate E|].
  cbn [mbind option_bind] in E. unfold setLineSegments in E.
  destruct (writeLines _ (seqZ 0 _) (Time _)) as [time|]; [|discriminate E].
  cbn [mbind option_bind] in E.
  destruct (writeLines _ (seqZ 0 _) (Voltage _)) as [volt|]; [|discriminate E].
  cbn [mbind option_bind] in E. injection E as <-. repeat split.
Qed.

(** X17.  [configure] is idempotent, and the getters give back what it was
    handed: a second call with the same arguments leaves the object as the
    first call left it, the boundary, the division counts, the origin
    indices and the thicknesses are read back as they were passed, and the
    colours as their RGB565 values. *)
Theorem configure_idempotent (b : Utils.Boundary) (oc : Utils.Color) (ot : Z)
    (gc : Utils.Color) (gt td vd xo yo : Z) (g g' : t) :
  configure b oc ot gc gt td vd xo yo g = Some g' →
  configure b oc ot gc gt td vd xo yo g' = Some g' ∧
  getBoundary g' = b ∧
  getDivisions TIME g' = td ∧ getDivisions VOLTAGE g' = vd ∧
  getAxisIndex TIME g' = xo ∧ getAxisIndex VOLTAGE g' = yo ∧
  getColor ORIGIN g' = Math.enum565 oc ∧ getColor GRIDLINE g' = Math.enum565 gc ∧
  getThickness ORIGIN g' = ot ∧ getThickness GRIDLINE g' = gt.
Proof.
  intros E. unfold configure, setStepSize in E. cbn [timeDivisions voltageDivisions] in E.
  unfold configure, setStepSize. cbn [timeDivisions voltageDivisions].
  case_bool_decide as Htd; [discriminate E|].
  case_bool_decide as Hvd; [discriminate E|].
  cbn [mbind option_bind] in *. unfold setLineSegments in *.
  cbn [set_steps timeDivisions voltageDivisions Time Voltage privateBoundary] in *.
  match type of E with context [writeLines ?l (seqZ 0 td) (Time g)] =>
    destruct (writeLines l (seqZ 0 td) (Time g)) as [time|] eqn:Et; [|discriminate E];
    set (tl := l) in *
  end.
  cbn [mbind option_bind] in E.
  match type of E with context [writeLines ?l (seqZ 0 vd) (Voltage g)] =>
    destruct (writeLines l (seqZ 0 vd) (Voltage g)) as [volt|] eqn:Ev; [|discriminate E];
    set (vl := l) in *
  end.
  cbn [mbind option_bind] in E. injection E as <-.
  cbn [set_lines Time Voltage privateBoundary timeStepSize voltageStepSize
       timeDivisions voltageDivisions originColor originThickness gridlineColor
       gridlineThickness xOriginIndex yOriginIndex].
  split; [|repeat split].
  change (writeLines _ (seqZ 0 td) time) with (writeLines tl (seqZ 0 td) time).
  rewrite (writeLines_seqZ_again tl td _ _ Et). cbn [mbind option_bind].
  change (writeLines _ (seqZ 0 vd) volt) with (writeLines vl (seqZ 0 vd) volt).
  rewrite (writeLines_seqZ_again vl vd _ _ Ev). reflexivity.
Qed.

(** X18.  The layout of the grid.  For a boundary of [int16_t] members with
    [x2 ≥ x1] and [y2 ≥ y1] whose inclusive spans are at most 32767 and
    division counts between 1 and [MAX_GRATICULES], every line of
    [configure] lies inside the boundary, two neighbouring lines are one
    step apart, and the band from the last line to the end of the boundary
    takes the remainder of the division: it is the step plus the span modulo
    the division count wide.  With more divisions than pixels the step is 0
    and all lines of the axis fall on the first one. *)
Theorem configure_layout (b : Utils.Boundary) (oc : Utils.Color) (ot : Z)
    (gc : Utils.Color) (gt td vd xo yo : Z) (g : t) :
  wf g → in_range b →
  Utils.x1 b ≤ Utils.x2 b → Utils.y1 b ≤ Utils.y2 b →
  Utils.x2 b - Utils.x1 b + 1 ≤ 32767 → Utils.y2 b - Utils.y1 b + 1 ≤ 32767 →
  1 ≤ td ≤ Utils.MAX_GRATICULES → 1 ≤ vd ≤ Utils.MAX_GRATICULES →
  ∃ g' (time voltage : Z → Z),
    configure b oc ot gc gt td vd xo yo g = Some g' ∧
    (∀ i, 0 ≤ i < td →
       getLineSegment i TIME g' =
         Some (mkLineSegment (time i) (Utils.y1 b) (time i) (Utils.y2 b)) ∧
       Utils.x1 b ≤ time i ≤ Utils.x2 b) ∧
    (∀ i, 0 ≤ i < vd →
       getLineSegment i VOLTAGE g' =
         Some (mkLineSegment (Utils.x1 b) (voltage i) (Utils.x2 b) (voltage i)) ∧
       Utils.y1 b ≤ voltage i ≤ Utils.y2 b) ∧
    time 0 = Utils.x1 b ∧ voltage 0 = Utils.y1 b ∧
    (∀ i, 0 ≤ i < td - 1 → time (i + 1) - time i = getStepSize TIME g') ∧
    (∀ i, 0 ≤ i < vd - 1 → voltage (i + 1) - voltage i = getStepSize VOLTAGE g') ∧
    Utils.x2 b + 1 - time (td - 1)
      = getStepSize TIME g' + (Utils.x2 b - Utils.x1 b + 1) mod td ∧
    Utils.y2 b + 1 - voltage (vd - 1)
      = getStepSize VOLTAGE g' + (Utils.y2 b - Utils.y1 b + 1) mod vd ∧
    (getStepSize TIME g' = 0 ↔ Utils.x2 b - Utils.x1 b + 1 < td) ∧
    (getStepSize VOLTAGE g' = 0 ↔ Utils.y2 b - Utils.y1 b + 1 < vd).
Proof.
  intros Hwf (Hx1 & Hy1 & Hx2 & Hy2) Hx Hy Hw Hh Htd Hvd.
  unfold Utils.MAX_GRATICULES in *.
  destruct (configure_result b oc ot gc gt td vd xo yo g)
    as (g' & E & _ & Hb & HtdE & HvdE & Hts & Hvs & HT & HV & _);
    [done|unfold Utils.MAX_GRATICULES; lia..|].
  rewrite (int16_id (_ - _ + 1)) in Hts by lia.
  rewrite (int16_id (_ - _ + 1)) in Hvs by lia.
  rewrite Z.quot_div_nonneg in Hts by lia.
  rewrite Z.quot_div_nonneg in Hvs by lia.
  set (tl := Utils.x2 b - Utils.x1 b + 1) in *.
  set (vl := Utils.y2 b - Utils.y1 b + 1) in *.
  pose proof (Z.div_mod tl td ltac:(lia)) as Htdm.
  pose proof (Z.mod_pos_bound tl td ltac:(lia)) as Htm.
  pose proof (Z.div_mod vl vd ltac:(lia)) as Hvdm.
  pose proof (Z.mod_pos_bound vl vd ltac:(lia)) as Hvm.
  assert (0 ≤ tl `div` td) as Ht0 by (apply Z.div_pos; lia).
  assert (0 ≤ vl `div` vd) as Hv0 by (apply Z.div_pos; lia).
  rewrite int16_id in Hts by nia. rewrite int16_id in Hvs by nia.
  exists g', (λ i, Utils.x1 b + i * timeStepSize g'),
             (λ i, Utils.y1 b + i * voltageStepSize g').
  cbn [getStepSize]. cbv beta.
  split; [exact E|].
  split; [|split; [|split; [lia|split; [lia|split; [intros; lia|split;
    [intros; lia|split; [|split; [|split]]]]]]]].
  - intros i Hi. split; [|rewrite Hts; nia].
    unfold getLineSegment, isValidIndex.
    rewrite HtdE, uint8_id by lia.
    rewrite !bool_decide_eq_true_2 by lia. cbn [negb andb].
    rewrite (HT i Hi). unfold timeLine. rewrite Hb.
    rewrite int16_id; [done|]. rewrite Hts. nia.
  - intros i Hi. split; [|rewrite Hvs; nia].
    unfold getLineSegment, isValidIndex.
    rewrite HvdE, uint8_id by lia.
    rewrite !bool_decide_eq_true_2 by lia. cbn [negb andb].
    rewrite (HV i Hi). unfold voltageLine. rewrite Hb.
    rewrite int16_id; [done|]. rewrite Hvs. nia.
  - rewrite Hts. subst tl. nia.
  - rewrite Hvs. subst vl. nia.
  - rewrite Hts. split.
    + intros H0. rewrite H0 in Htdm. lia.
    + intros Hlt. apply Z.div_small. lia.
  - rewrite Hvs. split.
    + intros H0. rewrite H0 in Hvdm. lia.
    + intros Hlt. apply Z.div_small. lia.
Qed.

(** X17 at the grid of the firmware. *)
Lemma configure_idempotent_display :
  ∃ g',
    configure area_480x384 Utils.Color_RED 2 Utils.Color_BLACK 1 10 8 5 4 fresh
      = Some g' ∧
    configure area_480x384 Utils.Color_RED 2 Utils.Color_BLACK 1 10 8 5 4 g'
      = Some g'.
Proof.
  destruct (configure area_480x384 Utils.Color_RED 2 Utils.Color_BLACK 1 10 8 5 4 fresh)
    as [g'|] eqn:E; [|vm_compute in E; discriminate E].
  exists g'. split; [reflexivity|].
  apply (proj1 (configure_idempotent area_480x384 Utils.Color_RED 2 Utils.Color_BLACK 1
                  10 8 5 4 fresh g' E)).
Defined.

(** X18 at the boundary that the firmware resolves for its grid,
    (0,0)-(400,266), with 10 and 8 divisions: steps of 40 and 33 pixels and
    last bands of 41 and 36 pixels. *)
Lemma configure_layout_firmware :
  ∃ g' (time voltage : Z → Z),
    configure (Utils.mkBoundary 0 0 400 266) Utils.Color_RED 2 Utils.Color_BLACK 1
      10 8 5 4 fresh = Some g' ∧
    getStepSize TIME g' = 40 ∧ getStepSize VOLTAGE g' = 33 ∧
    400 + 1 - time 9 = 41 ∧ 266 + 1 - voltage 7 = 36.
Proof.
  destruct (configure_layout (Utils.mkBoundary 0 0 400 266) Utils.Color_RED 2
              Utils.Color_BLACK 1 10 8 5 4 fresh)
    as (g' & time & voltage & E & _ & _ & _ & _ & _ & _ & Ht & Hv & _).
  - split; reflexivity.
  - unfold in_range. simpl. lia.
  - simpl. lia.
  - simpl. lia.
  - simpl. lia.
  - simpl. lia.
  - unfold Utils.MAX_GRATICULES. lia.
  - unfold Utils.MAX_GRATICULES. lia.
  - exists g', time, voltage. split; [exact E|].
    assert (getStepSize TIME g' = 40 ∧ getStepSize VOLTAGE g' = 33) as [Hs1 Hs2].
    { vm_compute in E. injection E as <-. split; reflexivity. }
    split; [exact Hs1|]. split; [exact Hs2|].
    rewrite Hs1 in Ht. rewrite Hs2 in Hv. simpl in Ht, Hv. split; [exact Ht|exact Hv].
Defined.

End GraticulesFacts.

(** * Properties of the renderer of the grid *)

Module RendererFacts.
Import Graticules GraticulesRenderer.

Local Open Scope Z_scope.

Lemma int8_id (z : Z) : -128 ≤ z ≤ 127 → int8 z = z.
Proof. intros. unfold int8. rewrite Z.mod_small; lia. Qed.

Lemma uint8_negative (z : Z) : -256 ≤ z < 0 → uint8 z = z + 256.
Proof.
  intros. unfold uint8. symmetry. apply (Z.mod_unique_pos z 256 (-1)); lia.
Qed.

(** A valid index of an object whose arrays have their declared length
    reads the stored line. *)
Lemma getLineSegment_valid (axis : AxisType) (g : t) (i : Z) :
  wf g → getDivisions axis g ≤ Utils.MAX_GRATICULES →
  0 ≤ i < getDivisions axis g →
  ∃ segment,
    segments axis g !! Z.to_nat i = Some segment ∧
    getLineSegment i axis g = Some segment.
Proof.
  intros [HT HV] Hd Hi. unfold Utils.MAX_GRATICULES in *.
  unfold getLineSegment, isValidIndex.
  change (match axis with TIME => timeDivisions g | VOLTAGE => voltageDivisions g end)
    with (getDivisions axis g).
  rewrite GraticulesFacts.uint8_id by lia.
  rewrite !bool_decide_eq_true_2 by lia. cbn [negb andb].
  destruct (lookup_lt_is_Some_2 (segments axis g) (Z.to_nat i)) as [segment Hs].
  { destruct axis; simpl; lia. }
  exists segment. split; [done|]. by destruct axis.
Qed.

(** The loop hands one line to [lv_draw_line] for every step, in order,
    when every step reads a line. *)
Lemma drawGraticule_loop_lines (axis : AxisType) (g : t) (axisIndex : Z)
    (steps : list Z) :
  (∀ i, i ∈ steps → is_Some (getLineSegment (int8 i) axis g)) →
  ∃ lines,
    drawGraticule_loop axis g axisIndex steps = Some lines ∧
    length lines = length steps ∧
    ∀ n i, steps !! n = Some i →
      ∃ segment,
        getLineSegment (int8 i) axis g = Some segment ∧
        lines !! n = Some (setLineSegmentCoordinates
                             (initializeLineDescriptor g (bool_decide (i = axisIndex)))
                             segment).
Proof.
  induction steps as [|i steps IH]; intros Hread; simpl.
  { exists []. split; [done|]. split; [done|]. intros n i Hn. done. }
  destruct (Hread i) as [segment Hs]; [left|].
  destruct IH as (lines & -> & Hlen & Hlines).
  { intros j Hj. apply Hread. by right. }
  rewrite Hs. simpl. eexists. split; [reflexivity|]. split; [simpl; by rewrite Hlen|].
  intros [|n] j Hn; simpl in Hn.
  - injection Hn as <-. by exists segment.
  - apply (Hlines n j Hn).
Qed.

(** The loop is undefined when a step reads outside the array. *)
Lemma drawGraticule_loop_None (axis : AxisType) (g : t) (axisIndex : Z)
    (steps : list Z) :
  Exists (λ i, getLineSegment (int8 i) axis g = None) steps →
  drawGraticule_loop axis g axisIndex steps = None.
Proof.
  induction steps as [|i steps IH]; intros Hex; simpl.
  { by apply Exists_nil in Hex. }
  apply Exists_cons in Hex as [Hi|Hex].
  - by rewrite Hi.
  - rewrite (IH Hex). by destruct (getLineSegment (int8 i) axis g).
Qed.

(** X19.  On an object configured with division counts between 1 and
    [MAX_GRATICULES], [drawGraticule] is defined and draws exactly one line
    per division, line [i] with the coordinates of [getLineSegment i]; the
    line at the origin index of the axis carries the origin colour and
    thickness and every other line the gridline ones, so that an origin
    index outside the division range gives a grid without an origin line.
    The draw callback draws the lines of both axes. *)
Theorem drawGraticule_configured (b : Utils.Boundary) (oc : Utils.Color) (ot : Z)
    (gc : Utils.Color) (gt td vd xo yo : Z) (g g' : t) :
  wf g →
  1 ≤ td ≤ Utils.MAX_GRATICULES → 1 ≤ vd ≤ Utils.MAX_GRATICULES →
  -128 ≤ xo ≤ 127 → -128 ≤ yo ≤ 127 →
  configure b oc ot gc gt td vd xo yo g = Some g' →
  (∀ axis : AxisType,
     let style (isOrigin : bool) :=
       (Math.convert565 (Math.enum565 (if isOrigin then oc else gc)),
        if isOrigin then ot else gt) in
     ∃ lines,
       drawGraticule axis g' = Some lines ∧
       length lines = Z.to_nat (getDivisions axis g') ∧
       (∀ i, 0 ≤ i < getDivisions axis g' →
          ∃ segment,
            getLineSegment i axis g' = Some segment ∧
            lines !! Z.to_nat i =
              Some (setLineSegmentCoordinates
                      (style (bool_decide (i = getAxisIndex axis g'))) segment)) ∧
       (getAxisIndex axis g' < 0 ∨ getDivisions axis g' ≤ getAxisIndex axis g' →
        Forall (λ line, (color line, width line) = style false) lines)) ∧
  ∃ lines, graticule_draw_event_cb g' = Some lines ∧ length lines = Z.to_nat (td + vd).
Proof.
  intros Hwf Htd Hvd Hxo Hyo E.
  unfold Utils.MAX_GRATICULES in *.
  destruct (GraticulesFacts.configure_result b oc ot gc gt td vd xo yo g)
    as (g'' & E' & Hwf' & _ & HtdE & HvdE & _);
    [done|unfold Utils.MAX_GRATICULES; lia..|].
  rewrite E in E'. injection E' as <-.
  destruct (GraticulesFacts.configure_fields b oc ot gc gt td vd xo yo g g' E)
    as (_ & Hoc & Hot & Hgc & Hgt & _ & _ & Hxi & Hyi).
  assert (∀ axis, 1 ≤ getDivisions axis g' ≤ 20) as Hd by (intros []; simpl; lia).
  assert (∀ axis, -128 ≤ getAxisIndex axis g' ≤ 127) as Ha by (intros []; simpl; lia).
  assert (∀ axis : AxisType,
     ∃ lines,
       drawGraticule axis g' = Some lines ∧
       length lines = Z.to_nat (getDivisions axis g') ∧
       (∀ i, 0 ≤ i < getDivisions axis g' →
          ∃ segment,
            getLineSegment i axis g' = Some segment ∧
            lines !! Z.to_nat i =
              Some (setLineSegmentCoordinates
                      (initializeLineDescriptor g'
                         (bool_decide (i = getAxisIndex axis g'))) segment))) as Hdraw.
  { intros axis. unfold drawGraticule.
    rewrite GraticulesFacts.uint8_id by (specialize (Hd axis); lia).
    rewrite int8_id by apply Ha.
    destruct (drawGraticule_loop_lines axis g' (getAxisIndex axis g')
                (seqZ 0 (getDivisions axis g'))) as (lines & -> & Hlen & Hlines).
    { intros i Hi%elem_of_seqZ. rewrite int8_id by (specialize (Hd axis); lia).
      destruct (getLineSegment_valid axis g' i Hwf') as (segment & _ & ->);
        [unfold Utils.MAX_GRATICULES; apply Hd|lia|by exists segment]. }
    exists lines. split; [done|]. rewrite length_seqZ in Hlen. split; [done|].
    intros i Hi.
    destruct (Hlines (Z.to_nat i) i) as (segment & Hs & Hl).
    { rewrite lookup_seqZ. split; lia. }
    rewrite int8_id in Hs by (specialize (Hd axis); lia).
    by exists segment. }
  assert (∀ isOrigin,
            initializeLineDescriptor g' isOrigin =
              (Math.convert565 (Math.enum565 (if isOrigin then oc else gc)),
               if isOrigin then ot else gt)) as Hstyle.
  { intros []; unfold initializeLineDescriptor, getColor, getThickness;
      by rewrite ?Hoc, ?Hgc, ?Hot, ?Hgt. }
  split.
  - intros axis. cbv zeta. destruct (Hdraw axis) as (lines & Edraw & Hlen & Hlines).
    exists lines. split; [done|]. split; [done|]. split.
    + intros i Hi. destruct (Hlines i Hi) as (segment & Hs & Hl).
      exists segment. split; [done|]. by rewrite Hl, Hstyle.
    + intros Hout. apply Forall_forall. intros line Hin.
      apply list_elem_of_lookup in Hin as [n Hn].
      pose proof (lookup_lt_Some _ _ _ Hn) as Hlt.
      destruct (Hlines (Z.of_nat n)) as (segment & _ & Hl); [lia|].
      rewrite Nat2Z.id, Hn in Hl. injection Hl as ->.
      rewrite bool_decide_eq_false_2 by lia. by rewrite Hstyle.
  - unfold graticule_draw_event_cb.
    destruct (Hdraw TIME) as (time & -> & HlenT & _).
    destruct (Hdraw VOLTAGE) as (voltage & -> & HlenV & _).
    simpl. eexists. split; [reflexivity|].
    rewrite length_app, HlenT, HlenV. simpl. lia.
Qed.

(** X20.  [configure] accepts a negative count of time divisions and stores
    no time line for it.  The count is then read as a [uint8_t] of at least
    128: every index from 0 to 127 passes [isValidIndex], [getLineSegment]
    returns whatever the array held before for an index below
    [MAX_GRATICULES] and reads outside the array for an index from
    [MAX_GRATICULES] on, and [drawGraticule], whose loop runs past the end
    of the array, is undefined, and the draw callback with it. *)
Theorem negative_count_undefined (b : Utils.Boundary) (oc : Utils.Color) (ot : Z)
    (gc : Utils.Color) (gt td vd xo yo : Z) (g : t) :
  wf g → -128 ≤ td < 0 → 1 ≤ vd ≤ Utils.MAX_GRATICULES →
  ∃ g',
    configure b oc ot gc gt td vd xo yo g = Some g' ∧
    getDivisions TIME g' = td ∧
    Time g' = Time g ∧
    (∀ i, 0 ≤ i ≤ 127 → isValidIndex i TIME g' = true) ∧
    (∀ i, 0 ≤ i < Utils.MAX_GRATICULES →
       getLineSegment i TIME g' = Time g !! Z.to_nat i) ∧
    (∀ i, Utils.MAX_GRATICULES ≤ i ≤ 127 → getLineSegment i TIME g' = None) ∧
    drawGraticule TIME g' = None ∧
    graticule_draw_event_cb g' = None.
Proof.
  intros Hwf Htd Hvd.
  destruct (GraticulesFacts.configure_result b oc ot gc gt td vd xo yo g)
    as (g' & E & [HlenT _] & _ & HtdE & _ & _ & _ & _ & _ & Hkeep & _);
    [done|unfold Utils.MAX_GRATICULES in *; lia..|].
  unfold Utils.MAX_GRATICULES in *.
  assert (Time g' = Time g) as HT.
  { apply list_eq. intros n. rewrite <- (Nat2Z.id n). apply Hkeep; lia. }
  assert (∀ i, 0 ≤ i ≤ 127 → isValidIndex i TIME g' = true) as Hvalid.
  { intros i Hi. unfold isValidIndex. rewrite HtdE, uint8_negative by lia.
    rewrite !bool_decide_eq_true_2 by lia. reflexivity. }
  assert (∀ i, 0 ≤ i ≤ 127 → getLineSegment i TIME g' = Time g !! Z.to_nat i) as Hget.
  { intros i Hi. unfold getLineSegment. rewrite (Hvalid i Hi). cbn [negb].
    by rewrite HT. }
  assert (getLineSegment 20 TIME g' = None) as H20.
  { rewrite Hget by lia. apply lookup_ge_None. destruct Hwf as [-> _]. unfold Utils.MAX_GRATICULES. lia. }
  assert (drawGraticule TIME g' = None) as Hdraw.
  { unfold drawGraticule. apply drawGraticule_loop_None, Exists_exists.
    exists 20. split; [|by rewrite int8_id by lia].
    apply elem_of_seqZ. cbn [getDivisions]. rewrite HtdE, uint8_negative by lia.
    lia. }
  exists g'. split; [exact E|]. split; [exact HtdE|]. split; [exact HT|].
  split; [exact Hvalid|]. split; [intros i Hi; apply Hget; lia|]. split.
  - intros i Hi. rewrite Hget by lia. apply lookup_ge_None.
    destruct Hwf as [-> _]. unfold Utils.MAX_GRATICULES. lia.
  - split; [exact Hdraw|]. unfold graticule_draw_event_cb. by rewrite Hdraw.
Qed.

(** X19 at the grid of the firmware: ten vertical and eight horizontal
    lines. *)
Lemma drawGraticule_configured_display :
  ∃ g' lines,
    configure area_480x384 Utils.Color_RED 2 Utils.Color_BLACK 1 10 8 5 4 fresh
      = Some g' ∧
    graticule_draw_event_cb g' = Some lines ∧ length lines = 18%nat.
Proof.
  destruct (configure area_480x384 Utils.Color_RED 2 Utils.Color_BLACK 1 10 8 5 4 fresh)
    as [g'|] eqn:E; [|vm_compute in E; discriminate E].
  destruct (drawGraticule_configured area_480x384 Utils.Color_RED 2 Utils.Color_BLACK 1
              10 8 5 4 fresh g') as (_ & lines & Hcb & Hlen).
  - split; reflexivity.
  - unfold Utils.MAX_GRATICULES. lia.
  - unfold Utils.MAX_GRATICULES. lia.
  - lia.
  - lia.
  - exact E.
  - exists g', lines. split; [reflexivity|]. split; [exact Hcb|exact Hlen].
Defined.

(** X20 at the grid of the firmware with -1 time divisions. *)
Lemma negative_count_undefined_display :
  ∃ g',
    configure area_480x384 Utils.Color_RED 2 Utils.Color_BLACK 1 (-1) 8 5 4 fresh
      = Some g' ∧
    drawGraticule TIME g' = None.
Proof.
  destruct (negative_count_undefined area_480x384 Utils.Color_RED 2 Utils.Color_BLACK 1
              (-1) 8 5 4 fresh) as (g' & E & _ & _ & _ & _ & _ & Hdraw & _).
  - split; reflexivity.
  - lia.
  - unfold Utils.MAX_GRATICULES. lia.
  - exists g'. split; [exact E|exact Hdraw].
Defined.

End RendererFacts.

(** * Properties of the scaling functions and of the geometry step *)

Module MathFacts.

Local Open Scope Z_scope.

Lemma all_from_spec (test : Z → bool) (depth : nat) (base : Z) :
  all_from test depth base = true →
  ∀ z, base ≤ z < base + 2 ^ Z.of_nat depth → test z = true.
Proof.
  revert base. induction depth as [|d IH]; intros base; simpl all_from.
  - intros Ht z Hz. change (2 ^ Z.of_nat 0) with 1 in Hz.
    by replace z with base by lia.
  - intros [H1 H2]%andb_true_iff z Hz.
    rewrite Nat2Z.inj_succ, Z.pow_succ_r in Hz by lia.
    destruct (decide (z < base + 2 ^ Z.of_nat d)).
    + apply (IH base); [done|lia].
    + apply (IH (base + 2 ^ Z.of_nat d)); [done|lia].
Qed.

Lemma dimensionScaling_50_100 : Math.dimensionScaling 50 100 = Some 50.
Proof. reflexivity. Qed.

Lemma areaScaling_25_100 : Math.areaScaling 25 100 = Some 50.
Proof. reflexivity. Qed.

(** A full area leaves every [int16_t] dimension as it is. *)
Lemma areaScaling_100 (X : Z) : -32768 ≤ X ≤ 32767 → Math.areaScaling 100 X = Some X.
Proof.
  intros HX.
  assert (all_from (λ x, bool_decide (Math.areaScaling 100 x = Some x)) 16 (-32768)
          = true) as Hall by (vm_compute; reflexivity).
  apply (bool_decide_eq_true_1 (Math.areaScaling 100 X = Some X)).
  apply (all_from_spec _ _ _ Hall). change (2 ^ Z.of_nat 16) with 65536. lia.
Qed.

(** ** Further properties of the colour and scaling functions *)

Lemma all_from_range (test : Z → bool) (depth : nat) (base lo hi : Z) :
  all_from (λ z, negb (bool_decide (lo ≤ z ≤ hi)) || test z) depth base = true →
  base ≤ lo → hi < base + 2 ^ Z.of_nat depth →
  ∀ z, lo ≤ z ≤ hi → test z = true.
Proof.
  intros Hall Hlo Hhi z Hz.
  pose proof (all_from_spec _ _ _ Hall z ltac:(lia)) as Ht. simpl in Ht.
  by rewrite bool_decide_eq_true_2 in Ht.
Qed.

(** X12.  [convert565] loses nothing: the top 5, 6 and 5 bits of the three
    channels are the fields of the pixel, every channel is a [uint8_t], and a
    field is widened to 0 exactly when it is 0 and to 255 exactly when all
    its bits are set, so that black and white keep the full range. *)
Theorem convert565_round_trip (color : Z) :
  0 ≤ color ≤ 65535 →
  let c := Math.convert565 color in
  Math.pack565 c = color ∧
  0 ≤ Math.red c ≤ 255 ∧ 0 ≤ Math.green c ≤ 255 ∧ 0 ≤ Math.blue c ≤ 255 ∧
  (Math.red c = 0 ↔ Z.shiftr color 11 = 0) ∧
  (Math.red c = 255 ↔ Z.shiftr color 11 = 31) ∧
  (Math.blue c = 0 ↔ Z.land color 31 = 0) ∧
  (Math.blue c = 255 ↔ Z.land color 31 = 31).
Proof.
  intros Hc.
  set (test := λ z,
    let c := Math.convert565 z in
    bool_decide (Math.pack565 c = z) &&
    bool_decide (0 ≤ Math.red c ≤ 255) && bool_decide (0 ≤ Math.green c ≤ 255) &&
    bool_decide (0 ≤ Math.blue c ≤ 255) &&
    bool_decide (Math.red c = 0 ↔ Z.shiftr z 11 = 0) &&
    bool_decide (Math.red c = 255 ↔ Z.shiftr z 11 = 31) &&
    bool_decide (Math.blue c = 0 ↔ Z.land z 31 = 0) &&
    bool_decide (Math.blue c = 255 ↔ Z.land z 31 = 31)).
  assert (all_from test 16 0 = true) as Hall by (vm_compute; reflexivity).
  pose proof (all_from_spec _ _ _ Hall color) as Ht.
  specialize (Ht ltac:(change (2 ^ Z.of_nat 16) with 65536; lia)).
  unfold test in Ht. cbv zeta in Ht.
  repeat (apply andb_true_iff in Ht as [Ht ?%bool_decide_eq_true]).
  apply bool_decide_eq_true in Ht. cbv zeta. tauto.
Qed.

Lemma all_pairs_spec (test : Z → Z → bool) d1 b1 d2 b2 :
  all_pairs test d1 b1 d2 b2 = true →
  ∀ x y, b1 ≤ x < b1 + 2 ^ Z.of_nat d1 → b2 ≤ y < b2 + 2 ^ Z.of_nat d2 →
    test x y = true.
Proof.
  intros Hall x y Hx Hy. unfold all_pairs in Hall.
  pose proof (all_from_spec _ _ _ Hall x Hx) as Hrow. cbv beta in Hrow.
  exact (all_from_spec _ _ _ Hrow y Hy).
Qed.

(** X13.  A percentage of 100 leaves every [int16_t] dimension as it is
    under [dimensionScaling], and a percentage of 0 gives 0 under both
    scaling functions. *)
Theorem scaling_full_and_zero (X : Z) :
  -32768 ≤ X ≤ 32767 →
  Math.dimensionScaling 100 X = Some X ∧
  Math.dimensionScaling 0 X = Some 0 ∧
  Math.areaScaling 0 X = Some 0.
Proof.
  intros HX.
  set (test := λ x,
    bool_decide (Math.dimensionScaling 100 x = Some x) &&
    bool_decide (Math.dimensionScaling 0 x = Some 0) &&
    bool_decide (Math.areaScaling 0 x = Some 0)).
  assert (all_from test 16 (-32768) = true) as Hall by (vm_compute; reflexivity).
  pose proof (all_from_spec _ _ _ Hall X) as Ht.
  specialize (Ht ltac:(change (2 ^ Z.of_nat 16) with 65536; lia)).
  unfold test in Ht.
  apply andb_true_iff in Ht as [Ht H3].
  apply andb_true_iff in Ht as [H1 H2].
  apply bool_decide_eq_true in H1, H2, H3.
  split; [exact H1|split; [exact H2|exact H3]].
Qed.

(** A product with a NaN factor is a NaN, whose conversion to an integer
    is undefined. *)
Lemma int16_of_float_mul_nan (f : spec_float) :
  Math.int16_of_float (SFmul Math.prec Math.emax S754_nan f) = None.
Proof. destruct f; reflexivity. Qed.

(** X14.  [areaScaling] of a negative percentage is undefined, whatever the
    dimension: the square root of a negative number is a NaN, which has no
    integer value. *)
Theorem areaScaling_negative (percent dimension : Z) :
  -32768 ≤ percent < 0 → Math.areaScaling percent dimension = None.
Proof.
  intros Hp.
  set (test := λ p,
    match SFsqrt Math.prec Math.emax
            (SFdiv Math.prec Math.emax (Math.float_of_int p) (Math.float_of_int 100)) with
    | S754_nan => true
    | _ => false
    end).
  assert (all_from test 15 (-32768) = true) as Hall by (vm_compute; reflexivity).
  pose proof (all_from_spec _ _ _ Hall percent) as Ht.
  specialize (Ht ltac:(change (2 ^ Z.of_nat 15) with 32768; lia)).
  unfold test in Ht. unfold Math.areaScaling.
  destruct (SFsqrt _ _ _); try discriminate Ht. apply int16_of_float_mul_nan.
Qed.

(** X15.  On the two resolutions of the display, 480 and 320, both scaling
    functions are exact for every percentage from 0 to 100:
    [dimensionScaling] is the percentage of the resolution rounded down, and
    [areaScaling] is the resolution times the square root of the percentage
    over 100, rounded down. *)
Theorem scaling_exact_on_display (percent dimension : Z) :
  0 ≤ percent ≤ 100 → dimension = 480 ∨ dimension = 320 →
  Math.dimensionScaling percent dimension = Some (percent * dimension / 100) ∧
  Math.areaScaling percent dimension
    = Some (Z.sqrt (percent * dimension * dimension / 100)).
Proof.
  intros Hp Hd.
  set (test := λ d p,
    bool_decide (Math.dimensionScaling p d = Some (p * d / 100)) &&
    bool_decide (Math.areaScaling p d = Some (Z.sqrt (p * d * d / 100)))).
  assert (all_from (λ p, negb (bool_decide (0 ≤ p ≤ 100)) || test 480 p) 7 0 = true)
    as H480 by (vm_compute; reflexivity).
  assert (all_from (λ p, negb (bool_decide (0 ≤ p ≤ 100)) || test 320 p) 7 0 = true)
    as H320 by (vm_compute; reflexivity).
  assert (test dimension percent = true) as Ht.
  { destruct Hd as [-> | ->].
    - apply (all_from_range _ _ _ _ _ H480); [lia|change (2 ^ Z.of_nat 7) with 128; lia|lia].
    - apply (all_from_range _ _ _ _ _ H320); [lia|change (2 ^ Z.of_nat 7) with 128; lia|lia]. }
  unfold test in Ht.
  apply andb_true_iff in Ht as [H1 H2].
  apply bool_decide_eq_true in H1, H2.
  split; [exact H1|exact H2].
Qed.

(** X16.  For a percentage from 0 to 100 and a dimension below 1024,
    [dimensionScaling] is defined, is not above the dimension, and is the
    exact percentage rounded down or one below it; it is one below for 13
    percent of 900, which is 117 and comes out as 116. *)
Theorem dimensionScaling_accuracy (percent dimension : Z) :
  0 ≤ percent ≤ 100 → 0 ≤ dimension < 1024 →
  (∃ r, Math.dimensionScaling percent dimension = Some r ∧
        0 ≤ r ≤ dimension ∧
        (r = percent * dimension / 100 ∨ r = percent * dimension / 100 - 1)) ∧
  Math.dimensionScaling 13 900 = Some (13 * 900 / 100 - 1).
Proof.
  intros Hp Hd.
  set (test := λ p d,
    negb (bool_decide (0 ≤ p ≤ 100)) ||
    match Math.dimensionScaling p d with
    | Some r => bool_decide (0 ≤ r ≤ d) &&
                (bool_decide (r = p * d / 100) || bool_decide (r = p * d / 100 - 1))
    | None => false
    end).
  assert (all_pairs test 7 0 10 0 = true) as Hall by (vm_compute; reflexivity).
  pose proof (all_pairs_spec _ _ _ _ _ Hall percent dimension) as Ht.
  specialize (Ht ltac:(change (2 ^ Z.of_nat 7) with 128; lia)
                 ltac:(change (2 ^ Z.of_nat 10) with 1024; lia)).
  unfold test in Ht. rewrite bool_decide_eq_true_2 in Ht by lia.
  cbn [negb orb] in Ht.
  split; [|vm_compute; reflexivity].
  destruct (Math.dimensionScaling percent dimension) as [r|]; [|discriminate Ht].
  apply andb_true_iff in Ht as [Hr Hex]. apply bool_decide_eq_true in Hr.
  exists r. split; [reflexivity|]. split; [exact Hr|].
  apply orb_true_iff in Hex as [Hex|Hex]; apply bool_decide_eq_true in Hex; auto.
Qed.

(** X12 at the pixel 0xF81F, whose red and blue fields are full and whose
    green field is empty. *)
Lemma convert565_round_trip_F81F :
  let c := Math.convert565 63519 in
  Math.pack565 c = 63519 ∧ c = Math.mk_lv_color 255 0 255.
Proof.
  intros c. split; [|reflexivity].
  apply (proj1 (convert565_round_trip 63519 ltac:(lia))).
Defined.

(** X13 at the height of the display. *)
Lemma scaling_full_and_zero_320 :
  Math.dimensionScaling 100 320 = Some 320 ∧
  Math.dimensionScaling 0 320 = Some 0 ∧
  Math.areaScaling 0 320 = Some 0.
Proof. apply (scaling_full_and_zero 320). lia. Defined.

(** X14 at minus one percent of the width of the display. *)
Lemma areaScaling_negative_480 : Math.areaScaling (-1) 480 = None.
Proof. apply (areaScaling_negative (-1) 480). lia. Defined.

(** X15 at 80 percent of the width of the display. *)
Lemma scaling_exact_on_display_80 :
  Math.dimensionScaling 80 480 = Some 384 ∧ Math.areaScaling 80 480 = Some 429.
Proof. apply (scaling_exact_on_display 80 480); [lia|by left]. Defined.

(** X16 at 13 percent of 900. *)
Lemma dimensionScaling_accuracy_900 :
  ∃ r, Math.dimensionScaling 13 900 = Some r ∧ 0 ≤ r ≤ 900 ∧
       (r = 13 * 900 / 100 ∨ r = 13 * 900 / 100 - 1).
Proof. apply (proj1 (dimensionScaling_accuracy 13 900 ltac:(lia) ltac:(lia))). Defined.

(** X26.  On the display of the firmware, 480 by 320 pixels, the area that
    [areaScaling] gives a widget never exceeds the requested percentage of
    the screen area and misses it by less than one row and one column of
    pixels; both sides grow with the percentage and stay within the
    display. *)
Theorem areaScaling_area_on_display (percent : Z) :
  0 ≤ percent ≤ 100 →
  ∃ w h,
    Math.areaScaling percent Definitions.horizontalRes = Some w ∧
    Math.areaScaling percent Definitions.verticalRes = Some h ∧
    0 ≤ w ≤ Definitions.horizontalRes ∧ 0 ≤ h ≤ Definitions.verticalRes ∧
    w * h ≤ percent * (Definitions.horizontalRes * Definitions.verticalRes) / 100
      < (w + 1) * (h + 1) ∧
    ∀ larger w' h',
      percent ≤ larger ≤ 100 →
      Math.areaScaling larger Definitions.horizontalRes = Some w' →
      Math.areaScaling larger Definitions.verticalRes = Some h' →
      w ≤ w' ∧ h ≤ h'.
Proof.
  intros Hp.
  set (size := λ p, (Math.areaScaling p Definitions.horizontalRes,
                     Math.areaScaling p Definitions.verticalRes)).
  set (test1 := λ p,
    match size p with
    | (Some w, Some h) =>
        bool_decide (0 ≤ w ≤ Definitions.horizontalRes) &&
        bool_decide (0 ≤ h ≤ Definitions.verticalRes) &&
        bool_decide (w * h ≤ p * (Definitions.horizontalRes * Definitions.verticalRes) / 100
                       < (w + 1) * (h + 1))
    | _ => false
    end).
  set (test2 := λ p q,
    negb (bool_decide (0 ≤ p ≤ q)) || negb (bool_decide (q ≤ 100)) ||
    match size p, size q with
    | (Some w, Some h), (Some w', Some h') => bool_decide (w ≤ w') && bool_decide (h ≤ h')
    | _, _ => false
    end).
  assert (all_from (λ p, negb (bool_decide (0 ≤ p ≤ 100)) || test1 p) 7 0 = true)
    as Hall1 by (vm_compute; reflexivity).
  assert (all_pairs test2 7 0 7 0 = true) as Hall2 by (vm_compute; reflexivity).
  pose proof (all_from_range _ _ _ _ _ Hall1 ltac:(lia)
                ltac:(change (2 ^ Z.of_nat 7) with 128; lia) percent Hp) as Ht1.
  unfold test1, size in Ht1.
  destruct (Math.areaScaling percent Definitions.horizontalRes) as [w|] eqn:Ew;
    [|discriminate Ht1].
  destruct (Math.areaScaling percent Definitions.verticalRes) as [h|] eqn:Eh;
    [|discriminate Ht1].
  apply andb_true_iff in Ht1 as [Ht1 Harea].
  apply andb_true_iff in Ht1 as [Hw Hh].
  apply bool_decide_eq_true in Hw, Hh, Harea.
  exists w, h. split; [reflexivity|]. split; [reflexivity|].
  split; [exact Hw|]. split; [exact Hh|]. split; [exact Harea|].
  intros q w' h' Hq Ew' Eh'.
  pose proof (all_pairs_spec _ _ _ _ _ Hall2 percent q
                ltac:(change (2 ^ Z.of_nat 7) with 128; lia)
                ltac:(change (2 ^ Z.of_nat 7) with 128; lia)) as Ht2.
  unfold test2, size in Ht2.
  rewrite Ew, Eh, Ew', Eh' in Ht2.
  rewrite (bool_decide_eq_true_2 (0 ≤ percent ≤ q)) in Ht2 by lia.
  rewrite (bool_decide_eq_true_2 (q ≤ 100)) in Ht2 by lia.
  cbn [negb orb] in Ht2.
  apply andb_true_iff in Ht2 as [H1 H2].
  apply bool_decide_eq_true in H1, H2. split; [exact H1|exact H2].
Qed.

(** X26 at the 70 percent of the grid of the firmware: 401 by 267 pixels,
    107067 of the 107520 pixels asked for. *)
Lemma areaScaling_area_on_display_70 :
  ∃ w h,
    Math.areaScaling 70 Definitions.horizontalRes = Some w ∧
    Math.areaScaling 70 Definitions.verticalRes = Some h ∧
    w * h ≤ 107520 < (w + 1) * (h + 1).
Proof.
  destruct (areaScaling_area_on_display 70 ltac:(lia))
    as (w & h & Ew & Eh & _ & _ & Harea & _).
  exists w, h. split; [exact Ew|]. split; [exact Eh|]. exact Harea.
Defined.

(** ** The scaling functions on the display of the firmware *)

(** On the two resolutions of the display, 480 and 320, and for a
    percentage from 0 to 100, [dimensionScaling] is the percentage of the
    resolution, rounded down, and [areaScaling] is the resolution times the
    square root of the percentage over 100, rounded down. *)
Lemma display_scaling_exact (percent dimension : Z) :
  0 ≤ percent ≤ 100 → dimension = 480 ∨ dimension = 320 →
  ∃ d r,
    Math.dimensionScaling percent dimension = Some d ∧
    Math.areaScaling percent dimension = Some r ∧
    d = dimension * percent / 100 ∧
    0 ≤ d ≤ dimension ∧ 0 ≤ r ≤ dimension ∧
    100 * (r * r) ≤ percent * (dimension * dimension) < 100 * ((r + 1) * (r + 1)).
Proof.
  intros Hp Hd.
  set (test := λ dim p,
    match Math.dimensionScaling p dim, Math.areaScaling p dim with
    | Some d, Some r =>
        bool_decide (d = dim * p / 100) &&
        bool_decide (0 ≤ d ≤ dim) && bool_decide (0 ≤ r ≤ dim) &&
        bool_decide (100 * (r * r) ≤ p * (dim * dim) < 100 * ((r + 1) * (r + 1)))
    | _, _ => false
    end).
  assert (all_from (λ p, negb (bool_decide (0 ≤ p ≤ 100)) || test 480 p) 7 0 = true)
    as H480 by (vm_compute; reflexivity).
  assert (all_from (λ p, negb (bool_decide (0 ≤ p ≤ 100)) || test 320 p) 7 0 = true)
    as H320 by (vm_compute; reflexivity).
  assert (test dimension percent = true) as Ht.
  { destruct Hd as [-> | ->].
    - apply (all_from_range _ _ _ _ _ H480);
        [lia|change (2 ^ Z.of_nat 7) with 128; lia|lia].
    - apply (all_from_range _ _ _ _ _ H320);
        [lia|change (2 ^ Z.of_nat 7) with 128; lia|lia]. }
  unfold test in Ht.
  destruct (Math.dimensionScaling percent dimension) as [d|]; [|discriminate Ht].
  destruct (Math.areaScaling percent dimension) as [r|]; [|discriminate Ht].
  apply andb_true_iff in Ht as [Ht H4].
  apply andb_true_iff in Ht as [Ht H3].
  apply andb_true_iff in Ht as [H1 H2].
  apply bool_decide_eq_true in H1, H2, H3, H4.
  exists d, r. split; [reflexivity|]. split; [reflexivity|].
  split; [exact H1|]. split; [exact H2|]. split; [exact H3|exact H4].
Qed.

(** The area of the two sides that [areaScaling] gives on the display is
    the percentage of the area of the display, short of it by less than one
    row and one column. *)
Lemma display_area_scaled (percent : Z) :
  0 ≤ percent ≤ 100 →
  ∃ w h,
    Math.areaScaling percent 480 = Some w ∧
    Math.areaScaling percent 320 = Some h ∧
    w * h ≤ percent * (480 * 320) / 100 < (w + 1) * (h + 1).
Proof.
  intros Hp.
  set (test := λ p,
    match Math.areaScaling p 480, Math.areaScaling p 320 with
    | Some w, Some h =>
        bool_decide (w * h ≤ p * (480 * 320) / 100 < (w + 1) * (h + 1))
    | _, _ => false
    end).
  assert (all_from (λ p, negb (bool_decide (0 ≤ p ≤ 100)) || test p) 7 0 = true)
    as Hall by (vm_compute; reflexivity).
  pose proof (all_from_range _ _ _ _ _ Hall ltac:(lia)
                ltac:(change (2 ^ Z.of_nat 7) with 128; lia) percent Hp) as Ht.
  unfold test in Ht.
  destruct (Math.areaScaling percent 480) as [w|]; [|discriminate Ht].
  destruct (Math.areaScaling percent 320) as [h|]; [|discriminate Ht].
  apply bool_decide_eq_true in Ht.
  exists w, h. split; [reflexivity|]. split; [reflexivity|exact Ht].
Qed.

End MathFacts.

(** * Properties of the widget builder *)

Module WidgetBuilderFacts.
Import WidgetBuilder.

Local Open Scope Z_scope.

(** The loop of [setAttribute] ends in [COMPLETE] when every entry has its
    record and its instance and in [ERROR_BUILDING] otherwise; it changes
    the widgets only in the [GRAPH] case. *)
Lemma setAttribute_loop_result (pool : PointerTable)
    (attributes : gmap addr Utils.Attributes)
    (entries : list (HashTable.Entry Utils.WidgetType (option addr)))
    (widgets : gmap addr Widget.t) :
  (∀ entry pa, entry ∈ entries →
     HashTable.key entry = Utils.GRAPH → HashTable.value entry = Some pa →
     ∃ a, attributes !! pa = Some a ∧
          1 ≤ Utils.xDivisionQty (Utils.data_graph a) ≤ Utils.MAX_GRATICULES ∧
          1 ≤ Utils.yDivisionQty (Utils.data_graph a) ≤ Utils.MAX_GRATICULES) →
  (∀ pw, WidgetPool.getWidget Utils.GRAPH pool = Some pw →
     ∃ widget g, widgets !! pw = Some widget ∧ Widget.graticules widget = Some g) →
  ∃ widgets',
    setAttribute_loop instance pool attributes entries widgets =
      Some (if forallb (present pool) entries then COMPLETE else ERROR_BUILDING,
            widgets') ∧
    (Forall (λ entry, HashTable.key entry ≠ Utils.GRAPH) entries → widgets' = widgets).
Proof.
  revert widgets. induction entries as [|entry entries IH]; intros widgets Hrec Hinst.
  { exists widgets. done. }
  simpl. unfold present at 1.
  destruct (HashTable.value entry) as [pa|] eqn:Hv; [|by exists widgets].
  destruct (WidgetPool.getWidget (HashTable.key entry) pool) as [pw|] eqn:Hw;
    [|by exists widgets].
  assert (∀ entry' pa', entry' ∈ entries →
            HashTable.key entry' = Utils.GRAPH → HashTable.value entry' = Some pa' →
            ∃ a, attributes !! pa' = Some a ∧
                 1 ≤ Utils.xDivisionQty (Utils.data_graph a) ≤ Utils.MAX_GRATICULES ∧
                 1 ≤ Utils.yDivisionQty (Utils.data_graph a) ≤ Utils.MAX_GRATICULES)
    as Hrec'.
  { intros entry' pa' Hin. apply Hrec. by right. }
  destruct (HashTable.key entry) eqn:Hk.
  - destruct (IH widgets Hrec' Hinst) as (widgets' & -> & Hsame).
    exists widgets'. split; [done|]. intros [_ ?]%Forall_cons. by apply Hsame.
  - destruct (IH widgets Hrec' Hinst) as (widgets' & -> & Hsame).
    exists widgets'. split; [done|]. intros [_ ?]%Forall_cons. by apply Hsame.
  - destruct (Hrec entry pa) as (a & -> & Hx & Hy); [by left|done|done|].
    destruct (Hinst pw Hw) as (widget & g & -> & Hg). simpl. rewrite Hg. simpl.
    destruct (GraticulesFacts.configure_is_Some
                (Utils.boundary (Utils.geometry a))
                (Utils.originColor (Utils.data_graph a))
                (Utils.originThickness (Utils.data_graph a))
                (Utils.gridlineColor (Utils.data_graph a))
                (Utils.gridlineThickness (Utils.data_graph a))
                (Utils.xDivisionQty (Utils.data_graph a))
                (Utils.yDivisionQty (Utils.data_graph a))
                (Utils.xOriginIndex (Utils.data_graph a))
                (Utils.yOriginIndex (Utils.data_graph a)) g Hx Hy) as [g' Hc].
    unfold configureGraph. rewrite Hc. simpl.
    destruct (IH (<[pw := Widget.setGraticules g' widget]> widgets) Hrec')
      as (widgets' & -> & _).
    { intros pw' Hw'. rewrite Hw in Hw'. injection Hw' as <-.
      exists (Widget.setGraticules g' widget), g'.
      by rewrite lookup_insert_eq. }
    exists widgets'. split; [done|]. intros [Hne _]%Forall_cons. done.
Qed.

(** ** Claims *)



(** With a null record for the label, the builder ends in
    [ERROR_BUILDING]. *)
Example setWidgets_null_record :
  (state ∘ fst <$>
     setWidgets 3 (setServices instance instance init) Definitions.world_null_label)
  = Some ERROR_BUILDING.
Proof. vm_compute. reflexivity. Qed.

(** ** Further properties of the builder *)

(** The loop of [setAttribute] leaves [COMPLETE] or [ERROR_BUILDING]. *)
Lemma setAttribute_loop_state (widgetPool : Service) (pool : PointerTable)
    (attributes : gmap addr Utils.Attributes)
    (entries : list (HashTable.Entry Utils.WidgetType (option addr)))
    (widgets widgets' : gmap addr Widget.t) (st : BuilderState) :
  setAttribute_loop widgetPool pool attributes entries widgets = Some (st, widgets') →
  st = COMPLETE ∨ st = ERROR_BUILDING.
Proof.
  revert widgets. induction entries as [|entry entries IH]; intros widgets E; simpl in E.
  { injection E as <- <-. by left. }
  destruct widgetPool; [discriminate E|].
  destruct (HashTable.value entry) as [pa|]; [|injection E as <- <-; by right].
  destruct (WidgetPool.getWidget (HashTable.key entry) pool) as [pw|];
    [|injection E as <- <-; by right].
  destruct (HashTable.key entry); try by apply (IH _ E).
  destruct (attributes !! pa) as [a|]; [|discriminate E].
  cbn [mbind option_bind] in E.
  destruct (widgets !! pw) as [widget|]; [|discriminate E].
  cbn [mbind option_bind] in E.
  destruct (Widget.graticules widget) as [g|]; [|discriminate E].
  cbn [mbind option_bind] in E.
  destruct (configureGraph a g) as [g'|]; [|discriminate E].
  cbn [mbind option_bind] in E. by apply (IH _ E).
Qed.

Lemma setAttribute_state (b b' : t) (w w' : World) :
  setAttribute b w = Some (b', w') →
  state b' = COMPLETE ∨ state b' = ERROR_BUILDING.
Proof.
  unfold setAttribute. intros E.
  destruct (widgetRegistry b); [discriminate E|].
  destruct (setAttribute_loop _ _ _ _ _) as [[st widgets']|] eqn:Eloop; [|discriminate E].
  cbn [mbind option_bind] in E. injection E as <- <-.
  apply (setAttribute_loop_state _ _ _ _ _ _ _ Eloop).
Qed.

(** More iterations than the state of the builder calls for change nothing
    in [setWidgets]. *)
Lemma setWidgets_fuel (n fuel : nat) (b : t) (w : World) :
  (match state b with SERVICES_SET => 3 | BUILDING => 2 | _ => 1 end ≤ n)%nat →
  setWidgets (n + fuel) b w = setWidgets n b w.
Proof.
  revert b w. induction n as [|n IH]; intros b w Hn.
  { destruct (state b); lia. }
  cbn [Nat.add setWidgets].
  destruct (state b) eqn:Hst; try reflexivity.
  - apply IH. simpl. lia.
  - destruct (setAttribute b w) as [[b1 w1]|] eqn:E; [|reflexivity].
    cbn [mbind option_bind]. apply IH.
    destruct (setAttribute_state _ _ _ _ E) as [-> | ->]; lia.
Qed.

(** [setWidgets] leaves the builder in [COMPLETE] or in [ERROR_BUILDING]. *)
Lemma builder_setWidgets_state (fuel : nat) (b b' : t) (w w' : World) :
  setWidgets fuel b w = Some (b', w') →
  state b' = COMPLETE ∨ state b' = ERROR_BUILDING.
Proof.
  revert b w. induction fuel as [|fuel IH]; intros b w E; [discriminate E|].
  cbn [setWidgets] in E. destruct (state b) eqn:Hst.
  - injection E as <- <-. by right.
  - by apply (IH _ _ E).
  - injection E as <- <-. by right.
  - destruct (setAttribute b w) as [[b1 w1]|]; [|discriminate E].
    cbn [mbind option_bind] in E. by apply (IH _ _ E).
  - injection E as <- <-. by right.
  - injection E as <- <-. by left.
Qed.

(** The loop of [setAttribute] drops no widget. *)
Lemma setAttribute_loop_live (widgetPool : Service) (pool : PointerTable)
    (attributes : gmap addr Utils.Attributes)
    (entries : list (HashTable.Entry Utils.WidgetType (option addr)))
    (widgets widgets' : gmap addr Widget.t) (st : BuilderState) (p : addr) :
  setAttribute_loop widgetPool pool attributes entries widgets = Some (st, widgets') →
  is_Some (widgets !! p) → is_Some (widgets' !! p).
Proof.
  revert widgets. induction entries as [|entry entries IH]; intros widgets E Hp;
    simpl in E.
  { by injection E as <- <-. }
  destruct widgetPool; [discriminate E|].
  destruct (HashTable.value entry) as [pa|]; [|by injection E as <- <-].
  destruct (WidgetPool.getWidget (HashTable.key entry) pool) as [pw|];
    [|by injection E as <- <-].
  destruct (HashTable.key entry); try by apply (IH _ E).
  destruct (attributes !! pa) as [a|]; [|discriminate E].
  cbn [mbind option_bind] in E.
  destruct (widgets !! pw) as [widget|] eqn:Hw; [|discriminate E].
  cbn [mbind option_bind] in E.
  destruct (Widget.graticules widget) as [g|]; [|discriminate E].
  cbn [mbind option_bind] in E.
  destruct (configureGraph a g) as [g'|]; [|discriminate E].
  cbn [mbind option_bind] in E. apply (IH _ E).
  destruct (decide (pw = p)) as [->|Hne].
  - rewrite lookup_insert_eq. by eexists.
  - by rewrite lookup_insert_ne.
Qed.

End WidgetBuilderFacts.

(** * Properties of the screen coordinator and of the orchestrators *)

Module ScreenFacts.

Local Open Scope Z_scope.

Lemma convertArea_exact (width height : Z) :
  -32768 < width ≤ 32767 → -32768 < height ≤ 32767 →
  Math.convertArea width height = Utils.mkBoundary 0 0 (width - 1) (height - 1).
Proof.
  intros Hw Hh. unfold Math.convertArea.
  by rewrite !GraticulesFacts.int16_id by lia.
Qed.

(** ** Claims *)

(** C3, as the specification states it, fails: the operations do not look
    at the current state.  A screen that [setServices] put into
    [ERROR_SERVICES] with a null pool is moved to [SERVICES_SET] by a second
    call with both services, and [WidgetBuilder::setWidgets] moves a builder
    from [ERROR_SERVICES] to [ERROR_BUILDING]. *)
Lemma error_state_left :
  let screen := Screen.setServices instance nullptr Screen.init in
  let builder := WidgetBuilder.setServices instance nullptr WidgetBuilder.init in
  Screen.state screen = Screen.ERROR_SERVICES ∧
  Screen.state (Screen.setServices instance instance screen) = Screen.SERVICES_SET ∧
  WidgetBuilder.state builder = WidgetBuilder.ERROR_SERVICES ∧
  (WidgetBuilder.state ∘ fst <$> WidgetBuilder.setWidgets 3 builder Definitions.world)
    = Some WidgetBuilder.ERROR_BUILDING.
Proof. repeat split; reflexivity. Qed.

(** C3, amended.  The orchestrators of [main.cpp] call no operation of a
    machine that is in an [Error*] state: [setScreen] and [setBuilder]
    return false and leave the machine and the stores as they are, and
    [WidgetBuilder::setWidgets] leaves [ERROR_BUILDING] as it is.  In
    particular, [setScreen] with a null pool ends in [ERROR_SERVICES], and no
    later run of [setScreen], whatever services it is given, changes that
    state. *)
Theorem error_states_terminal
    (horizontalRes verticalRes : Z) (createWidget : Utils.WidgetType → option nat)
    (fuel : nat) (widgetRegistry widgetPool : Service) (w : World) :
  (∀ screen,
     Screen.is_error (Screen.state screen) = true →
     Main.setScreen horizontalRes verticalRes createWidget (S fuel)
       widgetRegistry widgetPool screen w = Some (false, screen, w)) ∧
  (∀ builder,
     WidgetBuilder.is_error (WidgetBuilder.state builder) = true →
     Main.setBuilder (S fuel) widgetRegistry widgetPool builder w
       = Some (false, builder, w)) ∧
  (∀ builder,
     WidgetBuilder.state builder = WidgetBuilder.ERROR_BUILDING →
     WidgetBuilder.setWidgets (S fuel) builder w = Some (builder, w)) ∧
  (let screen := Screen.setServices widgetRegistry nullptr Screen.init in
   Main.setScreen horizontalRes verticalRes createWidget (S (S fuel))
     widgetRegistry nullptr Screen.init w = Some (false, screen, w) ∧
   Screen.state screen = Screen.ERROR_SERVICES ∧
   ∀ fuel' widgetRegistry' widgetPool' w',
     Main.setScreen horizontalRes verticalRes createWidget (S fuel')
       widgetRegistry' widgetPool' screen w' = Some (false, screen, w')).
Proof.
  split; [|split; [|split]].
  - intros [st r p] Herr. simpl in *. by destruct st.
  - intros [st r p] Herr. simpl in *. by destruct st.
  - intros [st r p] Hst. simpl in *. by subst st.
  - simpl. destruct widgetRegistry; done.
Qed.

(** ** The claims at the stores of the firmware *)

(** C3 at the stores of the firmware, when no pool is handed over. *)
Lemma setScreen_null_pool :
  Main.setScreen Definitions.horizontalRes Definitions.verticalRes
    Definitions.createWidget 2 instance nullptr Screen.init Definitions.world
  = Some (false, Screen.setServices instance nullptr Screen.init, Definitions.world).
Proof.
  apply (error_states_terminal Definitions.horizontalRes Definitions.verticalRes
           Definitions.createWidget 0 instance nullptr Definitions.world).
Defined.

(** ** The whole set-up sequence of [main.cpp] *)

(** [setScreen] succeeds on the stores of the firmware and leaves the
    screen in [ATTRIBUTES_SET]; [setBuilder] then succeeds and leaves the
    builder in [COMPLETE], with the grid configured on the resolved
    boundary: steps of 40 and 33 pixels. *)
Example setup_succeeds :
  ('(ok1, screen, w1) ←
      Main.setScreen Definitions.horizontalRes Definitions.verticalRes
        Definitions.createWidget 4 instance instance Screen.init Definitions.world;
   '(ok2, builder, w2) ← Main.setBuilder 3 instance instance WidgetBuilder.init w1;
   widget ← widgets w2 !! Definitions.graticules_addr;
   g ← Widget.graticules widget;
   Some (ok1, Screen.state screen, ok2, WidgetBuilder.state builder,
         Graticules.getBoundary g,
         Graticules.getStepSize Graticules.TIME g,
         Graticules.getStepSize Graticules.VOLTAGE g))
  = Some (true, Screen.ATTRIBUTES_SET, true, WidgetBuilder.COMPLETE,
          Utils.mkBoundary 0 0 400 266, 40, 33).
Proof. vm_compute. reflexivity. Qed.

(** A null record in the registry stops [setScreen] in
    [ERROR_REGISTRATION]. *)
Example setup_null_record :
  (λ r, (r.1.1, Screen.state r.1.2)) <$>
    Main.setScreen Definitions.horizontalRes Definitions.verticalRes
      Definitions.createWidget 4 instance instance Screen.init
      Definitions.world_null_label
  = Some (false, Screen.ERROR_REGISTRATION).
Proof. vm_compute. reflexivity. Qed.

(** ** Further properties of the screen coordinator *)

(** A record that the geometry step has resolved is a fixed point of the
    step. *)
Lemma resolveGeometry_fixed (horizontalRes verticalRes : Z) (a a' : Utils.Attributes)
    (w h : Z) :
  Screen.resolveGeometry horizontalRes verticalRes a = Some (w, h, a') →
  Screen.resolveGeometry horizontalRes verticalRes a' = Some (w, h, a').
Proof.
  destruct a as [custom ty [m w0 h0 p b0] gr].
  unfold Screen.resolveGeometry. cbn [Utils.geometry Utils.mode Utils.percentSize
    Utils.width Utils.height Utils.boundary Utils.isCustom Utils.type Utils.data_graph].
  intros E. destruct m; cbn [mbind option_bind] in E.
  - injection E as <- <- <-. by destruct custom.
  - destruct (Math.areaScaling p (int16 horizontalRes)) as [w1|] eqn:Ew;
      [|discriminate E].
    cbn [mbind option_bind] in E.
    destruct (Math.areaScaling p (int16 verticalRes)) as [h1|] eqn:Eh;
      [|discriminate E].
    cbn [mbind option_bind] in E. injection E as <- <- <-.
    destruct custom;
      cbn [Utils.geometry Utils.mode Utils.percentSize Utils.width Utils.height
           Utils.boundary Utils.isCustom Utils.type Utils.data_graph];
      rewrite Ew; cbn [mbind option_bind]; rewrite Eh; reflexivity.
  - destruct (Math.dimensionScaling p (int16 horizontalRes)) as [w1|] eqn:Ew;
      [|discriminate E].
    cbn [mbind option_bind] in E.
    destruct (Math.dimensionScaling p (int16 verticalRes)) as [h1|] eqn:Eh;
      [|discriminate E].
    cbn [mbind option_bind] in E. injection E as <- <- <-.
    destruct custom;
      cbn [Utils.geometry Utils.mode Utils.percentSize Utils.width Utils.height
           Utils.boundary Utils.isCustom Utils.type Utils.data_graph];
      rewrite Ew; cbn [mbind option_bind]; rewrite Eh; reflexivity.
Qed.

(** X21.  The geometry step is idempotent and touches only the size and the
    boundary: resolving a resolved record gives the same size and the same
    record; the sizing mode, the percentage, the type, the custom flag and
    the payload are kept, the record holds the size that the step returns,
    and the boundary of a record that is not custom is kept. *)
Theorem resolveGeometry_idempotent (horizontalRes verticalRes : Z)
    (a a' : Utils.Attributes) (w h : Z) :
  Screen.resolveGeometry horizontalRes verticalRes a = Some (w, h, a') →
  Screen.resolveGeometry horizontalRes verticalRes a' = Some (w, h, a') ∧
  Utils.width (Utils.geometry a') = w ∧ Utils.height (Utils.geometry a') = h ∧
  Utils.mode (Utils.geometry a') = Utils.mode (Utils.geometry a) ∧
  Utils.percentSize (Utils.geometry a') = Utils.percentSize (Utils.geometry a) ∧
  Utils.type a' = Utils.type a ∧ Utils.isCustom a' = Utils.isCustom a ∧
  Utils.data_graph a' = Utils.data_graph a ∧
  (Utils.isCustom a = false →
   Utils.boundary (Utils.geometry a') = Utils.boundary (Utils.geometry a)).
Proof.
  intros E. split; [by apply (resolveGeometry_fixed _ _ a)|].
  destruct a as [custom ty [m w0 h0 p b0] gr].
  unfold Screen.resolveGeometry in E.
  cbn [Utils.geometry Utils.mode Utils.percentSize Utils.width Utils.height
       Utils.boundary Utils.isCustom Utils.type Utils.data_graph] in *.
  destruct m; cbn [mbind option_bind] in E.
  - injection E as <- <- <-. by destruct custom.
  - destruct (Math.areaScaling p (int16 horizontalRes)) as [w1|]; [|discriminate E].
    cbn [mbind option_bind] in E.
    destruct (Math.areaScaling p (int16 verticalRes)) as [h1|]; [|discriminate E].
    cbn [mbind option_bind] in E. injection E as <- <- <-. by destruct custom.
  - destruct (Math.dimensionScaling p (int16 horizontalRes)) as [w1|]; [|discriminate E].
    cbn [mbind option_bind] in E.
    destruct (Math.dimensionScaling p (int16 verticalRes)) as [h1|]; [|discriminate E].
    cbn [mbind option_bind] in E. injection E as <- <- <-. by destruct custom.
Qed.

(** The loop of [setRegistry] leaves a resolved record as it is. *)
Lemma setRegistry_loop_keeps (horizontalRes verticalRes : Z)
    (entries : list (HashTable.Entry Utils.WidgetType (option addr)))
    (attributes attributes' : gmap addr Utils.Attributes) (flag : bool)
    (p : addr) (a : Utils.Attributes) (w h : Z) :
  Screen.setRegistry_loop horizontalRes verticalRes entries attributes
    = Some (flag, attributes') →
  attributes !! p = Some a →
  Screen.resolveGeometry horizontalRes verticalRes a = Some (w, h, a) →
  attributes' !! p = Some a.
Proof.
  revert attributes. induction entries as [|entry entries IH];
    intros attributes E Hp Hfix; simpl in E.
  { by injection E as <- <-. }
  destruct (HashTable.value entry) as [q|]; [|by injection E as <- <-].
  destruct (attributes !! q) as [aq|] eqn:Hq; [|discriminate E].
  cbn [mbind option_bind] in E.
  destruct (Screen.resolveGeometry horizontalRes verticalRes aq)
    as [[[wq hq] aq']|] eqn:Er; [|discriminate E].
  cbn [mbind option_bind] in E.
  apply (IH _ E); [|done].
  destruct (decide (q = p)) as [->|Hne].
  - rewrite Hq in Hp. injection Hp as ->. rewrite Hfix in Er.
    injection Er as <- <- <-. by rewrite lookup_insert_eq.
  - by rewrite lookup_insert_ne.
Qed.

(** What a defined run of the loop of [setRegistry] gives: the flag is set
    exactly when some entry holds a null record; no record is added or
    dropped; a run without error leaves every entry with a resolved record;
    and a second run changes nothing. *)
Lemma setRegistry_loop_result (horizontalRes verticalRes : Z)
    (entries : list (HashTable.Entry Utils.WidgetType (option addr)))
    (attributes attributes' : gmap addr Utils.Attributes) (flag : bool) :
  Screen.setRegistry_loop horizontalRes verticalRes entries attributes
    = Some (flag, attributes') →
  (flag = true ↔ Exists (λ entry, HashTable.value entry = None) entries) ∧
  (∀ p, is_Some (attributes' !! p) ↔ is_Some (attributes !! p)) ∧
  (flag = false →
   ∀ entry, entry ∈ entries →
     ∃ p a w h,
       HashTable.value entry = Some p ∧ attributes' !! p = Some a ∧
       Screen.resolveGeometry horizontalRes verticalRes a = Some (w, h, a)) ∧
  Screen.setRegistry_loop horizontalRes verticalRes entries attributes'
    = Some (flag, attributes').
Proof.
  revert attributes. induction entries as [|entry entries IH];
    intros attributes E; simpl in E.
  { injection E as <- <-. split; [|split; [done|split; [|done]]].
    - split; [done|]. by intros ?%Exists_nil.
    - intros _ entry Hin. by apply elem_of_nil in Hin. }
  simpl. destruct (HashTable.value entry) as [q|] eqn:Hv.
  2:{ injection E as <- <-. split; [|split; [done|split; [done|done]]].
      split; [intros _|done]. by apply Exists_cons_hd. }
  destruct (attributes !! q) as [aq|] eqn:Hq; [|discriminate E].
  cbn [mbind option_bind] in E.
  destruct (Screen.resolveGeometry horizontalRes verticalRes aq)
    as [[[wq hq] aq']|] eqn:Er; [|discriminate E].
  cbn [mbind option_bind] in E.
  destruct (IH _ E) as (Hflag & Hdom & Hres & Hagain).
  pose proof (resolveGeometry_fixed _ _ _ _ _ _ Er) as Hfix.
  assert (attributes' !! q = Some aq') as Hq'.
  { apply (setRegistry_loop_keeps _ _ _ _ _ _ q aq' wq hq E); [|done].
    by rewrite lookup_insert_eq. }
  split; [|split; [|split]].
  - rewrite Hflag. split; [by apply Exists_cons_tl|].
    intros [Hnull|Hex]%Exists_cons; [congruence|done].
  - intros p. rewrite Hdom. destruct (decide (q = p)) as [->|Hne].
    + rewrite lookup_insert_eq, Hq. split; by eexists.
    + by rewrite lookup_insert_ne.
  - intros Hf entry' [->|Hin]%elem_of_cons; [|by apply Hres].
    exists q, aq', wq, hq. by rewrite Hv.
  - rewrite Hq'. cbn [mbind option_bind]. rewrite Hfix. cbn [mbind option_bind].
    by rewrite insert_id.
Qed.

(** X22.  A defined run of [setRegistry] ends in [WIDGETS_REGISTERED] when
    no entry of the registry holds a null record and in
    [ERROR_REGISTRATION] otherwise.  It changes nothing but records: no
    record is added or dropped, and the registry, the pool and the widgets
    are as before.  After a run without error the record of every entry is
    resolved, and a second run, on the screen and the stores that the first
    one left, changes nothing. *)
Theorem setRegistry_outcome (horizontalRes verticalRes : Z)
    (s s' : Screen.t) (w w' : World) :
  Screen.setRegistry horizontalRes verticalRes s w = Some (s', w') →
  let entries := HashTable.iterate (registry w) in
  (Screen.state s' = Screen.WIDGETS_REGISTERED ↔
   Forall (λ entry, is_Some (HashTable.value entry)) entries) ∧
  (Screen.state s' = Screen.ERROR_REGISTRATION ↔
   Exists (λ entry, HashTable.value entry = None) entries) ∧
  (∀ p, is_Some (attributes w' !! p) ↔ is_Some (attributes w !! p)) ∧
  registry w' = registry w ∧ pool w' = pool w ∧ widgets w' = widgets w ∧
  (Screen.state s' = Screen.WIDGETS_REGISTERED →
   ∀ entry, entry ∈ entries →
     ∃ p a width height,
       HashTable.value entry = Some p ∧ attributes w' !! p = Some a ∧
       Screen.resolveGeometry horizontalRes verticalRes a = Some (width, height, a)) ∧
  Screen.setRegistry horizontalRes verticalRes s' w' = Some (s', w').
Proof.
  intros E entries. unfold Screen.setRegistry in *.
  destruct (Screen.widgetRegistry s) eqn:Hr; [discriminate E|].
  destruct (Screen.setRegistry_loop horizontalRes verticalRes
              (HashTable.iterate (registry w)) (attributes w))
    as [[flag attributes']|] eqn:Eloop; [|discriminate E].
  cbn [mbind option_bind] in E. injection E as <- <-.
  destruct (setRegistry_loop_result _ _ _ _ _ _ Eloop) as (Hflag & Hdom & Hres & Hagain).
  fold entries in Hflag, Hres, Hagain.
  cbn [Screen.set_state Screen.state Screen.widgetRegistry registry pool
       attributes widgets].
  assert (flag = false ↔ Forall (λ entry, is_Some (HashTable.value entry)) entries)
    as Hok.
  { split.
    - intros ->. apply Forall_forall. intros entry Hin.
      destruct (HashTable.value entry) eqn:Hv; [by eexists|].
      assert (false = true) as Hf; [|discriminate Hf].
      apply Hflag, Exists_exists. by exists entry.
    - intros Hall. destruct flag; [|done].
      apply proj1 in Hflag. specialize (Hflag eq_refl).
      apply Exists_exists in Hflag as (entry & Hin & Hnull).
      rewrite Forall_forall in Hall. destruct (Hall entry Hin) as [p Hp]. congruence. }
  split; [|split; [|split; [done|split; [done|split; [done|split; [done|split]]]]]].
  - rewrite <- Hok. by destruct flag.
  - rewrite <- Hflag. by destruct flag.
  - intros Hst. apply Hres. by destruct flag.
  - rewrite Hr. fold entries. rewrite Hagain. cbn [mbind option_bind].
    by destruct flag.
Qed.

(** The loop of [setWidgets] keeps every widget, its callback and its grid,
    and never clears an LVGL pointer. *)
Lemma setWidgets_loop_keeps (createWidget : Utils.WidgetType → option nat)
    (widgetRegistry : Service) (registry : PointerTable)
    (attributes : gmap addr Utils.Attributes)
    (entries : list (HashTable.Entry Utils.WidgetType (option addr)))
    (widgets widgets' : gmap addr Widget.t) (flag : bool)
    (p : addr) (widget : Widget.t) :
  Screen.setWidgets_loop createWidget widgetRegistry registry attributes entries widgets
    = Some (flag, widgets') →
  widgets !! p = Some widget →
  ∃ widget',
    widgets' !! p = Some widget' ∧
    Widget.getCallback widget' = Widget.getCallback widget ∧
    Widget.graticules widget' = Widget.graticules widget ∧
    (is_Some (Widget.getLVGL widget) → is_Some (Widget.getLVGL widget')).
Proof.
  revert widgets widget. induction entries as [|entry entries IH];
    intros widgets widget E Hp; simpl in E.
  { injection E as <- <-. by exists widget. }
  destruct (createWidget (HashTable.key entry)) as [thisWidget|].
  2:{ injection E as <- <-. by exists widget. }
  destruct (HashTable.value entry) as [q|]; [|discriminate E].
  cbn [mbind option_bind] in E.
  destruct (widgets !! q) as [wq|] eqn:Hq; [|discriminate E].
  cbn [mbind option_bind] in E.
  destruct widgetRegistry; [discriminate E|].
  assert (∃ widget1,
            <[q := Widget.setLVGL (Some thisWidget) wq]> widgets !! p = Some widget1 ∧
            Widget.getCallback widget1 = Widget.getCallback widget ∧
            Widget.graticules widget1 = Widget.graticules widget ∧
            (is_Some (Widget.getLVGL widget) → is_Some (Widget.getLVGL widget1)))
    as (widget1 & Hp1 & Hc1 & Hg1 & Hl1).
  { destruct (decide (q = p)) as [->|Hne].
    - rewrite Hq in Hp. injection Hp as ->. rewrite lookup_insert_eq.
      eexists. split; [done|]. split; [done|]. split; [done|]. intros _. by eexists.
    - rewrite lookup_insert_ne by done. by exists widget. }
  destruct (WidgetRegistry.getAttribute (HashTable.key entry) registry) as [pa|].
  2:{ injection E as <- <-. by exists widget1. }
  destruct (attributes !! pa); [|discriminate E].
  cbn [mbind option_bind] in E.
  destruct (IH _ widget1 E Hp1) as (widget' & Hp' & Hc' & Hg' & Hl').
  exists widget'. split; [done|]. split; [congruence|]. split; [congruence|]. auto.
Qed.

(** What a defined run of the loop of [setWidgets] gives: the flag is set
    exactly when the rendering library refuses an object or the registry
    has no record for the type of some entry; a run without error leaves
    every entry with a live widget that has its LVGL object. *)
Lemma setWidgets_loop_result (createWidget : Utils.WidgetType → option nat)
    (widgetRegistry : Service) (registry : PointerTable)
    (attributes : gmap addr Utils.Attributes)
    (entries : list (HashTable.Entry Utils.WidgetType (option addr)))
    (widgets widgets' : gmap addr Widget.t) (flag : bool) :
  Screen.setWidgets_loop createWidget widgetRegistry registry attributes entries widgets
    = Some (flag, widgets') →
  (flag = true ↔
   Exists (λ entry, createWidget (HashTable.key entry) = None ∨
                    WidgetRegistry.getAttribute (HashTable.key entry) registry = None)
     entries) ∧
  (flag = false →
   ∀ entry, entry ∈ entries →
     ∃ p widget,
       HashTable.value entry = Some p ∧ widgets' !! p = Some widget ∧
       is_Some (Widget.getLVGL widget)).
Proof.
  revert widgets. induction entries as [|entry entries IH]; intros widgets E.
  { simpl in E. injection E as <- <-. split.
    - split; [done|]. by intros ?%Exists_nil.
    - intros _ entry Hin. by apply elem_of_nil in Hin. }
  pose proof E as E0. simpl in E.
  destruct (createWidget (HashTable.key entry)) as [thisWidget|] eqn:Hc.
  2:{ injection E as <- <-. split; [|done]. split; [intros _|done].
      apply Exists_cons_hd. by left. }
  destruct (HashTable.value entry) as [q|] eqn:Hv; [|discriminate E].
  cbn [mbind option_bind] in E.
  destruct (widgets !! q) as [wq|] eqn:Hq; [|discriminate E].
  cbn [mbind option_bind] in E.
  destruct widgetRegistry; [discriminate E|].
  destruct (WidgetRegistry.getAttribute (HashTable.key entry) registry) as [pa|] eqn:Ha.
  2:{ injection E as <- <-. split; [|done]. split; [intros _|done].
      apply Exists_cons_hd. by right. }
  destruct (attributes !! pa); [|discriminate E].
  cbn [mbind option_bind] in E.
  destruct (IH _ E) as (Hflag & Hres).
  split.
  - rewrite Hflag. split; [by apply Exists_cons_tl|].
    intros [[Hn|Hn]|Hex]%Exists_cons; [congruence|congruence|done].
  - intros Hf entry' [->|Hin]%elem_of_cons; [|by apply Hres].
    destruct (setWidgets_loop_keeps _ _ _ _ _ _ _ _ q
                (Widget.setLVGL (Some thisWidget) wq) E) as (widget' & Hq' & _ & _ & Hl).
    { by rewrite lookup_insert_eq. }
    exists q, widget'. split; [done|]. split; [done|]. apply Hl. by eexists.
Qed.

Lemma drawWidgets_loop_Some
    (entries : list (HashTable.Entry Utils.WidgetType (option addr)))
    (widgets : gmap addr Widget.t) :
  (∀ entry, entry ∈ entries →
     ∃ p widget, HashTable.value entry = Some p ∧ widgets !! p = Some widget) →
  Screen.drawWidgets_loop entries widgets = Some ().
Proof.
  induction entries as [|entry entries IH]; intros Hlive; simpl; [done|].
  destruct (Hlive entry) as (p & widget & -> & Hp); [left|].
  cbn [mbind option_bind]. rewrite Hp. cbn [mbind option_bind].
  apply IH. intros entry' Hin. apply Hlive. by right.
Qed.

(** X23.  A defined run of [Screen::setWidgets] ends in [ERROR_ATTRIBUTES]
    when the rendering library refuses an object or the registry has no
    record for the type of some pool entry, and in [ATTRIBUTES_SET]
    otherwise.  It changes nothing but LVGL pointers: every widget keeps
    its callback and its grid, and the stores and the records are as
    before.  After a run without error every pool entry points to a live
    widget that has its LVGL object, so that [drawWidgets] is defined and
    ends in [COMPLETE]. *)
Theorem setWidgets_outcome (createWidget : Utils.WidgetType → option nat)
    (s s' : Screen.t) (w w' : World) :
  Screen.setWidgets createWidget s w = Some (s', w') →
  let entries := HashTable.iterate (pool w) in
  (Screen.state s' = Screen.ERROR_ATTRIBUTES ↔
   Exists (λ entry, createWidget (HashTable.key entry) = None ∨
                    WidgetRegistry.getAttribute (HashTable.key entry) (registry w) = None)
     entries) ∧
  (Screen.state s' = Screen.ATTRIBUTES_SET ∨ Screen.state s' = Screen.ERROR_ATTRIBUTES) ∧
  (∀ p widget, widgets w !! p = Some widget →
     ∃ widget', widgets w' !! p = Some widget' ∧
                Widget.getCallback widget' = Widget.getCallback widget ∧
                Widget.graticules widget' = Widget.graticules widget) ∧
  registry w' = registry w ∧ pool w' = pool w ∧ attributes w' = attributes w ∧
  (Screen.state s' = Screen.ATTRIBUTES_SET →
   (∀ entry, entry ∈ entries →
      ∃ p widget,
        HashTable.value entry = Some p ∧ widgets w' !! p = Some widget ∧
        is_Some (Widget.getLVGL widget)) ∧
   Screen.drawWidgets s' w' = Some (Screen.set_state Screen.COMPLETE s')).
Proof.
  intros E entries. unfold Screen.setWidgets in E.
  destruct (Screen.widgetPool s) eqn:Hp; [discriminate E|].
  destruct (Screen.setWidgets_loop createWidget (Screen.widgetRegistry s) (registry w)
              (attributes w) (HashTable.iterate (pool w)) (widgets w))
    as [[flag widgets']|] eqn:Eloop; [|discriminate E].
  cbn [mbind option_bind] in E. injection E as <- <-.
  destruct (setWidgets_loop_result _ _ _ _ _ _ _ _ Eloop) as (Hflag & Hres).
  fold entries in Hflag, Hres.
  cbn [Screen.set_state Screen.state registry pool attributes widgets].
  split; [|split; [|split; [|split; [done|split; [done|split; [done|]]]]]].
  - rewrite <- Hflag. by destruct flag.
  - destruct flag; [by right|by left].
  - intros p widget Hw.
    destruct (setWidgets_loop_keeps _ _ _ _ _ _ _ _ p widget Eloop Hw)
      as (widget' & Hw' & Hc & Hg & _).
    by exists widget'.
  - intros Hst. assert (flag = false) as Hf by (by destruct flag).
    split; [by apply Hres|].
    unfold Screen.drawWidgets. cbn [Screen.widgetPool Screen.set_state pool widgets].
    rewrite Hp. fold entries. rewrite drawWidgets_loop_Some; [by destruct flag|].
    intros entry Hin. destruct (Hres Hf entry Hin) as (p & widget & Hv & Hw & _).
    by exists p, widget.
Qed.

(** The states that [setRegistry] and [setWidgets] leave. *)
Lemma setRegistry_state (horizontalRes verticalRes : Z) (s s' : Screen.t) (w w' : World) :
  Screen.setRegistry horizontalRes verticalRes s w = Some (s', w') →
  Screen.state s' = Screen.WIDGETS_REGISTERED ∨
  Screen.state s' = Screen.ERROR_REGISTRATION.
Proof.
  unfold Screen.setRegistry. intros E.
  destruct (Screen.widgetRegistry s); [discriminate E|].
  destruct (Screen.setRegistry_loop _ _ _ _) as [[[] ?]|]; [| |discriminate E];
    cbn [mbind option_bind] in E; injection E as <- <-; [by right|by left].
Qed.

Lemma setWidgets_state (createWidget : Utils.WidgetType → option nat)
    (s s' : Screen.t) (w w' : World) :
  Screen.setWidgets createWidget s w = Some (s', w') →
  Screen.state s' = Screen.ATTRIBUTES_SET ∨ Screen.state s' = Screen.ERROR_ATTRIBUTES.
Proof.
  unfold Screen.setWidgets. intros E.
  destruct (Screen.widgetPool s); [discriminate E|].
  destruct (Screen.setWidgets_loop _ _ _ _ _ _) as [[[] ?]|]; [| |discriminate E];
    cbn [mbind option_bind] in E; injection E as <- <-; [by right|by left].
Qed.

(** More iterations than the state of the screen calls for change nothing
    in [setScreen]. *)
Lemma setScreen_fuel (horizontalRes verticalRes : Z)
    (createWidget : Utils.WidgetType → option nat)
    (widgetRegistry widgetPool : Service) (n fuel : nat) (screen : Screen.t) (w : World) :
  (match Screen.state screen with
   | Screen.UNINITIALIZED => 4
   | Screen.SERVICES_SET => 3
   | Screen.WIDGETS_REGISTERED => 2
   | _ => 1
   end ≤ n)%nat →
  Main.setScreen horizontalRes verticalRes createWidget (n + fuel)
    widgetRegistry widgetPool screen w
  = Main.setScreen horizontalRes verticalRes createWidget n
      widgetRegistry widgetPool screen w.
Proof.
  revert screen w. induction n as [|n IH]; intros screen w Hn.
  { destruct (Screen.state screen); lia. }
  cbn [Nat.add Main.setScreen].
  destruct (Screen.state screen) eqn:Hst; try reflexivity.
  - apply IH. destruct widgetRegistry, widgetPool; simpl; lia.
  - destruct (Screen.setRegistry horizontalRes verticalRes screen w)
      as [[s1 w1]|] eqn:E; [|reflexivity].
    cbn [mbind option_bind]. apply IH.
    destruct (setRegistry_state _ _ _ _ _ _ E) as [-> | ->]; lia.
  - destruct (Screen.setWidgets createWidget screen w) as [[s1 w1]|] eqn:E; [|reflexivity].
    cbn [mbind option_bind]. apply IH.
    destruct (setWidgets_state _ _ _ _ _ E) as [-> | ->]; lia.
Qed.

(** X24.  The loop of [setScreen] ends within four iterations, whatever the
    state it starts from, and returns a result unless the call of
    [setRegistry] or of [setWidgets] that it makes is undefined: with four
    or more iterations it computes what the straight-line sequence
    [setServices], [setRegistry], [setWidgets] computes, which stops at the
    first state that is not the next one of the sequence, and the flag is
    true exactly when that state is [ATTRIBUTES_SET].  More iterations
    change nothing.  When [setScreen] returns, the screen is never left in
    [UNINITIALIZED], [SERVICES_SET] or [WIDGETS_REGISTERED]; and a screen
    that is left in [COMPLETE] was in [COMPLETE] before, in which case
    nothing was done and the flag is false. *)
Theorem setScreen_bounded (horizontalRes verticalRes : Z)
    (createWidget : Utils.WidgetType → option nat)
    (widgetRegistry widgetPool : Service) (screen : Screen.t) (w : World) :
  let finish (s : Screen.t) (w : World) :=
    Some (bool_decide (Screen.state s = Screen.ATTRIBUTES_SET), s, w) in
  let widgets_step (s : Screen.t) (w : World) :=
    '(s', w') ← Screen.setWidgets createWidget s w; finish s' w' in
  let registry_step (s : Screen.t) (w : World) :=
    '(s', w') ← Screen.setRegistry horizontalRes verticalRes s w;
    if bool_decide (Screen.state s' = Screen.WIDGETS_REGISTERED)
    then widgets_step s' w' else finish s' w' in
  (∀ fuel,
     Main.setScreen horizontalRes verticalRes createWidget (4 + fuel)
       widgetRegistry widgetPool screen w
     = match Screen.state screen with
       | Screen.UNINITIALIZED =>
           let screen0 := Screen.setServices widgetRegistry widgetPool screen in
           if both widgetRegistry widgetPool
           then registry_step screen0 w else finish screen0 w
       | Screen.SERVICES_SET => registry_step screen w
       | Screen.WIDGETS_REGISTERED => widgets_step screen w
       | _ => finish screen w
       end) ∧
  (∀ fuel,
     Main.setScreen horizontalRes verticalRes createWidget (4 + fuel)
       widgetRegistry widgetPool screen w
     = Main.setScreen horizontalRes verticalRes createWidget 4
         widgetRegistry widgetPool screen w) ∧
  (∀ fuel ok screen' w',
     Main.setScreen horizontalRes verticalRes createWidget fuel
       widgetRegistry widgetPool screen w = Some (ok, screen', w') →
     (ok = true ↔ Screen.state screen' = Screen.ATTRIBUTES_SET) ∧
     Screen.state screen' ≠ Screen.UNINITIALIZED ∧
     Screen.state screen' ≠ Screen.SERVICES_SET ∧
     Screen.state screen' ≠ Screen.WIDGETS_REGISTERED ∧
     (Screen.state screen' = Screen.COMPLETE →
      screen' = screen ∧ w' = w ∧ ok = false)).
Proof.
  intros finish widgets_step registry_step.
  assert (∀ n s w0,
            Screen.state s ≠ Screen.UNINITIALIZED →
            Screen.state s ≠ Screen.SERVICES_SET →
            Screen.state s ≠ Screen.WIDGETS_REGISTERED →
            Main.setScreen horizontalRes verticalRes createWidget (S n)
              widgetRegistry widgetPool s w0 = finish s w0) as Hfinish.
  { intros n s w0 H1 H2 H3. cbn [Main.setScreen]. unfold finish.
    destruct (Screen.state s); try done. }
  assert (∀ n s w0,
            Screen.state s = Screen.WIDGETS_REGISTERED →
            Main.setScreen horizontalRes verticalRes createWidget (S (S n))
              widgetRegistry widgetPool s w0 = widgets_step s w0) as Hwidgets.
  { intros n s w0 Hst. cbn [Main.setScreen]. rewrite Hst. unfold widgets_step.
    destruct (Screen.setWidgets createWidget s w0) as [[s1 w1]|] eqn:E; [|reflexivity].
    cbn [mbind option_bind]. apply Hfinish;
      destruct (setWidgets_state _ _ _ _ _ E) as [Hs | Hs]; rewrite Hs; discriminate. }
  assert (∀ n s w0,
            Screen.state s = Screen.SERVICES_SET →
            Main.setScreen horizontalRes verticalRes createWidget (S (S (S n)))
              widgetRegistry widgetPool s w0 = registry_step s w0) as Hregistry.
  { intros n s w0 Hst. remember (S (S n)) as m eqn:Hm. cbn [Main.setScreen].
    rewrite Hst. unfold registry_step.
    destruct (Screen.setRegistry horizontalRes verticalRes s w0) as [[s1 w1]|] eqn:E;
      [|reflexivity].
    cbn [mbind option_bind]. subst m.
    destruct (setRegistry_state _ _ _ _ _ _ E) as [Hs | Hs].
    - rewrite bool_decide_eq_true_2 by done. by apply Hwidgets.
    - rewrite bool_decide_eq_false_2 by (rewrite Hs; discriminate).
      apply Hfinish; rewrite Hs; discriminate. }
  split; [|split].
  - intros fuel. change (4 + fuel)%nat with (S (S (S (S fuel)))).
    destruct (Screen.state screen) eqn:Hst;
      try (apply Hfinish; rewrite Hst; discriminate).
    + remember (S (S (S fuel))) as m eqn:Hm. cbn [Main.setScreen]. rewrite Hst. subst m.
      destruct widgetRegistry, widgetPool; cbn [both];
        try (apply Hfinish; discriminate).
      by apply Hregistry.
    + by apply Hregistry.
    + by apply Hwidgets.
  - intros fuel. apply setScreen_fuel. destruct (Screen.state screen); lia.
  - intros fuel. clear Hfinish Hwidgets Hregistry. revert screen w.
    induction fuel as [|fuel IH];
      intros screen w ok screen' w' E; [discriminate E|].
    cbn [Main.setScreen] in E.
    destruct (Screen.state screen) eqn:Hst.
    + destruct (IH _ _ _ _ _ E) as (H1 & H2 & H3 & H4 & H5).
      split; [done|]. split; [done|]. split; [done|]. split; [done|].
      intros Hc. destruct (H5 Hc) as (-> & _ & _). exfalso.
      revert Hc. destruct widgetRegistry, widgetPool; discriminate.
    + destruct (Screen.setRegistry horizontalRes verticalRes screen w)
        as [[s1 w1]|] eqn:Er; [|discriminate E].
      cbn [mbind option_bind] in E.
      destruct (IH _ _ _ _ _ E) as (H1 & H2 & H3 & H4 & H5).
      split; [done|]. split; [done|]. split; [done|]. split; [done|].
      intros Hc. destruct (H5 Hc) as (-> & _ & _). exfalso.
      destruct (setRegistry_state _ _ _ _ _ _ Er); congruence.
    + injection E as <- <- <-. rewrite Hst. repeat split; try discriminate.
    + destruct (Screen.setWidgets createWidget screen w) as [[s1 w1]|] eqn:Ew;
        [|discriminate E].
      cbn [mbind option_bind] in E.
      destruct (IH _ _ _ _ _ E) as (H1 & H2 & H3 & H4 & H5).
      split; [done|]. split; [done|]. split; [done|]. split; [done|].
      intros Hc. destruct (H5 Hc) as (-> & _ & _). exfalso.
      destruct (setWidgets_state _ _ _ _ _ Ew); congruence.
    + injection E as <- <- <-. rewrite Hst. repeat split; try discriminate.
    + injection E as <- <- <-. rewrite Hst. repeat split; try discriminate.
    + injection E as <- <- <-. rewrite Hst. repeat split; try discriminate.
    + injection E as <- <- <-. rewrite Hst. repeat split; try discriminate.
Qed.

(** More iterations than the state of the builder calls for change nothing
    in [setBuilder]. *)
Lemma setBuilder_fuel (widgetRegistry widgetPool : Service) (n fuel : nat)
    (builder : WidgetBuilder.t) (w : World) :
  (match WidgetBuilder.state builder with
   | WidgetBuilder.UNINITIALIZED => 3
   | WidgetBuilder.SERVICES_SET => 2
   | _ => 1
   end ≤ n)%nat →
  Main.setBuilder (n + fuel) widgetRegistry widgetPool builder w
  = Main.setBuilder n widgetRegistry widgetPool builder w.
Proof.
  revert builder w. induction n as [|n IH]; intros builder w Hn.
  { destruct (WidgetBuilder.state builder); lia. }
  cbn [Nat.add Main.setBuilder].
  destruct (WidgetBuilder.state builder) eqn:Hst; try reflexivity.
  - apply IH. destruct widgetRegistry, widgetPool; simpl; lia.
  - destruct (WidgetBuilder.setWidgets 3 builder w) as [[b1 w1]|] eqn:E; [|reflexivity].
    cbn [mbind option_bind]. apply IH.
    destruct (WidgetBuilderFacts.builder_setWidgets_state _ _ _ _ _ E) as [-> | ->]; lia.
Qed.

(** X25.  The loops of the builder end within three iterations, whatever
    the state they start from, and return a result unless the call of
    [setAttribute] that they make is undefined.  With three or more
    iterations [WidgetBuilder::setWidgets] computes [setAttribute] from
    [SERVICES_SET] and from [BUILDING], leaves [COMPLETE] and
    [ERROR_BUILDING] as they are and turns the other states into
    [ERROR_BUILDING]; since [setAttribute] ends in [COMPLETE] or in
    [ERROR_BUILDING], so does [setWidgets].  With three or more iterations
    [setBuilder] computes the straight-line sequence [setServices],
    [setWidgets], and its flag is true exactly when the builder is left in
    [COMPLETE]; it never leaves the builder in [UNINITIALIZED] or
    [SERVICES_SET].  More iterations change nothing. *)
Theorem setBuilder_bounded (widgetRegistry widgetPool : Service)
    (builder : WidgetBuilder.t) (w : World) :
  let finish (b : WidgetBuilder.t) (w : World) :=
    Some (bool_decide (WidgetBuilder.state b = WidgetBuilder.COMPLETE), b, w) in
  let widgets_step (b : WidgetBuilder.t) (w : World) :=
    '(b', w') ← WidgetBuilder.setWidgets 3 b w; finish b' w' in
  (∀ fuel,
     WidgetBuilder.setWidgets (3 + fuel) builder w
     = match WidgetBuilder.state builder with
       | WidgetBuilder.SERVICES_SET =>
           WidgetBuilder.setAttribute
             (WidgetBuilder.set_state WidgetBuilder.BUILDING builder) w
       | WidgetBuilder.BUILDING => WidgetBuilder.setAttribute builder w
       | WidgetBuilder.COMPLETE | WidgetBuilder.ERROR_BUILDING => Some (builder, w)
       | WidgetBuilder.UNINITIALIZED | WidgetBuilder.ERROR_SERVICES =>
           Some (WidgetBuilder.set_state WidgetBuilder.ERROR_BUILDING builder, w)
       end) ∧
  (∀ builder' w',
     WidgetBuilder.setAttribute builder w = Some (builder', w') →
     WidgetBuilder.state builder' = WidgetBuilder.COMPLETE ∨
     WidgetBuilder.state builder' = WidgetBuilder.ERROR_BUILDING) ∧
  (∀ fuel,
     Main.setBuilder (3 + fuel) widgetRegistry widgetPool builder w
     = match WidgetBuilder.state builder with
       | WidgetBuilder.UNINITIALIZED =>
           let builder0 := WidgetBuilder.setServices widgetRegistry widgetPool builder in
           if both widgetRegistry widgetPool
           then widgets_step builder0 w else finish builder0 w
       | WidgetBuilder.SERVICES_SET => widgets_step builder w
       | _ => finish builder w
       end) ∧
  (∀ fuel,
     WidgetBuilder.setWidgets (3 + fuel) builder w = WidgetBuilder.setWidgets 3 builder w) ∧
  (∀ fuel,
     Main.setBuilder (3 + fuel) widgetRegistry widgetPool builder w
     = Main.setBuilder 3 widgetRegistry widgetPool builder w) ∧
  (∀ fuel builder' w',
     WidgetBuilder.setWidgets fuel builder w = Some (builder', w') →
     (WidgetBuilder.state builder' = WidgetBuilder.COMPLETE ∨
      WidgetBuilder.state builder' = WidgetBuilder.ERROR_BUILDING) ∧
     (WidgetBuilder.state builder = WidgetBuilder.COMPLETE →
      builder' = builder ∧ w' = w)) ∧
  (∀ fuel ok builder' w',
     Main.setBuilder fuel widgetRegistry widgetPool builder w = Some (ok, builder', w') →
     (ok = true ↔ WidgetBuilder.state builder' = WidgetBuilder.COMPLETE) ∧
     WidgetBuilder.state builder' ≠ WidgetBuilder.UNINITIALIZED ∧
     WidgetBuilder.state builder' ≠ WidgetBuilder.SERVICES_SET).
Proof.
  intros finish widgets_step.
  assert (∀ n b w0,
            WidgetBuilder.state b = WidgetBuilder.BUILDING →
            WidgetBuilder.setWidgets (S (S n)) b w0 = WidgetBuilder.setAttribute b w0)
    as Hbuilding.
  { intros n b w0 Hst. cbn [WidgetBuilder.setWidgets]. rewrite Hst.
    destruct (WidgetBuilder.setAttribute b w0) as [[b1 w1]|] eqn:E; [|reflexivity].
    cbn [mbind option_bind].
    destruct (WidgetBuilderFacts.setAttribute_state _ _ _ _ E) as [Hs | Hs];
      by rewrite Hs. }
  assert (∀ n b w0,
            WidgetBuilder.state b ≠ WidgetBuilder.UNINITIALIZED →
            WidgetBuilder.state b ≠ WidgetBuilder.SERVICES_SET →
            Main.setBuilder (S n) widgetRegistry widgetPool b w0 = finish b w0)
    as Hfinish.
  { intros n b w0 H1 H2. cbn [Main.setBuilder]. unfold finish.
    destruct (WidgetBuilder.state b); try done. }
  assert (∀ n b w0,
            WidgetBuilder.state b = WidgetBuilder.SERVICES_SET →
            Main.setBuilder (S (S n)) widgetRegistry widgetPool b w0 = widgets_step b w0)
    as Hwidgets.
  { intros n b w0 Hst. cbn [Main.setBuilder]. rewrite Hst. unfold widgets_step.
    destruct (WidgetBuilder.setWidgets 3 b w0) as [[b1 w1]|] eqn:E; [|reflexivity].
    cbn [mbind option_bind]. apply Hfinish;
      destruct (WidgetBuilderFacts.builder_setWidgets_state _ _ _ _ _ E) as [Hs | Hs];
      rewrite Hs; discriminate. }
  split; [|split; [|split; [|split; [|split; [|split]]]]].
  - intros fuel. change (3 + fuel)%nat with (S (S (S fuel))).
    destruct (WidgetBuilder.state builder) eqn:Hst.
    + cbn [WidgetBuilder.setWidgets]. by rewrite Hst.
    + remember (S (S fuel)) as m eqn:Hm. cbn [WidgetBuilder.setWidgets]. rewrite Hst.
      subst m. by apply Hbuilding.
    + cbn [WidgetBuilder.setWidgets]. by rewrite Hst.
    + by apply Hbuilding.
    + cbn [WidgetBuilder.setWidgets]. by rewrite Hst.
    + cbn [WidgetBuilder.setWidgets]. by rewrite Hst.
  - intros builder' w' E. apply (WidgetBuilderFacts.setAttribute_state _ _ _ _ E).
  - intros fuel. change (3 + fuel)%nat with (S (S (S fuel))).
    destruct (WidgetBuilder.state builder) eqn:Hst;
      try (apply Hfinish; rewrite Hst; discriminate).
    + remember (S (S fuel)) as m eqn:Hm. cbn [Main.setBuilder]. rewrite Hst. subst m.
      destruct widgetRegistry, widgetPool; cbn [both];
        try (apply Hfinish; discriminate).
      by apply Hwidgets.
    + by apply Hwidgets.
  - intros fuel. apply WidgetBuilderFacts.setWidgets_fuel.
    destruct (WidgetBuilder.state builder); lia.
  - intros fuel. apply setBuilder_fuel. destruct (WidgetBuilder.state builder); lia.
  - intros fuel builder' w' E.
    split; [by apply (WidgetBuilderFacts.builder_setWidgets_state _ _ _ _ _ E)|].
    intros Hc. destruct fuel as [|fuel]; [discriminate E|].
    cbn [WidgetBuilder.setWidgets] in E. rewrite Hc in E. by injection E as <- <-.
  - intros fuel. clear Hbuilding Hfinish Hwidgets. revert builder w.
    induction fuel as [|fuel IH];
      intros builder w ok builder' w' E; [discriminate E|].
    cbn [Main.setBuilder] in E.
    destruct (WidgetBuilder.state builder) eqn:Hst.
    + by apply (IH _ _ _ _ _ E).
    + destruct (WidgetBuilder.setWidgets 3 builder w) as [[b1 w1]|]; [|discriminate E].
      cbn [mbind option_bind] in E. by apply (IH _ _ _ _ _ E).
    + injection E as <- <- <-. rewrite Hst. repeat split; discriminate.
    + injection E as <- <- <-. rewrite Hst. repeat split; discriminate.
    + injection E as <- <- <-. rewrite Hst. repeat split; discriminate.
    + injection E as <- <- <-. rewrite Hst. repeat split; try discriminate.
Qed.

(** ** The further properties at the stores of the firmware *)

(** X21 at the record of the grid. *)
Lemma resolveGeometry_idempotent_graticules :
  ∃ a',
    Screen.resolveGeometry Definitions.horizontalRes Definitions.verticalRes
      Definitions.graticules = Some (401, 267, a') ∧
    Screen.resolveGeometry Definitions.horizontalRes Definitions.verticalRes a'
      = Some (401, 267, a').
Proof.
  destruct (Screen.resolveGeometry Definitions.horizontalRes Definitions.verticalRes
              Definitions.graticules) as [[[width height] a']|] eqn:E;
    [|vm_compute in E; discriminate E].
  pose proof E as E'. vm_compute in E'. injection E' as Hw Hh _. subst width height.
  exists a'. split; [reflexivity|].
  apply (proj1 (resolveGeometry_idempotent Definitions.horizontalRes
                  Definitions.verticalRes Definitions.graticules a' 401 267 E)).
Defined.

(** X22 at the stores of the firmware. *)
Lemma setRegistry_outcome_firmware :
  ∃ s' w',
    Screen.setRegistry Definitions.horizontalRes Definitions.verticalRes
      (Screen.setServices instance instance Screen.init) Definitions.world
      = Some (s', w') ∧
    Screen.state s' = Screen.WIDGETS_REGISTERED ∧
    Screen.setRegistry Definitions.horizontalRes Definitions.verticalRes s' w'
      = Some (s', w').
Proof.
  destruct (Screen.setRegistry Definitions.horizontalRes Definitions.verticalRes
              (Screen.setServices instance instance Screen.init) Definitions.world)
    as [[s' w']|] eqn:E; [|vm_compute in E; discriminate E].
  destruct (setRegistry_outcome _ _ _ _ _ _ E) as (Hok & _ & _ & _ & _ & _ & _ & Hagain).
  exists s', w'. split; [reflexivity|]. split; [|exact Hagain].
  apply Hok. apply (bool_decide_unpack _). vm_compute. exact I.
Defined.

(** X23 at the stores of the firmware. *)
Lemma setWidgets_outcome_firmware :
  ∃ s' w',
    Screen.setWidgets Definitions.createWidget
      (Screen.setServices instance instance Screen.init) Definitions.world
      = Some (s', w') ∧
    Screen.state s' = Screen.ATTRIBUTES_SET ∧
    Screen.drawWidgets s' w' = Some (Screen.set_state Screen.COMPLETE s').
Proof.
  destruct (Screen.setWidgets Definitions.createWidget
              (Screen.setServices instance instance Screen.init) Definitions.world)
    as [[s' w']|] eqn:E; [|vm_compute in E; discriminate E].
  destruct (setWidgets_outcome _ _ _ _ _ E) as (Herr & Hst & _ & _ & _ & _ & Hdraw).
  assert (Screen.state s' = Screen.ATTRIBUTES_SET) as Hset.
  { destruct Hst as [Hst|Hst]; [exact Hst|]. exfalso.
    apply Herr in Hst. revert Hst. apply (bool_decide_unpack _). vm_compute. exact I. }
  exists s', w'. split; [reflexivity|]. split; [exact Hset|].
  apply (proj2 (Hdraw Hset)).
Defined.

(** X24 at the stores of the firmware. *)
Lemma setScreen_bounded_firmware :
  ∃ screen' w',
    Main.setScreen Definitions.horizontalRes Definitions.verticalRes
      Definitions.createWidget 4 instance instance Screen.init Definitions.world
      = Some (true, screen', w') ∧
    Screen.state screen' = Screen.ATTRIBUTES_SET.
Proof.
  destruct (Main.setScreen Definitions.horizontalRes Definitions.verticalRes
              Definitions.createWidget 4 instance instance Screen.init Definitions.world)
    as [[[ok screen'] w']|] eqn:E; [|vm_compute in E; discriminate E].
  pose proof E as E'. vm_compute in E'. injection E' as Hok _ _. subst ok.
  exists screen', w'. split; [reflexivity|].
  apply (proj2 (proj2 (setScreen_bounded Definitions.horizontalRes
                         Definitions.verticalRes Definitions.createWidget
                         instance instance Screen.init Definitions.world))
           4%nat true screen' w' E).
  reflexivity.
Defined.

(** X25 at the stores of the firmware with a null label record. *)
Lemma setBuilder_bounded_null_label :
  ∃ builder' w',
    Main.setBuilder 3 instance instance WidgetBuilder.init Definitions.world_null_label
      = Some (false, builder', w') ∧
    WidgetBuilder.state builder' ≠ WidgetBuilder.COMPLETE.
Proof.
  destruct (Main.setBuilder 3 instance instance WidgetBuilder.init
              Definitions.world_null_label)
    as [[[ok builder'] w']|] eqn:E; [|vm_compute in E; discriminate E].
  pose proof E as E'. vm_compute in E'. injection E' as Hok _ _. subst ok.
  exists builder', w'. split; [reflexivity|].
  intros Hc.
  apply (proj2 (proj2 (proj2 (proj2 (proj2 (proj2
           (setBuilder_bounded instance instance WidgetBuilder.init
              Definitions.world_null_label)))))) 3%nat false builder' w' E) in Hc.
  discriminate Hc.
Defined.

(** X27.  The geometry step and the builder compose: the grid that the
    [GRAPH] handler configures from a resolved custom record fills the
    resolved size.  Its boundary is (0,0)-(width - 1, height - 1), its
    steps are the width and the height divided by the division counts,
    rounded down, and its first lines lie on the left and on the upper
    edge. *)
Theorem configureGraph_resolved (horizontalRes verticalRes : Z)
    (a a' : Utils.Attributes) (width height : Z) (g : Graticules.t) :
  Screen.resolveGeometry horizontalRes verticalRes a = Some (width, height, a') →
  Utils.isCustom a = true →
  0 ≤ width ≤ 32767 → 0 ≤ height ≤ 32767 →
  1 ≤ Utils.xDivisionQty (Utils.data_graph a) ≤ Utils.MAX_GRATICULES →
  1 ≤ Utils.yDivisionQty (Utils.data_graph a) ≤ Utils.MAX_GRATICULES →
  Graticules.wf g →
  ∃ g',
    WidgetBuilder.configureGraph a' g = Some g' ∧
    Graticules.getBoundary g' = Utils.mkBoundary 0 0 (width - 1) (height - 1) ∧
    Graticules.getStepSize Graticules.TIME g'
      = width `div` Utils.xDivisionQty (Utils.data_graph a) ∧
    Graticules.getStepSize Graticules.VOLTAGE g'
      = height `div` Utils.yDivisionQty (Utils.data_graph a) ∧
    Graticules.getLineSegment 0 Graticules.TIME g'
      = Some (Graticules.mkLineSegment 0 0 0 (height - 1)) ∧
    Graticules.getLineSegment 0 Graticules.VOLTAGE g'
      = Some (Graticules.mkLineSegment 0 0 (width - 1) 0).
Proof.
  intros E Hcustom Hw Hh Hx Hy Hwf.
  assert (Utils.data_graph a' = Utils.data_graph a ∧
          Utils.boundary (Utils.geometry a') = Math.convertArea width height)
    as [Hdata Hb].
  { destruct a as [custom ty [m w0 h0 p b0] gr]. simpl in Hcustom. subst custom.
    unfold Screen.resolveGeometry in E.
    cbn [Utils.geometry Utils.mode Utils.percentSize Utils.width Utils.height
         Utils.boundary Utils.isCustom Utils.type Utils.data_graph] in E.
    destruct m; cbn [mbind option_bind] in E.
    - by injection E as <- <- <-.
    - destruct (Math.areaScaling p (int16 horizontalRes)); [|discriminate E].
      cbn [mbind option_bind] in E.
      destruct (Math.areaScaling p (int16 verticalRes)); [|discriminate E].
      cbn [mbind option_bind] in E. by injection E as <- <- <-.
    - destruct (Math.dimensionScaling p (int16 horizontalRes)); [|discriminate E].
      cbn [mbind option_bind] in E.
      destruct (Math.dimensionScaling p (int16 verticalRes)); [|discriminate E].
      cbn [mbind option_bind] in E. by injection E as <- <- <-. }
  rewrite convertArea_exact in Hb by lia.
  unfold WidgetBuilder.configureGraph. rewrite Hdata, Hb.
  set (td := Utils.xDivisionQty (Utils.data_graph a)) in *.
  set (vd := Utils.yDivisionQty (Utils.data_graph a)) in *.
  unfold Utils.MAX_GRATICULES in *.
  destruct (GraticulesFacts.configure_result
              (Utils.mkBoundary 0 0 (width - 1) (height - 1))
              (Utils.originColor (Utils.data_graph a))
              (Utils.originThickness (Utils.data_graph a))
              (Utils.gridlineColor (Utils.data_graph a))
              (Utils.gridlineThickness (Utils.data_graph a))
              td vd
              (Utils.xOriginIndex (Utils.data_graph a))
              (Utils.yOriginIndex (Utils.data_graph a)) g)
    as (g' & Ec & _ & Hbg & HtdE & HvdE & Hts & Hvs & HT & HV & _);
    [done|unfold Utils.MAX_GRATICULES; lia..|].
  cbn [Utils.x1 Utils.x2 Utils.y1 Utils.y2] in Hts, Hvs.
  replace (width - 1 - 0 + 1) with width in Hts by lia.
  replace (height - 1 - 0 + 1) with height in Hvs by lia.
  rewrite (GraticulesFacts.int16_id width) in Hts by lia.
  rewrite (GraticulesFacts.int16_id height) in Hvs by lia.
  rewrite Z.quot_div_nonneg in Hts by lia.
  rewrite Z.quot_div_nonneg in Hvs by lia.
  assert (0 ≤ width `div` td ≤ width) as Hdt.
  { split; [apply Z.div_pos; lia|]. apply Z.div_le_upper_bound; nia. }
  assert (0 ≤ height `div` vd ≤ height) as Hdv.
  { split; [apply Z.div_pos; lia|]. apply Z.div_le_upper_bound; nia. }
  rewrite GraticulesFacts.int16_id in Hts by lia.
  rewrite GraticulesFacts.int16_id in Hvs by lia.
  exists g'. split; [exact Ec|]. split; [exact Hbg|].
  split; [exact Hts|]. split; [exact Hvs|].
  unfold Graticules.getLineSegment, Graticules.isValidIndex.
  rewrite HtdE, HvdE, !GraticulesFacts.uint8_id by lia.
  rewrite !bool_decide_eq_true_2 by lia. cbn [negb andb].
  rewrite (HT 0), (HV 0) by lia.
  unfold Graticules.timeLine, Graticules.voltageLine. rewrite Hbg. by split.
Qed.

(** X27 at the record of the grid of the firmware: steps of 40 and 33
    pixels on the boundary (0,0)-(400,266). *)
Lemma configureGraph_resolved_firmware :
  ∃ a' g',
    Screen.resolveGeometry Definitions.horizontalRes Definitions.verticalRes
      Definitions.graticules = Some (401, 267, a') ∧
    WidgetBuilder.configureGraph a' Graticules.fresh = Some g' ∧
    Graticules.getBoundary g' = Utils.mkBoundary 0 0 400 266 ∧
    Graticules.getStepSize Graticules.TIME g' = 40 ∧
    Graticules.getStepSize Graticules.VOLTAGE g' = 33.
Proof.
  destruct (Screen.resolveGeometry Definitions.horizontalRes Definitions.verticalRes
              Definitions.graticules) as [[[width height] a']|] eqn:E;
    [|vm_compute in E; discriminate E].
  pose proof E as E'. vm_compute in E'. injection E' as Hw Hh _. subst width height.
  destruct (configureGraph_resolved Definitions.horizontalRes Definitions.verticalRes
              Definitions.graticules a' 401 267 Graticules.fresh E)
    as (g' & Ec & Hb & Hts & Hvs & _).
  - reflexivity.
  - lia.
  - lia.
  - unfold Utils.MAX_GRATICULES. simpl. lia.
  - unfold Utils.MAX_GRATICULES. simpl. lia.
  - split; reflexivity.
  - exists a', g'. split; [reflexivity|]. split; [exact Ec|]. split; [exact Hb|].
    split; [exact Hts|exact Hvs].
Defined.

(** ** The set-up sequence on well-formed stores *)

Lemma resolveGeometry_data (horizontalRes verticalRes : Z) (a a' : Utils.Attributes)
    (w h : Z) :
  Screen.resolveGeometry horizontalRes verticalRes a = Some (w, h, a') →
  Utils.data_graph a' = Utils.data_graph a.
Proof.
  destruct a as [custom ty [m w0 h0 p b0] gr].
  unfold Screen.resolveGeometry.
  cbn [Utils.geometry Utils.mode Utils.percentSize Utils.width Utils.height
       Utils.boundary Utils.isCustom Utils.type Utils.data_graph].
  intros E. destruct m; cbn [mbind option_bind] in E.
  - by injection E as <- <- <-.
  - destruct (Math.areaScaling p (int16 horizontalRes)); [|discriminate E].
    cbn [mbind option_bind] in E.
    destruct (Math.areaScaling p (int16 verticalRes)); [|discriminate E].
    cbn [mbind option_bind] in E. by injection E as <- <- <-.
  - destruct (Math.dimensionScaling p (int16 horizontalRes)); [|discriminate E].
    cbn [mbind option_bind] in E.
    destruct (Math.dimensionScaling p (int16 verticalRes)); [|discriminate E].
    cbn [mbind option_bind] in E. by injection E as <- <- <-.
Qed.

(** The loop of [setRegistry] keeps the payload of every record. *)
Lemma setRegistry_loop_data (horizontalRes verticalRes : Z)
    (entries : list (HashTable.Entry Utils.WidgetType (option addr)))
    (attributes attributes' : gmap addr Utils.Attributes) (flag : bool)
    (p : addr) (a : Utils.Attributes) :
  Screen.setRegistry_loop horizontalRes verticalRes entries attributes
    = Some (flag, attributes') →
  attributes !! p = Some a →
  ∃ a', attributes' !! p = Some a' ∧ Utils.data_graph a' = Utils.data_graph a.
Proof.
  revert attributes a. induction entries as [|entry entries IH];
    intros attributes a E Hp; simpl in E.
  { injection E as <- <-. by exists a. }
  destruct (HashTable.value entry) as [q|]; [|injection E as <- <-; by exists a].
  destruct (attributes !! q) as [aq|] eqn:Hq; [|discriminate E].
  cbn [mbind option_bind] in E.
  destruct (Screen.resolveGeometry horizontalRes verticalRes aq)
    as [[[wq hq] aq']|] eqn:Er; [|discriminate E].
  cbn [mbind option_bind] in E.
  destruct (decide (q = p)) as [->|Hne].
  - rewrite Hq in Hp. injection Hp as ->.
    destruct (IH _ aq' E) as (a' & Hp' & Hd); [by rewrite lookup_insert_eq|].
    exists a'. split; [done|]. rewrite Hd. apply (resolveGeometry_data _ _ _ _ _ _ Er).
  - apply (IH _ a E). by rewrite lookup_insert_ne.
Qed.

(** The loop of [setRegistry] is defined and raises no error when every
    entry holds a live record whose geometry can be resolved. *)
Lemma setRegistry_loop_defined (horizontalRes verticalRes : Z)
    (entries : list (HashTable.Entry Utils.WidgetType (option addr)))
    (attributes : gmap addr Utils.Attributes) :
  (∀ entry, entry ∈ entries →
     ∃ pa a, HashTable.value entry = Some pa ∧ attributes !! pa = Some a ∧
             is_Some (Screen.resolveGeometry horizontalRes verticalRes a)) →
  ∃ attributes',
    Screen.setRegistry_loop horizontalRes verticalRes entries attributes
      = Some (false, attributes').
Proof.
  revert attributes. induction entries as [|entry entries IH]; intros attributes Hready.
  { by exists attributes. }
  destruct (Hready entry) as (q & aq & Hv & Hq & [[[wq hq] aq'] Er]); [left|].
  simpl. rewrite Hv, Hq. cbn [mbind option_bind]. rewrite Er. cbn [mbind option_bind].
  apply IH. intros entry' Hin.
  destruct (Hready entry') as (pa & a & Hv' & Hpa & Hres); [by right|].
  destruct (decide (q = pa)) as [->|Hne].
  - exists pa, aq'. split; [done|]. split; [by rewrite lookup_insert_eq|].
    rewrite (resolveGeometry_fixed _ _ _ _ _ _ Er). by eexists.
  - exists pa, a. split; [done|]. split; [by rewrite lookup_insert_ne|done].
Qed.

(** The loop of [setWidgets] is defined and raises no error when every
    entry holds a live widget, the rendering library creates an object for
    its type, and the registry has a live record for its type. *)
Lemma setWidgets_loop_defined (createWidget : Utils.WidgetType → option nat)
    (registry : PointerTable) (attributes : gmap addr Utils.Attributes)
    (entries : list (HashTable.Entry Utils.WidgetType (option addr)))
    (widgets : gmap addr Widget.t) :
  (∀ entry, entry ∈ entries →
     ∃ pw pa,
       HashTable.value entry = Some pw ∧ is_Some (widgets !! pw) ∧
       is_Some (createWidget (HashTable.key entry)) ∧
       WidgetRegistry.getAttribute (HashTable.key entry) registry = Some pa ∧
       is_Some (attributes !! pa)) →
  ∃ widgets',
    Screen.setWidgets_loop createWidget instance registry attributes entries widgets
      = Some (false, widgets').
Proof.
  revert widgets. induction entries as [|entry entries IH]; intros widgets Hready.
  { by exists widgets. }
  destruct (Hready entry) as (pw & pa & Hv & [widget Hw] & [obj Hc] & Ha & [a Hpa]);
    [left|].
  cbn [Screen.setWidgets_loop]. rewrite Hc, Hv. cbn [mbind option_bind].
  rewrite Hw. cbn [mbind option_bind]. rewrite Ha. cbn [mbind option_bind].
  rewrite Hpa. cbn [mbind option_bind].
  apply IH. intros entry' Hin.
  destruct (Hready entry') as (pw' & pa' & Hv' & Hw' & Hrest); [by right|].
  exists pw', pa'. split; [done|]. split; [|done].
  destruct (decide (pw = pw')) as [->|Hne].
  - rewrite lookup_insert_eq. by eexists.
  - by rewrite lookup_insert_ne.
Qed.

Lemma printWidgets_loop_Some (registry : PointerTable)
    (attributes : gmap addr Utils.Attributes)
    (entries : list (HashTable.Entry Utils.WidgetType (option addr)))
    (widgets : gmap addr Widget.t) :
  (∀ entry, entry ∈ entries →
     ∃ pw pa,
       HashTable.value entry = Some pw ∧ is_Some (widgets !! pw) ∧
       WidgetRegistry.getAttribute (HashTable.key entry) registry = Some pa ∧
       is_Some (attributes !! pa)) →
  Screen.printWidgets_loop instance registry attributes entries widgets = Some ().
Proof.
  induction entries as [|entry entries IH]; intros Hready; [done|].
  destruct (Hready entry) as (pw & pa & Hv & [widget Hw] & Ha & [a Hpa]); [left|].
  cbn [Screen.printWidgets_loop]. rewrite Hv. cbn [mbind option_bind].
  rewrite Hw. cbn [mbind option_bind]. rewrite Ha. cbn [mbind option_bind].
  rewrite Hpa. cbn [mbind option_bind].
  apply IH. intros entry' Hin. apply Hready. by right.
Qed.

(** X28.  On well-formed stores the whole set-up sequence of [main.cpp]
    goes through.  When every entry of the registry holds a live record
    whose geometry can be resolved and the pool has an instance for its
    type, every entry of the pool holds a live widget for whose type the
    rendering library creates an object and the registry has a live record,
    and the [GRAPH] handler is ready (division counts between 1 and
    [MAX_GRATICULES], a [Graticules] instance), then [setScreen] and
    [setBuilder] return true, [drawWidgets] and [printWidgets] are defined,
    and [setup] leaves the screen and the builder in [COMPLETE] with the
    registry and the pool as they were. *)
Theorem setup_well_formed (horizontalRes verticalRes : Z)
    (createWidget : Utils.WidgetType → option nat) (w : World) :
  Main.well_formed horizontalRes verticalRes createWidget w = true →
  ∃ screen builder w',
    Main.setup horizontalRes verticalRes createWidget w = Some (screen, builder, w') ∧
    Screen.state screen = Screen.COMPLETE ∧
    WidgetBuilder.state builder = WidgetBuilder.COMPLETE ∧
    registry w' = registry w ∧ pool w' = pool w ∧
    (∃ w1,
       Main.setScreen horizontalRes verticalRes createWidget 4 instance instance
         Screen.init w
       = Some (true, Screen.set_state Screen.ATTRIBUTES_SET screen, w1) ∧
       Main.setBuilder 3 instance instance WidgetBuilder.init w1
       = Some (true, builder, w')).
Proof.
  intros Hwf. unfold Main.well_formed in Hwf.
  apply andb_true_iff in Hwf as [Hwf Hgraph].
  apply andb_true_iff in Hwf as [Hrecords Hinstances].
  apply andb_true_iff in Hgraph as [Hgrec Hginst].
  rewrite forallb_forall in Hrecords, Hinstances, Hgrec.
  set (rentries := HashTable.iterate (registry w)) in *.
  set (pentries := HashTable.iterate (pool w)) in *.
  assert (∀ entry, entry ∈ rentries →
            ∃ pa a, HashTable.value entry = Some pa ∧ attributes w !! pa = Some a ∧
                    is_Some (Screen.resolveGeometry horizontalRes verticalRes a) ∧
                    is_Some (WidgetPool.getWidget (HashTable.key entry) (pool w)))
    as HR.
  { intros entry Hin%list_elem_of_In. specialize (Hrecords entry Hin).
    unfold Main.record_ready in Hrecords.
    destruct (HashTable.value entry) as [pa|] eqn:Hv; [|discriminate Hrecords].
    destruct (attributes w !! pa) as [a|] eqn:Hpa; [|discriminate Hrecords].
    apply andb_true_iff in Hrecords as [H1%bool_decide_eq_true H2%bool_decide_eq_true].
    exists pa, a. split; [reflexivity|]. split; [exact Hpa|]. split; [exact H1|exact H2]. }
  assert (∀ entry, entry ∈ pentries →
            ∃ pw pa,
              HashTable.value entry = Some pw ∧ is_Some (widgets w !! pw) ∧
              is_Some (createWidget (HashTable.key entry)) ∧
              WidgetRegistry.getAttribute (HashTable.key entry) (registry w) = Some pa ∧
              is_Some (attributes w !! pa)) as HP.
  { intros entry Hin%list_elem_of_In. specialize (Hinstances entry Hin).
    unfold Main.instance_ready in Hinstances.
    destruct (HashTable.value entry) as [pw|] eqn:Hv; [|discriminate Hinstances].
    apply andb_true_iff in Hinstances as [Hinstances Ha].
    apply andb_true_iff in Hinstances as [H1%bool_decide_eq_true H2%bool_decide_eq_true].
    destruct (WidgetRegistry.getAttribute (HashTable.key entry) (registry w)) as [pa|]
      eqn:Hattr; [|discriminate Ha].
    apply bool_decide_eq_true in Ha. exists pw, pa.
    split; [reflexivity|]. split; [exact H1|]. split; [exact H2|].
    split; [reflexivity|exact Ha]. }
  (* setRegistry *)
  destruct (setRegistry_loop_defined horizontalRes verticalRes rentries (attributes w))
    as (attributes1 & Eloop1).
  { intros entry Hin. destruct (HR entry Hin) as (pa & a & Hv & Hpa & Hres & _).
    by exists pa, a. }
  destruct (setRegistry_loop_result _ _ _ _ _ _ Eloop1) as (_ & Hdom1 & _ & _).
  (* Screen::setWidgets *)
  destruct (setWidgets_loop_defined createWidget (registry w) attributes1 pentries
              (widgets w)) as (widgets1 & Eloop2).
  { intros entry Hin. destruct (HP entry Hin) as (pw & pa & Hv & Hw & Hc & Ha & Hpa).
    exists pw, pa. split; [done|]. split; [done|]. split; [done|]. split; [done|].
    by apply Hdom1. }
  (* setAttribute *)
  destruct (WidgetBuilderFacts.setAttribute_loop_result (pool w) attributes1 rentries
              widgets1) as (widgets2 & Eloop3 & _).
  { intros entry pa Hin Hk Hv.
    specialize (Hgrec entry ltac:(by apply list_elem_of_In)).
    unfold WidgetBuilder.graph_record_ready in Hgrec. rewrite Hk, Hv in Hgrec.
    destruct (attributes w !! pa) as [a|] eqn:Hpa; [|discriminate Hgrec].
    apply andb_true_iff in Hgrec as [Hx%bool_decide_eq_true Hy%bool_decide_eq_true].
    destruct (setRegistry_loop_data _ _ _ _ _ _ pa a Eloop1 Hpa) as (a' & Hpa' & Hd).
    exists a'. rewrite Hd. done. }
  { intros pw Hw. unfold WidgetBuilder.graph_instance_ready in Hginst.
    rewrite Hw in Hginst.
    destruct (widgets w !! pw) as [widget|] eqn:Hpw; [|discriminate Hginst].
    apply bool_decide_eq_true in Hginst as [g Hg].
    destruct (setWidgets_loop_keeps _ _ _ _ _ _ _ _ pw widget Eloop2 Hpw)
      as (widget' & Hpw' & _ & Hg' & _).
    exists widget', g. split; [done|]. congruence. }
  assert (forallb (WidgetBuilder.present (pool w)) rentries = true) as Hpresent.
  { apply forallb_forall. intros entry Hin%list_elem_of_In.
    destruct (HR entry Hin) as (pa & a & Hv & _ & _ & [pw Hw]).
    unfold WidgetBuilder.present. by rewrite Hv, Hw. }
  rewrite Hpresent in Eloop3.
  (* the widgets of the pool stay live *)
  assert (∀ entry, entry ∈ pentries →
            ∃ pw pa,
              HashTable.value entry = Some pw ∧ is_Some (widgets2 !! pw) ∧
              WidgetRegistry.getAttribute (HashTable.key entry) (registry w) = Some pa ∧
              is_Some (attributes1 !! pa)) as Hlive.
  { intros entry Hin. destruct (HP entry Hin) as (pw & pa & Hv & [widget Hw] & _ & Ha & Hpa).
    exists pw, pa. split; [done|]. split; [|split; [done|by apply Hdom1]].
    apply (WidgetBuilderFacts.setAttribute_loop_live _ _ _ _ _ _ _ pw Eloop3).
    destruct (setWidgets_loop_keeps _ _ _ _ _ _ _ _ pw widget Eloop2 Hw)
      as (widget' & Hw' & _). by exists widget'. }
  set (s0 := Screen.setServices instance instance Screen.init).
  set (w1 := mkWorld (registry w) (pool w) attributes1 (widgets w)).
  set (w2 := mkWorld (registry w) (pool w) attributes1 widgets1).
  set (w3 := mkWorld (registry w) (pool w) attributes1 widgets2).
  assert (Screen.setRegistry horizontalRes verticalRes s0 w
          = Some (Screen.set_state Screen.WIDGETS_REGISTERED s0, w1)) as E1.
  { unfold Screen.setRegistry. cbn [Screen.widgetRegistry s0 Screen.setServices].
    fold rentries. rewrite Eloop1. reflexivity. }
  assert (Screen.setWidgets createWidget (Screen.set_state Screen.WIDGETS_REGISTERED s0) w1
          = Some (Screen.set_state Screen.ATTRIBUTES_SET s0, w2)) as E2.
  { unfold Screen.setWidgets.
    cbn [Screen.widgetPool Screen.widgetRegistry Screen.set_state s0 Screen.setServices
         w1 registry pool attributes widgets].
    fold pentries. rewrite Eloop2. reflexivity. }
  assert (Main.setScreen horizontalRes verticalRes createWidget 4 instance instance
            Screen.init w
          = Some (true, Screen.set_state Screen.ATTRIBUTES_SET s0, w2)) as Escreen.
  { cbn [Main.setScreen Screen.state Screen.init]. fold s0.
    cbn [Screen.state s0 Screen.setServices both]. fold s0. rewrite E1.
    cbn [mbind option_bind Screen.state Screen.set_state]. rewrite E2. reflexivity. }
  set (b0 := WidgetBuilder.setServices instance instance WidgetBuilder.init).
  assert (WidgetBuilder.setWidgets 3 b0 w2
          = Some (WidgetBuilder.set_state WidgetBuilder.COMPLETE b0, w3)) as E3.
  { unfold b0, w2.
    cbn [WidgetBuilder.setWidgets WidgetBuilder.state WidgetBuilder.setServices both
         WidgetBuilder.set_state].
    unfold WidgetBuilder.setAttribute.
    cbn [WidgetBuilder.widgetRegistry WidgetBuilder.widgetPool WidgetBuilder.set_state
         WidgetBuilder.setServices registry pool attributes widgets].
    fold rentries. rewrite Eloop3. reflexivity. }
  assert (Main.setBuilder 3 instance instance WidgetBuilder.init w2
          = Some (true, WidgetBuilder.set_state WidgetBuilder.COMPLETE b0, w3)) as Ebuilder.
  { cbn [Main.setBuilder WidgetBuilder.state WidgetBuilder.init]. fold b0.
    cbn [WidgetBuilder.state b0 WidgetBuilder.setServices both]. fold b0. rewrite E3.
    reflexivity. }
  assert (Screen.drawWidgets (Screen.set_state Screen.ATTRIBUTES_SET s0) w3
          = Some (Screen.set_state Screen.COMPLETE s0)) as Edraw.
  { unfold Screen.drawWidgets.
    cbn [Screen.widgetPool Screen.set_state s0 Screen.setServices w3 pool widgets].
    fold pentries. rewrite drawWidgets_loop_Some; [reflexivity|].
    intros entry Hin. destruct (Hlive entry Hin) as (pw & _ & Hv & [widget Hw] & _).
    by exists pw, widget. }
  assert (Screen.printWidgets (Screen.set_state Screen.COMPLETE s0) w3 = Some ())
    as Eprint.
  { unfold Screen.printWidgets.
    cbn [Screen.widgetPool Screen.widgetRegistry Screen.set_state s0 Screen.setServices
         w3 registry pool attributes widgets].
    fold pentries. by apply printWidgets_loop_Some. }
  exists (Screen.set_state Screen.COMPLETE s0),
         (WidgetBuilder.set_state WidgetBuilder.COMPLETE b0), w3.
  split.
  { unfold Main.setup. rewrite Escreen. cbn [mbind option_bind negb].
    rewrite Ebuilder. cbn [mbind option_bind negb]. rewrite Edraw.
    cbn [mbind option_bind]. rewrite Eprint. reflexivity. }
  split; [reflexivity|]. split; [reflexivity|]. split; [reflexivity|].
  split; [reflexivity|].
  exists w2. split; [exact Escreen|exact Ebuilder].
Qed.

(** X28 at the stores of the firmware. *)
Lemma setup_well_formed_firmware :
  ∃ screen builder w',
    Main.setup Definitions.horizontalRes Definitions.verticalRes
      Definitions.createWidget Definitions.world = Some (screen, builder, w') ∧
    Screen.state screen = Screen.COMPLETE ∧
    WidgetBuilder.state builder = WidgetBuilder.COMPLETE.
Proof.
  destruct (setup_well_formed Definitions.horizontalRes Definitions.verticalRes
              Definitions.createWidget Definitions.world)
    as (screen & builder & w' & E & Hs & Hb & _).
  - vm_compute. reflexivity.
  - exists screen, builder, w'. split; [exact E|]. split; [exact Hs|exact Hb].
Defined.

(** The loop of [setRegistry] changes only the records that its entries
    point to. *)
Lemma setRegistry_loop_others (horizontalRes verticalRes : Z)
    (entries : list (HashTable.Entry Utils.WidgetType (option addr)))
    (attributes attributes' : gmap addr Utils.Attributes) (flag : bool) (p : addr) :
  Screen.setRegistry_loop horizontalRes verticalRes entries attributes
    = Some (flag, attributes') →
  (∀ entry, entry ∈ entries → HashTable.value entry ≠ Some p) →
  attributes' !! p = attributes !! p.
Proof.
  revert attributes. induction entries as [|entry entries IH];
    intros attributes E Hp; simpl in E.
  { by injection E as <- <-. }
  destruct (HashTable.value entry) as [q|] eqn:Hv; [|by injection E as <- <-].
  destruct (attributes !! q) as [aq|]; [|discriminate E].
  cbn [mbind option_bind] in E.
  destruct (Screen.resolveGeometry horizontalRes verticalRes aq)
    as [[[wq hq] aq']|]; [|discriminate E].
  cbn [mbind option_bind] in E.
  rewrite (IH _ E) by (intros entry' Hin; apply Hp; by right).
  apply lookup_insert_ne. intros ->. apply (Hp entry); [left|done].
Qed.

(** The loop of [setRegistry] over a list that holds a null record behind
    entries that hold none. *)
Lemma setRegistry_loop_null (horizontalRes verticalRes : Z)
    (before after : list (HashTable.Entry Utils.WidgetType (option addr)))
    (entry : HashTable.Entry Utils.WidgetType (option addr))
    (attributes : gmap addr Utils.Attributes) :
  Forall (λ e, is_Some (HashTable.value e)) before →
  HashTable.value entry = None →
  Screen.setRegistry_loop horizontalRes verticalRes (before ++ entry :: after) attributes
  = '(_, attributes') ←
      Screen.setRegistry_loop horizontalRes verticalRes before attributes;
    Some (true, attributes').
Proof.
  revert attributes. induction before as [|e before IH]; intros attributes Hall Hnull.
  { simpl. by rewrite Hnull. }
  apply Forall_cons in Hall as [[q Hq] Hall]. simpl. rewrite Hq.
  destruct (attributes !! q) as [aq|]; [|reflexivity].
  cbn [mbind option_bind].
  destruct (Screen.resolveGeometry horizontalRes verticalRes aq)
    as [[[wq hq] aq']|]; [|reflexivity].
  cbn [mbind option_bind]. by apply IH.
Qed.

(** X30.  [setRegistry] stops at the first null record and rolls nothing
    back: the entries that the iteration visits before it are resolved
    exactly as in a run over these entries alone, the screen ends in
    [ERROR_REGISTRATION], and every record that none of these entries points
    to, so every record that only later entries hold, is left as it was. *)
Theorem setRegistry_stops_at_null (horizontalRes verticalRes : Z)
    (s : Screen.t) (w : World)
    (before after : list (HashTable.Entry Utils.WidgetType (option addr)))
    (entry : HashTable.Entry Utils.WidgetType (option addr)) :
  HashTable.iterate (registry w) = before ++ entry :: after →
  Forall (λ e, is_Some (HashTable.value e)) before →
  HashTable.value entry = None →
  Screen.widgetRegistry s = instance →
  Screen.setRegistry horizontalRes verticalRes s w
  = ('(_, attributes') ←
       Screen.setRegistry_loop horizontalRes verticalRes before (attributes w);
     Some (Screen.set_state Screen.ERROR_REGISTRATION s,
           mkWorld (registry w) (pool w) attributes' (widgets w))) ∧
  ∀ s' w',
    Screen.setRegistry horizontalRes verticalRes s w = Some (s', w') →
    ∀ p, (∀ e, e ∈ before → HashTable.value e ≠ Some p) →
         attributes w' !! p = attributes w !! p.
Proof.
  intros Hit Hall Hnull Hr.
  assert (Screen.setRegistry horizontalRes verticalRes s w
          = ('(_, attributes') ←
               Screen.setRegistry_loop horizontalRes verticalRes before (attributes w);
             Some (Screen.set_state Screen.ERROR_REGISTRATION s,
                   mkWorld (registry w) (pool w) attributes' (widgets w)))) as E.
  { unfold Screen.setRegistry. rewrite Hr, Hit.
    rewrite (setRegistry_loop_null _ _ _ _ _ _ Hall Hnull).
    destruct (Screen.setRegistry_loop horizontalRes verticalRes before (attributes w))
      as [[flag attributes']|]; reflexivity. }
  split; [exact E|].
  intros s' w' E' p Hp. rewrite E in E'.
  destruct (Screen.setRegistry_loop horizontalRes verticalRes before (attributes w))
    as [[flag attributes']|] eqn:Eloop; [|discriminate E'].
  cbn [mbind option_bind] in E'. injection E' as <- <-. cbn [attributes].
  apply (setRegistry_loop_others _ _ _ _ _ _ p Eloop Hp).
Qed.

(** X30 at the stores of the firmware with a null label record: the label
    comes first in the iteration, and the record of the grid is not
    resolved. *)
Lemma setRegistry_stops_at_null_label :
  ∃ s' w',
    Screen.setRegistry Definitions.horizontalRes Definitions.verticalRes
      (Screen.setServices instance instance Screen.init) Definitions.world_null_label
      = Some (s', w') ∧
    attributes w' !! Definitions.graticules_addr = Some Definitions.graticules.
Proof.
  destruct (HashTable.iterate (registry Definitions.world_null_label))
    as [|entry after] eqn:Hit; [vm_compute in Hit; discriminate Hit|].
  assert (HashTable.value entry = None) as Hnull.
  { vm_compute in Hit. by injection Hit as <- _. }
  destruct (setRegistry_stops_at_null Definitions.horizontalRes Definitions.verticalRes
              (Screen.setServices instance instance Screen.init)
              Definitions.world_null_label [] after entry Hit (Forall_nil_2 _) Hnull
              eq_refl) as [E Hkeep].
  cbn [Screen.setRegistry_loop mbind option_bind] in E.
  eexists _, _. split; [exact E|].
  rewrite (Hkeep _ _ E Definitions.graticules_addr).
  - reflexivity.
  - intros e He. by apply elem_of_nil in He.
Defined.

(** ** The geometry step of [setRegistry] *)

(** The geometry step on a record in range, on the display in either
    orientation: the step is defined, leaves the record in range, and gives
    the size and the boundary that its sizing mode asks for. *)
Lemma resolveGeometry_on_display (horizontalRes verticalRes : Z) (a : Utils.Attributes) :
  (horizontalRes = 480 ∧ verticalRes = 320) ∨ (horizontalRes = 320 ∧ verticalRes = 480) →
  Screen.geometry_in_range a = true →
  ∃ width height a',
    Screen.resolveGeometry horizontalRes verticalRes a = Some (width, height, a') ∧
    Screen.geometry_in_range a' = true ∧
    let g := Utils.geometry a in
    let g' := Utils.geometry a' in
    match Utils.mode g with
    | Utils.ABSOLUTE =>
        Utils.width g' = Utils.width g ∧ Utils.height g' = Utils.height g
    | Utils.DIMENSION_PERCENT =>
        Utils.width g' = horizontalRes * Utils.percentSize g / 100 ∧
        Utils.height g' = verticalRes * Utils.percentSize g / 100
    | Utils.AREA_PERCENT =>
        0 ≤ Utils.width g' ∧ 0 ≤ Utils.height g' ∧
        100 * (Utils.width g' * Utils.width g')
          ≤ Utils.percentSize g * (horizontalRes * horizontalRes)
          < 100 * ((Utils.width g' + 1) * (Utils.width g' + 1)) ∧
        100 * (Utils.height g' * Utils.height g')
          ≤ Utils.percentSize g * (verticalRes * verticalRes)
          < 100 * ((Utils.height g' + 1) * (Utils.height g' + 1)) ∧
        Utils.width g' * Utils.height g'
          ≤ Utils.percentSize g * (horizontalRes * verticalRes) / 100
          < (Utils.width g' + 1) * (Utils.height g' + 1)
    end ∧
    Utils.boundary g' =
      (if Utils.isCustom a
       then Utils.mkBoundary 0 0 (Utils.width g' - 1) (Utils.height g' - 1)
       else Utils.boundary g) ∧
    Utils.mode g' = Utils.mode g ∧
    Utils.percentSize g' = Utils.percentSize g ∧
    Utils.isCustom a' = Utils.isCustom a ∧
    Utils.type a' = Utils.type a ∧
    Utils.data_graph a' = Utils.data_graph a.
Proof.
  intros Hdisplay Hrange.
  destruct a as [custom ty [m w0 h0 p b0] gr].
  unfold Screen.geometry_in_range in Hrange.
  unfold Screen.resolveGeometry, Screen.geometry_in_range.
  cbn [Utils.geometry Utils.mode Utils.percentSize Utils.width Utils.height
       Utils.boundary Utils.isCustom Utils.type Utils.data_graph] in *.
  destruct m.
  - cbn [mbind option_bind].
    eexists _, _, _. split; [reflexivity|].
    cbn [Utils.geometry Utils.mode Utils.percentSize Utils.width Utils.height
         Utils.boundary Utils.isCustom Utils.type Utils.data_graph].
    destruct custom;
      cbn [Utils.geometry Utils.mode Utils.percentSize Utils.width Utils.height
           Utils.boundary Utils.isCustom Utils.type Utils.data_graph negb orb] in *.
    + split; [exact Hrange|].
      apply andb_true_iff in Hrange as [Hw Hh].
      apply bool_decide_eq_true in Hw, Hh.
      rewrite convertArea_exact by lia. repeat split.
    + repeat split.
  - apply bool_decide_eq_true in Hrange.
    destruct (MathFacts.display_scaling_exact p 480 Hrange (or_introl eq_refl))
      as (_ & r1 & _ & Er1 & _ & _ & Hr1 & Hs1).
    destruct (MathFacts.display_scaling_exact p 320 Hrange (or_intror eq_refl))
      as (_ & r2 & _ & Er2 & _ & _ & Hr2 & Hs2).
    destruct (MathFacts.display_area_scaled p Hrange) as (r1' & r2' & Er1' & Er2' & Harea).
    rewrite Er1 in Er1'. injection Er1' as <-.
    rewrite Er2 in Er2'. injection Er2' as <-.
    assert (r2 * r1 ≤ p * (320 * 480) / 100 < (r2 + 1) * (r1 + 1)) as Harea'.
    { rewrite (Z.mul_comm r2 r1), (Z.mul_comm (r2 + 1) (r1 + 1)). exact Harea. }
    destruct Hdisplay as [[-> ->]|[-> ->]];
      change (int16 480) with 480; change (int16 320) with 320;
      rewrite Er1, Er2; cbn [mbind option_bind];
      (eexists _, _, _; split; [reflexivity|]);
      cbn [Utils.geometry Utils.mode Utils.percentSize Utils.width Utils.height
           Utils.boundary Utils.isCustom Utils.type Utils.data_graph];
      destruct custom;
      cbn [Utils.geometry Utils.mode Utils.percentSize Utils.width Utils.height
           Utils.boundary Utils.isCustom Utils.type Utils.data_graph];
      (split; [by apply bool_decide_eq_true_2|]);
      rewrite ?convertArea_exact by lia;
      (split; [split_and!; first [lia | apply Harea | apply Harea']|]); repeat split.
  - apply bool_decide_eq_true in Hrange.
    destruct (MathFacts.display_scaling_exact p 480 Hrange (or_introl eq_refl))
      as (d1 & _ & Ed1 & _ & Hd1 & Hb1 & _ & _).
    destruct (MathFacts.display_scaling_exact p 320 Hrange (or_intror eq_refl))
      as (d2 & _ & Ed2 & _ & Hd2 & Hb2 & _ & _).
    destruct Hdisplay as [[-> ->]|[-> ->]];
      change (int16 480) with 480; change (int16 320) with 320;
      rewrite Ed1, Ed2; cbn [mbind option_bind];
      (eexists _, _, _; split; [reflexivity|]);
      cbn [Utils.geometry Utils.mode Utils.percentSize Utils.width Utils.height
           Utils.boundary Utils.isCustom Utils.type Utils.data_graph];
      destruct custom;
      cbn [Utils.geometry Utils.mode Utils.percentSize Utils.width Utils.height
           Utils.boundary Utils.isCustom Utils.type Utils.data_graph];
      (split; [by apply bool_decide_eq_true_2|]);
      rewrite ?convertArea_exact by lia;
      (split; [by split|]); repeat split.
Qed.

(** A record in range stays in range when a record in range is stored. *)
Lemma record_in_range_insert (attributes : gmap addr Utils.Attributes)
    (q : addr) (a : Utils.Attributes)
    (entry : HashTable.Entry Utils.WidgetType (option addr)) :
  Screen.geometry_in_range a = true →
  Screen.record_in_range attributes entry = true →
  Screen.record_in_range (<[q := a]> attributes) entry = true.
Proof.
  intros Ha. unfold Screen.record_in_range.
  destruct (HashTable.value entry) as [p|]; [|done].
  destruct (decide (q = p)) as [->|Hne].
  - by rewrite lookup_insert_eq.
  - by rewrite lookup_insert_ne.
Qed.

(** On the display the loop of [setRegistry] is defined when the records of
    its entries are in range. *)
Lemma setRegistry_loop_in_range (horizontalRes verticalRes : Z)
    (entries : list (HashTable.Entry Utils.WidgetType (option addr)))
    (attributes : gmap addr Utils.Attributes) :
  (horizontalRes = 480 ∧ verticalRes = 320) ∨ (horizontalRes = 320 ∧ verticalRes = 480) →
  forallb (Screen.record_in_range attributes) entries = true →
  is_Some (Screen.setRegistry_loop horizontalRes verticalRes entries attributes).
Proof.
  intros Hdisplay. revert attributes.
  induction entries as [|entry entries IH]; intros attributes Hall.
  { by eexists. }
  cbn [forallb] in Hall. apply andb_true_iff in Hall as [Hentry Hall].
  cbn [Screen.setRegistry_loop]. unfold Screen.record_in_range in Hentry.
  destruct (HashTable.value entry) as [q|]; [|by eexists].
  destruct (attributes !! q) as [aq|]; [|discriminate Hentry].
  cbn [mbind option_bind].
  destruct (resolveGeometry_on_display _ _ aq Hdisplay Hentry)
    as (wq & hq & aq' & Er & Hrange' & _).
  rewrite Er. cbn [mbind option_bind]. apply IH.
  apply forallb_forall. intros e He.
  apply record_in_range_insert; [exact Hrange'|].
  by apply (proj1 (forallb_forall _ _) Hall).
Qed.

(** The record of an entry that the loop of [setRegistry] reaches is, after
    the loop, the one that the geometry step makes of it. *)
Lemma setRegistry_loop_resolves (horizontalRes verticalRes : Z)
    (before after : list (HashTable.Entry Utils.WidgetType (option addr)))
    (entry : HashTable.Entry Utils.WidgetType (option addr))
    (attributes attributes' : gmap addr Utils.Attributes) (flag : bool)
    (p : addr) (a : Utils.Attributes) :
  Screen.setRegistry_loop horizontalRes verticalRes (before ++ entry :: after) attributes
    = Some (flag, attributes') →
  Forall (λ e, is_Some (HashTable.value e)) before →
  HashTable.value entry = Some p →
  attributes !! p = Some a →
  ∃ width height a',
    Screen.resolveGeometry horizontalRes verticalRes a = Some (width, height, a') ∧
    attributes' !! p = Some a'.
Proof.
  revert attributes a. induction before as [|e before IH];
    intros attributes a E Hall Hv Ha.
  - cbn [app Screen.setRegistry_loop] in E. rewrite Hv, Ha in E.
    cbn [mbind option_bind] in E.
    destruct (Screen.resolveGeometry horizontalRes verticalRes a)
      as [[[width height] a']|] eqn:Er; [|discriminate E].
    cbn [mbind option_bind] in E.
    exists width, height, a'. split; [reflexivity|].
    apply (setRegistry_loop_keeps _ _ _ _ _ _ p a' width height E).
    + by rewrite lookup_insert_eq.
    + by apply (resolveGeometry_fixed _ _ a).
  - apply Forall_cons in Hall as [[q Hq] Hall].
    change ((e :: before) ++ entry :: after) with (e :: (before ++ entry :: after)) in E.
    cbn [Screen.setRegistry_loop] in E. rewrite Hq in E.
    destruct (attributes !! q) as [aq|] eqn:Haq; [|discriminate E].
    cbn [mbind option_bind] in E.
    destruct (Screen.resolveGeometry horizontalRes verticalRes aq)
      as [[[wq hq] aq']|] eqn:Er; [|discriminate E].
    cbn [mbind option_bind] in E.
    destruct (decide (q = p)) as [->|Hne].
    + rewrite Ha in Haq. injection Haq as <-.
      destruct (IH (<[p := aq']> attributes) aq' E Hall Hv)
        as (width & height & a' & Er' & Ha'); [by rewrite lookup_insert_eq|].
      rewrite (resolveGeometry_fixed _ _ _ _ _ _ Er) in Er'.
      injection Er' as <- <- <-.
      by exists wq, hq, aq'.
    + apply (IH (<[q := aq']> attributes) a E Hall Hv).
      by rewrite lookup_insert_ne.
Qed.

(** C7, as the specification states it, fails in three ways.  The loop of
    [setRegistry] stops at the first null record: with a null label record
    the registry still holds the live, custom record of the grid, 70 percent
    of the area, and [setRegistry] leaves it as it was, with the size 0 by 0
    and the boundary (0,0)-(0,0).  The scaling is done in [float]: on a
    display 900 pixels wide a record of 13 percent in [DIMENSION_PERCENT]
    mode gets the width 116, while 900 * 13 / 100 is 117.  And
    [convertArea] stores [width - 1] in an [int16_t]: a custom record with
    the stored width -32768 gets the boundary up to 32767. *)
Lemma setRegistry_geometry_fails :
  let screen := Screen.setServices instance instance Screen.init in
  (WidgetRegistry.getAttribute Utils.GRAPH (registry Definitions.world_null_label)
     = Some Definitions.graticules_addr ∧
   attributes Definitions.world_null_label !! Definitions.graticules_addr
     = Some Definitions.graticules ∧
   Utils.isCustom Definitions.graticules = true ∧
   Utils.mode (Utils.geometry Definitions.graticules) = Utils.AREA_PERCENT ∧
   ∃ screen' w',
     Screen.setRegistry 480 320 screen Definitions.world_null_label
       = Some (screen', w') ∧
     attributes w' !! Definitions.graticules_addr = Some Definitions.graticules ∧
     Utils.width (Utils.geometry Definitions.graticules) = 0 ∧
     Utils.height (Utils.geometry Definitions.graticules) = 0 ∧
     Utils.boundary (Utils.geometry Definitions.graticules) = Utils.mkBoundary 0 0 0 0) ∧
  (let record :=
     Utils.mkAttributes false Utils.LABEL
       (Utils.mkGeometry Utils.DIMENSION_PERCENT 0 0 13 (Utils.mkBoundary 0 0 0 0))
       (Utils.data_graph Definitions.label) in
   let w :=
     mkWorld (registry Definitions.world) (pool Definitions.world)
       (<[Definitions.label_addr := record]> (attributes Definitions.world))
       (widgets Definitions.world) in
   ∃ screen' w' record',
     Screen.setRegistry 900 600 screen w = Some (screen', w') ∧
     attributes w' !! Definitions.label_addr = Some record' ∧
     Utils.width (Utils.geometry record') = 116 ∧
     900 * 13 / 100 = 117) ∧
  (let record :=
     Utils.mkAttributes true Utils.LABEL
       (Utils.mkGeometry Utils.ABSOLUTE (-32768) 25 0 (Utils.mkBoundary 0 0 0 0))
       (Utils.data_graph Definitions.label) in
   let w :=
     mkWorld (registry Definitions.world) (pool Definitions.world)
       (<[Definitions.label_addr := record]> (attributes Definitions.world))
       (widgets Definitions.world) in
   ∃ screen' w' record',
     Screen.setRegistry 480 320 screen w = Some (screen', w') ∧
     attributes w' !! Definitions.label_addr = Some record' ∧
     Utils.width (Utils.geometry record') = -32768 ∧
     Utils.boundary (Utils.geometry record') = Utils.mkBoundary 0 0 32767 24).
Proof.
  intros screen. split; [|split].
  - split; [reflexivity|]. split; [reflexivity|]. split; [reflexivity|].
    split; [reflexivity|].
    eexists _, _. split; [vm_compute; reflexivity|].
    split; [reflexivity|]. split; [reflexivity|]. split; reflexivity.
  - intros record w. eexists _, _, _. split; [vm_compute; reflexivity|].
    split; [reflexivity|]. split; reflexivity.
  - intros record w. eexists _, _, _. split; [vm_compute; reflexivity|].
    split; [reflexivity|]. split; reflexivity.
Qed.

(** C7, amended.  On the display of the firmware, 480 by 320 pixels in
    either orientation, and on a registry whose records are in range (a
    percentage from 0 to 100; the stored size of a custom [ABSOLUTE] record
    above the least [int16_t]), [setRegistry] returns, and every record that
    it reaches, that is, the record of every entry that no entry with a null
    record precedes, is resolved in the stores that it leaves.  In
    [ABSOLUTE] mode the stored width and height are kept as they are.  In
    [DIMENSION_PERCENT] mode the stored width and height become the
    resolution times the percentage over 100, rounded down.  In
    [AREA_PERCENT] mode they become the resolution times the square root of
    the percentage over 100, rounded down, so that their product is the
    percentage of the area of the display, short of it by less than one row
    and one column.  A custom record moreover has the boundary from (0,0)
    to (width - 1, height - 1) of the resolved size; the boundary of another
    record, and the mode, the percentage, the type, the custom flag and the
    payload of every record, are kept.  [dimensionScaling(50, 100)] is 50,
    [areaScaling(25, 100)] is 50, and [areaScaling(100, X)] is [X] for every
    [int16_t] [X]. *)
Theorem setRegistry_geometry (horizontalRes verticalRes : Z)
    (screen : Screen.t) (w : World) :
  (horizontalRes = 480 ∧ verticalRes = 320) ∨ (horizontalRes = 320 ∧ verticalRes = 480) →
  Screen.widgetRegistry screen = instance →
  forallb (Screen.record_in_range (attributes w)) (HashTable.iterate (registry w)) = true →
  (∃ screen' w',
     Screen.setRegistry horizontalRes verticalRes screen w = Some (screen', w') ∧
     ∀ before entry after p,
       HashTable.iterate (registry w) = before ++ entry :: after →
       Forall (λ e, is_Some (HashTable.value e)) before →
       HashTable.value entry = Some p →
       ∃ a a',
         attributes w !! p = Some a ∧ attributes w' !! p = Some a' ∧
         let g := Utils.geometry a in
         let g' := Utils.geometry a' in
         match Utils.mode g with
         | Utils.ABSOLUTE =>
             Utils.width g' = Utils.width g ∧ Utils.height g' = Utils.height g
         | Utils.DIMENSION_PERCENT =>
             Utils.width g' = horizontalRes * Utils.percentSize g / 100 ∧
             Utils.height g' = verticalRes * Utils.percentSize g / 100
         | Utils.AREA_PERCENT =>
             0 ≤ Utils.width g' ∧ 0 ≤ Utils.height g' ∧
             100 * (Utils.width g' * Utils.width g')
               ≤ Utils.percentSize g * (horizontalRes * horizontalRes)
               < 100 * ((Utils.width g' + 1) * (Utils.width g' + 1)) ∧
             100 * (Utils.height g' * Utils.height g')
               ≤ Utils.percentSize g * (verticalRes * verticalRes)
               < 100 * ((Utils.height g' + 1) * (Utils.height g' + 1)) ∧
             Utils.width g' * Utils.height g'
               ≤ Utils.percentSize g * (horizontalRes * verticalRes) / 100
               < (Utils.width g' + 1) * (Utils.height g' + 1)
         end ∧
         Utils.boundary g' =
           (if Utils.isCustom a
            then Utils.mkBoundary 0 0 (Utils.width g' - 1) (Utils.height g' - 1)
            else Utils.boundary g) ∧
         Utils.mode g' = Utils.mode g ∧
         Utils.percentSize g' = Utils.percentSize g ∧
         Utils.isCustom a' = Utils.isCustom a ∧
         Utils.type a' = Utils.type a ∧
         Utils.data_graph a' = Utils.data_graph a) ∧
  Math.dimensionScaling 50 100 = Some 50 ∧
  Math.areaScaling 25 100 = Some 50 ∧
  (∀ X, -32768 ≤ X ≤ 32767 → Math.areaScaling 100 X = Some X).
Proof.
  intros Hdisplay Hr Hrange.
  split; [|split; [apply MathFacts.dimensionScaling_50_100|
                   split; [apply MathFacts.areaScaling_25_100|
                           apply MathFacts.areaScaling_100]]].
  destruct (setRegistry_loop_in_range _ _ _ _ Hdisplay Hrange)
    as [[flag attributes'] Eloop].
  unfold Screen.setRegistry. rewrite Hr, Eloop. cbn [mbind option_bind].
  eexists _, _. split; [reflexivity|].
  intros before entry after p Hit Hall Hv. cbn [attributes].
  assert (Screen.record_in_range (attributes w) entry = true) as Hentry.
  { apply (proj1 (forallb_forall _ _) Hrange). rewrite Hit.
    apply in_or_app. right. by left. }
  unfold Screen.record_in_range in Hentry. rewrite Hv in Hentry.
  destruct (attributes w !! p) as [a|] eqn:Ha; [|discriminate Hentry].
  rewrite Hit in Eloop.
  destruct (setRegistry_loop_resolves _ _ _ _ _ _ _ _ _ _ Eloop Hall Hv Ha)
    as (width & height & a' & Er & Ha').
  destruct (resolveGeometry_on_display _ _ a Hdisplay Hentry)
    as (width1 & height1 & a1 & Er1 & _ & Hres).
  rewrite Er in Er1. injection Er1 as <- <- <-.
  exists a, a'. split; [reflexivity|]. split; [exact Ha'|]. exact Hres.
Qed.

(** C7 at the stores of the firmware: both entries hold a record, so both
    records are resolved.  The grid, a custom record of 70 percent of the
    area, gets 401 by 267 pixels and the boundary (0,0)-(400,266); the
    label keeps its 150 by 25 pixels. *)
Lemma setRegistry_geometry_firmware :
  ∃ screen' w' grid text,
    Screen.setRegistry Definitions.horizontalRes Definitions.verticalRes
      (Screen.setServices instance instance Screen.init) Definitions.world
      = Some (screen', w') ∧
    attributes w' !! Definitions.graticules_addr = Some grid ∧
    attributes w' !! Definitions.label_addr = Some text ∧
    Utils.width (Utils.geometry grid) = 401 ∧
    Utils.height (Utils.geometry grid) = 267 ∧
    Utils.boundary (Utils.geometry grid) = Utils.mkBoundary 0 0 400 266 ∧
    Utils.width (Utils.geometry text) = 150 ∧
    Utils.height (Utils.geometry text) = 25.
Proof.
  destruct (setRegistry_geometry Definitions.horizontalRes Definitions.verticalRes
              (Screen.setServices instance instance Screen.init) Definitions.world)
    as [(screen' & w' & E & Hrecords) _].
  - left. split; reflexivity.
  - reflexivity.
  - vm_compute. reflexivity.
  - destruct (HashTable.iterate (registry Definitions.world)) as [|e1 [|e2 rest]] eqn:Hit;
      [vm_compute in Hit; discriminate Hit|vm_compute in Hit; discriminate Hit|].
    assert (HashTable.value e1 = Some Definitions.label_addr ∧
            HashTable.value e2 = Some Definitions.graticules_addr) as [Hv1 Hv2].
    { vm_compute in Hit. injection Hit as <- <- _. split; reflexivity. }
    destruct (Hrecords [] e1 (e2 :: rest) Definitions.label_addr eq_refl
                (Forall_nil_2 _) Hv1) as (a1 & text & Ha1 & Htext & Hres1).
    destruct (Hrecords [e1] e2 rest Definitions.graticules_addr eq_refl
                (Forall_cons_2 _ _ _ (ex_intro _ _ Hv1) (Forall_nil_2 _)) Hv2)
      as (a2 & grid & Ha2 & Hgrid & Hres2).
    vm_compute in Ha1. injection Ha1 as <-.
    vm_compute in Ha2. injection Ha2 as <-.
    cbv zeta in Hres1, Hres2.
    cbn [Definitions.graticules Definitions.label Utils.geometry Utils.mode
         Utils.percentSize Utils.width Utils.height Utils.boundary Utils.isCustom]
      in Hres1, Hres2.
    destruct Hres1 as ((Hw1 & Hh1) & _).
    destruct Hres2 as ((Hw0 & Hh0 & Hw2 & Hh2 & _) & Hb2 & _).
    unfold Definitions.horizontalRes, Definitions.verticalRes in Hw2, Hh2.
    assert (Utils.width (Utils.geometry grid) = 401) as Hw by nia.
    assert (Utils.height (Utils.geometry grid) = 267) as Hh by nia.
    exists screen', w', grid, text.
    split; [exact E|]. split; [exact Hgrid|]. split; [exact Htext|].
    split; [exact Hw|]. split; [exact Hh|].
    split; [by rewrite Hb2, Hw, Hh|]. split; [exact Hw1|exact Hh1].
Defined.

End ScreenFacts.

(** * Properties of the registry and of the pool *)

Module StoreFacts.

Local Open Scope nat_scope.

(** The stores that [registerWidget]/[addWidget] and [removeWidget] reach
    from the empty store: these functions are [HashTable.apply] of an
    [OpInsert] and of an [OpRemove]. *)
Abbreviation reach :=
  (HashTable.run Utils.WidgetType_to_size_t Utils.DEFAULT (None : option addr)
     Utils.MAX_WIDGETS).
Abbreviation lookup :=
  (HashTable.find Utils.WidgetType_to_size_t Utils.DEFAULT (None : option addr)
     Utils.MAX_WIDGETS).

(** The three widget types have the home slots 0, 1 and 2. *)
Lemma types_collision_free :
  HashTable.collision_free Utils.WidgetType_to_size_t Utils.MAX_WIDGETS.
Proof. intros [] []; vm_compute; congruence. Qed.

Lemma capacity_pos : 0 < Utils.MAX_WIDGETS.
Proof. unfold Utils.MAX_WIDGETS. lia. Qed.

Lemma length_reach ops : length (reach ops Definitions.emptyTable) = Utils.MAX_WIDGETS.
Proof. apply (HashTableFacts.length_run Utils.WidgetType_to_size_t Utils.DEFAULT None Utils.MAX_WIDGETS). Qed.

Lemma lookup_insert_same ops key value :
  lookup key
    (HashTable.insert Utils.WidgetType_to_size_t Utils.DEFAULT None Utils.MAX_WIDGETS
       key value (reach ops Definitions.emptyTable)).2 = Some value.
Proof.
  apply (HashTableFacts.find_insert_eq Utils.WidgetType_to_size_t Utils.DEFAULT None Utils.MAX_WIDGETS); [apply length_reach|].
  rewrite (HashTableFacts.insert_at_home Utils.WidgetType_to_size_t Utils.DEFAULT None Utils.MAX_WIDGETS
             key value _ types_collision_free capacity_pos); [done|].
  apply (HashTableFacts.at_home_run Utils.WidgetType_to_size_t Utils.DEFAULT None Utils.MAX_WIDGETS);
    [apply types_collision_free|apply capacity_pos].
Qed.

Lemma lookup_remove_same ops key :
  lookup key
    (HashTable.remove Utils.WidgetType_to_size_t Utils.DEFAULT None Utils.MAX_WIDGETS
       key (reach ops Definitions.emptyTable)).2 = None.
Proof.
  apply (HashTableFacts.find_remove_eq Utils.WidgetType_to_size_t Utils.DEFAULT None Utils.MAX_WIDGETS); [apply length_reach|].
  apply (HashTableFacts.at_home_unique Utils.WidgetType_to_size_t Utils.DEFAULT None Utils.MAX_WIDGETS);
    [apply capacity_pos|apply length_reach|].
  apply (HashTableFacts.at_home_run Utils.WidgetType_to_size_t Utils.DEFAULT None Utils.MAX_WIDGETS);
    [apply types_collision_free|apply capacity_pos].
Qed.

(** X10.  On every registry that [registerWidget] and [removeWidget] reach
    from the empty one, [getAttribute] returns the record that was
    registered last for the type and null after [removeWidget]; the other
    types are not affected; and the registry is not empty after a
    registration. *)
Theorem registry_map (ops : list (HashTable.Op Utils.WidgetType (option addr)))
    (key : Utils.WidgetType) (value : option addr) :
  let registry := reach ops Definitions.emptyTable in
  WidgetRegistry.getAttribute key (WidgetRegistry.registerWidget key value registry)
    = value ∧
  WidgetRegistry.getAttribute key (WidgetRegistry.removeWidget key registry) = None ∧
  (∀ key', key' ≠ key →
     WidgetRegistry.getAttribute key' (WidgetRegistry.registerWidget key value registry)
       = WidgetRegistry.getAttribute key' registry ∧
     WidgetRegistry.getAttribute key' (WidgetRegistry.removeWidget key registry)
       = WidgetRegistry.getAttribute key' registry) ∧
  WidgetRegistry.isEmpty (WidgetRegistry.registerWidget key value registry) = false.
Proof.
  intros registry.
  unfold WidgetRegistry.getAttribute, WidgetRegistry.registerWidget,
    WidgetRegistry.removeWidget, WidgetRegistry.isEmpty.
  split; [|split; [|split]].
  - subst registry. rewrite lookup_insert_same. by destruct value.
  - subst registry. by rewrite lookup_remove_same.
  - intros key' Hne. split.
    + by rewrite (HashTableFacts.find_insert_ne Utils.WidgetType_to_size_t Utils.DEFAULT None Utils.MAX_WIDGETS)
        by (apply length_reach || done).
    + by rewrite (HashTableFacts.find_remove_ne Utils.WidgetType_to_size_t Utils.DEFAULT None Utils.MAX_WIDGETS)
        by (apply length_reach || done).
  - apply (HashTableFacts.find_Some_not_empty Utils.WidgetType_to_size_t Utils.DEFAULT
             None Utils.MAX_WIDGETS key value).
    apply lookup_insert_same.
Qed.

(** X11.  On every pool that [addWidget] and [removeWidget] reach from the
    empty one, [removeWidget] returns true exactly when the type is stored,
    [getWidget] is null afterwards, and [getWidget] returns the instance that
    [addWidget] stored, also after a removal of the same type. *)
Theorem pool_map (ops : list (HashTable.Op Utils.WidgetType (option addr)))
    (key : Utils.WidgetType) (value : option addr) :
  let pool := reach ops Definitions.emptyTable in
  (WidgetPool.removeWidget key pool).1 = bool_decide (is_Some (lookup key pool)) ∧
  WidgetPool.getWidget key (WidgetPool.removeWidget key pool).2 = None ∧
  WidgetPool.getWidget key (WidgetPool.addWidget key value pool) = value ∧
  WidgetPool.getWidget key
    (WidgetPool.addWidget key value (WidgetPool.removeWidget key pool).2) = value ∧
  (WidgetPool.removeWidget key (WidgetPool.addWidget key value pool)).1 = true.
Proof.
  intros pool.
  unfold WidgetPool.getWidget, WidgetPool.addWidget, WidgetPool.removeWidget.
  split; [|split; [|split; [|split]]].
  - apply (HashTableFacts.remove_flag Utils.WidgetType_to_size_t Utils.DEFAULT None Utils.MAX_WIDGETS).
  - subst pool. by rewrite lookup_remove_same.
  - subst pool. rewrite lookup_insert_same. by destruct value.
  - subst pool.
    pose proof (lookup_insert_same (ops ++ [HashTable.OpRemove key]) key value) as E.
    rewrite (HashTableFacts.run_snoc Utils.WidgetType_to_size_t Utils.DEFAULT None Utils.MAX_WIDGETS) in E. simpl in E. rewrite E. by destruct value.
  - rewrite (HashTableFacts.remove_flag Utils.WidgetType_to_size_t Utils.DEFAULT None Utils.MAX_WIDGETS). apply bool_decide_eq_true.
    subst pool. rewrite lookup_insert_same. by eexists.
Qed.

(** X9 at the three widget types, whose home slots are distinct. *)
Lemma collision_free_map_types :
  let table :=
    reach [HashTable.OpInsert Utils.GRAPH (Some 0); HashTable.OpRemove Utils.GRAPH;
           HashTable.OpInsert Utils.LABEL (Some 1)] Definitions.emptyTable in
  HashTable.slots_of Utils.GRAPH table ≤ 1 ∧
  lookup Utils.LABEL
    (HashTable.remove Utils.WidgetType_to_size_t Utils.DEFAULT None Utils.MAX_WIDGETS
       Utils.LABEL table).2 = None.
Proof.
  intros table.
  split.
  - apply (HashTableFacts.collision_free_map Utils.WidgetType_to_size_t Utils.DEFAULT
             None Utils.MAX_WIDGETS
             [HashTable.OpInsert Utils.GRAPH (Some 0); HashTable.OpRemove Utils.GRAPH;
              HashTable.OpInsert Utils.LABEL (Some 1)] Utils.GRAPH None
             types_collision_free capacity_pos).
  - apply (HashTableFacts.collision_free_map Utils.WidgetType_to_size_t Utils.DEFAULT
             None Utils.MAX_WIDGETS
             [HashTable.OpInsert Utils.GRAPH (Some 0); HashTable.OpRemove Utils.GRAPH;
              HashTable.OpInsert Utils.LABEL (Some 1)] Utils.LABEL None
             types_collision_free capacity_pos).
Defined.

End StoreFacts.

(** * Properties of the display driver *)

Module DisplayFacts.
Import TFT_HX8357D.

Local Open Scope Z_scope.

Lemma uint16_id (z : Z) : 0 ≤ z ≤ 65535 → uint16 z = z.
Proof. intros. unfold uint16. rewrite Z.mod_small; lia. Qed.

Lemma uint16_negative (z : Z) : -65536 ≤ z < 0 → uint16 z = z + 65536.
Proof.
  intros. unfold uint16. symmetry. apply (Z.mod_unique_pos z 65536 (-1)); lia.
Qed.

(** The end of a block that starts [n] pixels before the edge of a screen:
    the block is [n] pixels long, whatever the size of the screen. *)
Lemma block_length (size n : Z) :
  0 ≤ size ≤ 65535 → 1 ≤ n ≤ 65535 →
  uint16 (uint16 (size - 1) - uint16 (size - n) + 1) = n.
Proof.
  intros Hs Hn.
  destruct (decide (size = 0)) as [->|H0].
  { rewrite (uint16_negative (0 - 1)), (uint16_negative (0 - n)) by lia.
    rewrite uint16_id by lia. lia. }
  rewrite (uint16_id (size - 1)) by lia.
  destruct (decide (n ≤ size)).
  - rewrite (uint16_id (size - n)) by lia. rewrite uint16_id by lia. lia.
  - rewrite (uint16_negative (size - n)) by lia.
    rewrite uint16_negative by lia. lia.
Qed.

(** X29.  [debugDraw] never sends more pixels than its arrays of 100 hold,
    whatever the size of the screen: the red block is 10 by 10 pixels, the
    green one 10 by 9 and the blue one 9 by 9.  On a screen of at least 10
    by 10 pixels the three blocks lie on the screen, the red one in the
    upper left corner, the green one on the lower edge at the left and the
    blue one in the lower right corner; this is the case in both
    orientations of the display. *)
Theorem debugDraw_blocks (screenWidth screenHeight : Z) :
  0 ≤ screenWidth ≤ 65535 → 0 ≤ screenHeight ≤ 65535 →
  ∃ red green blue,
    debugDrawOn screenWidth screenHeight = Some [red; green; blue] ∧
    (w red, h red, length (pixels red)) = (10, 10, 100%nat) ∧
    (w green, h green, length (pixels green)) = (10, 9, 90%nat) ∧
    (w blue, h blue, length (pixels blue)) = (9, 9, 81%nat) ∧
    (x red, y red) = (0, 0) ∧
    (10 ≤ screenWidth → 10 ≤ screenHeight →
     (x green, y green + h green) = (0, screenHeight) ∧
     (x blue + w blue, y blue + h blue) = (screenWidth, screenHeight)) ∧
    ∀ isPortrait,
      ∃ blocks,
        debugDraw isPortrait = Some blocks ∧
        Forall (λ block,
                  0 ≤ x block ∧ 0 ≤ y block ∧
                  x block + w block ≤ (if isPortrait then verticalRes else horizontalRes) ∧
                  y block + h block ≤ (if isPortrait then horizontalRes else verticalRes))
          blocks.
Proof.
  intros Hw Hh. unfold debugDrawOn, drawBlock.
  cbn [x1 y1 x2 y2].
  rewrite (block_length screenHeight 9), (block_length screenWidth 9) by lia.
  change (uint16 (9 - 0 + 1)) with 10.
  rewrite !bool_decide_eq_true_2 by lia. cbn [mbind option_bind].
  eexists _, _, _. split; [reflexivity|]. cbn [x y w h pixels].
  split; [reflexivity|]. split; [reflexivity|]. split; [reflexivity|].
  split; [reflexivity|]. split.
  - intros Hw10 Hh10. rewrite !uint16_id by lia. split; f_equal; lia.
  - intros isPortrait.
    destruct isPortrait;
      (eexists; split;
         [vm_compute; reflexivity|apply (bool_decide_unpack _); vm_compute; exact I]).
Qed.

(** X29 at the landscape orientation of the display. *)
Lemma debugDraw_blocks_landscape :
  ∃ red green blue,
    debugDraw false = Some [red; green; blue] ∧
    length (pixels green) = 90%nat ∧ length (pixels blue) = 81%nat.
Proof.
  destruct (debugDraw_blocks horizontalRes verticalRes) as
    (red & green & blue & E & _ & Hg & Hb & _).
  - unfold horizontalRes. lia.
  - unfold verticalRes. lia.
  - exists red, green, blue. split; [exact E|].
    injection Hg as _ _ Hg. injection Hb as _ _ Hb. split; [exact Hg|exact Hb].
Defined.

End DisplayFacts.
